(** * godot-mcp: process orchestration and command protocol layer

    A shallow embedding of the TypeScript sources
      - [project-utils.ts]      (ProjectUtils.validatePath)
      - [types.ts]              (PARAMETER_MAPPINGS)
      - [operation-executor.ts] (OperationExecutor)
      - [godot-path.ts]         (GodotPathManager.isValidGodotPath)
      - [tool-handlers.ts]      (ToolHandlers)
    together with the properties the specification states about them,
    and of the rest of [project-utils.ts] and [godot-path.ts], of the
    tool dispatch of [godot-server.ts] and of the configuration merge of
    [index.ts], with further properties of the code.

    Modelling conventions.
      - A JavaScript string is a [string]: a sequence of 8-bit characters,
        standing for UTF-16 code units below 256.  Every character the
        sources test for (dot, underscore, both quote characters, the
        capitals A to Z, line terminators, blanks) lies in that range.
      - A JavaScript object used as a dictionary is an association list in
        enumeration order ([for ... in] order), see [JS.obj_set].
      - The file system and child processes are the environment: they are
        passed to the functions as oracles, and every use is logged. *)

From Stdlib Require Import String Ascii List ZArith Lia Bool DecimalString.
From Stdlib Require DecimalN DecimalPos.
From stdpp Require Import base option list gmap strings.

Open Scope string_scope.
Open Scope list_scope.

(** ** JavaScript strings *)

Module JSString.

(** [s.startsWith(p)] *)
Fixpoint startsWith (p s : string) : bool :=
  match p, s with
  | EmptyString, _ => true
  | String _ _, EmptyString => false
  | String a p', String b s' => Ascii.eqb a b && startsWith p' s'
  end.

(** [s.includes(needle)]: [needle] occurs in [s] at some offset. *)
Fixpoint includes (needle s : string) : bool :=
  startsWith needle s ||
  match s with
  | EmptyString => false
  | String _ s' => includes needle s'
  end.

(** [s.split(sep)] for a separator given as a set of single characters
    (as [/[\\/]/] or ['\n']): empty pieces are kept, as in JavaScript. *)
Fixpoint split (sep : ascii -> bool) (s : string) : list string :=
  match s with
  | EmptyString => [EmptyString]
  | String c s' =>
      if sep c then EmptyString :: split sep s'
      else match split sep s' with
           | [] => [String c EmptyString]
           | piece :: rest => String c piece :: rest
           end
  end.

(** [s.replace(/c/g, r)] for a one-character pattern [c] (a predicate on
    characters) and a replacement computed from the matched character. *)
Fixpoint replaceChars (pat : ascii -> bool) (r : ascii -> string) (s : string) : string :=
  match s with
  | EmptyString => EmptyString
  | String c s' =>
      (if pat c then r c else String c EmptyString) +:+ replaceChars pat r s'
  end.

Definition isUpper (c : ascii) : bool :=
  let n := nat_of_ascii c in (65 <=? n)%nat && (n <=? 90)%nat.

(** Some character of [s] is one of the capitals A to Z. *)
Fixpoint hasUpper (s : string) : bool :=
  match s with
  | EmptyString => false
  | String c s' => isUpper c || hasUpper s'
  end.

(** [c.toLowerCase()] on one code unit below 256: ['A'..'Z'], and the
    Latin-1 capitals U+00C0..U+00DE except the multiplication sign U+00D7. *)
Definition toLowerChar (c : ascii) : ascii :=
  let n := nat_of_ascii c in
  if isUpper c then ascii_of_nat (n + 32)
  else if (192 <=? n)%nat && (n <=? 222)%nat && negb (n =? 215)%nat
       then ascii_of_nat (n + 32)
       else c.

Fixpoint toLowerCase (s : string) : string :=
  match s with
  | EmptyString => EmptyString
  | String c s' => String (toLowerChar c) (toLowerCase s')
  end.

(** White space and line terminators removed by [String.prototype.trim],
    restricted to code units below 256: TAB, LF, VT, FF, CR, SP, NBSP. *)
Definition isWhiteSpace (c : ascii) : bool :=
  let n := nat_of_ascii c in
  ((9 <=? n)%nat && (n <=? 13)%nat) || (n =? 32)%nat || (n =? 160)%nat.

Fixpoint trimStart (s : string) : string :=
  match s with
  | EmptyString => EmptyString
  | String c s' => if isWhiteSpace c then trimStart s' else s
  end.

(** [trimEnd] drops the longest white suffix: a character is kept when it
    is not white or when something is kept after it. *)
Fixpoint trimEnd (s : string) : string :=
  match s with
  | EmptyString => EmptyString
  | String c s' =>
      match trimEnd s' with
      | EmptyString => if isWhiteSpace c then EmptyString else String c EmptyString
      | kept => String c kept
      end
  end.

Definition trim (s : string) : string := trimEnd (trimStart s).

(** [l.join(sep)] *)
Fixpoint join (sep : string) (l : list string) : string :=
  match l with
  | [] => EmptyString
  | [x] => x
  | x :: rest => x +:+ sep +:+ join sep rest
  end.

End JSString.

(** ** project-utils.ts *)

Module ProjectUtils.

(** [static validatePath(path: string): boolean]
<<
    if (!path || path.includes('..')) { return false; }
    return true;
>>
    [!path] holds of the empty string only. *)
Definition validatePath (path : string) : bool :=
  if String.eqb path "" || JSString.includes ".." path then false else true.

End ProjectUtils.

(** *** Path vocabulary of the specification *)

Module PathSpec.

Definition isSeparator (c : ascii) : bool :=
  Ascii.eqb c "/" || Ascii.eqb c "\".

(** The segments of a path, split at forward and backward separators. *)
Definition segments (p : string) : list string := JSString.split isSeparator p.

(** The path has a parent-directory segment: a segment that is exactly [..]. *)
Definition hasParentSegment (p : string) : bool :=
  existsb (String.eqb "..") (segments p).

(** A relative path: no leading separator (hence no POSIX root, no UNC
    prefix) and no drive prefix [X:]. *)
Definition isRelative (p : string) : bool :=
  match p with
  | String c rest =>
      negb (isSeparator c) &&
      negb (JSString.startsWith ":" rest)
  | EmptyString => true
  end.

End PathSpec.

(** ** JavaScript values and objects *)

Module JS.

#[local] Unset Elimination Schemes.

(** JSON data, the values tool arguments are made of.  Numbers are
    restricted to the integers JavaScript holds exactly and prints in
    decimal (magnitude below 2^53). *)
Inductive Value : Type :=
| VNull
| VBool (b : bool)
| VNum (n : Z)
| VStr (s : string)
| VArr (elems : list Value)
| VObj (props : list (string * Value)).
#[local] Set Elimination Schemes.

(** An object as a dictionary: its own enumerable properties in
    enumeration order. *)
Definition Obj (A : Type) : Type := list (string * A).

(** [ToBoolean] *)
Definition truthy (v : Value) : bool :=
  match v with
  | VNull => false
  | VBool b => b
  | VNum n => negb (n =? 0)%Z
  | VStr s => negb (String.eqb s "")
  | VArr _ | VObj _ => true
  end.

Definition keys {A} (o : Obj A) : list string := map fst o.

(** The own property [k] of [o]. *)
Fixpoint obj_own {A} (o : Obj A) (k : string) : option A :=
  match o with
  | [] => None
  | (k', v) :: rest => if String.eqb k' k then Some v else obj_own rest k
  end.

(** Every object the sources create with [{}] or an object literal inherits
    from [Object.prototype]; these are its members (V8). *)
Definition objectPrototypeMembers : list string :=
  [ "constructor"; "__defineGetter__"; "__defineSetter__"; "hasOwnProperty";
    "__lookupGetter__"; "__lookupSetter__"; "isPrototypeOf";
    "propertyIsEnumerable"; "toString"; "valueOf"; "__proto__";
    "toLocaleString" ].

Definition isPrototypeMember (k : string) : bool :=
  existsb (String.eqb k) objectPrototypeMembers.

(** The outcome of a property read [o[k]]. *)
Inductive Read (A : Type) : Type :=
| Own (a : A)
| Inherited (name : string)
| Undefined.
Arguments Own {A} a.
Arguments Inherited {A} name.
Arguments Undefined {A}.

Definition obj_read {A} (o : Obj A) (k : string) : Read A :=
  match obj_own o k with
  | Some a => Own a
  | None => if isPrototypeMember k then Inherited k else Undefined
  end.

(** Inherited members are functions, or [Object.prototype] itself for
    [__proto__]: all truthy. *)
Definition readTruthy (r : Read Value) : bool :=
  match r with
  | Own v => truthy v
  | Inherited _ => true
  | Undefined => false
  end.

(** [String(m)] for an inherited member [m], which is what becomes of it
    when it is used as a property key. *)
Definition inheritedKeyString (name : string) : string :=
  if String.eqb name "__proto__" then "[object Object]"
  else "function " +:+ (if String.eqb name "constructor" then "Object" else name)
       +:+ "() { [native code] }".

Definition isDigit (c : ascii) : bool :=
  let n := nat_of_ascii c in (48 <=? n)%nat && (n <=? 57)%nat.

Fixpoint digitsValue (acc : N) (s : string) : option N :=
  match s with
  | EmptyString => Some acc
  | String c s' =>
      if isDigit c
      then digitsValue (acc * 10 + N.of_nat (nat_of_ascii c - 48)) s'
      else None
  end.

(** [k] is an array index: the canonical decimal numeral of an integer
    below 2^32 - 1.  Such keys are enumerated first, in numeric order. *)
Definition arrayIndex (k : string) : option N :=
  match k with
  | EmptyString => None
  | String c rest =>
      if Ascii.eqb c "0" && negb (String.eqb rest "") then None
      else match digitsValue 0 k with
           | Some n => if (n <? 4294967295)%N then Some n else None
           | None => None
           end
  end.

Fixpoint obj_update {A} (o : Obj A) (k : string) (v : A) : Obj A :=
  match o with
  | [] => []
  | (k', v') :: rest =>
      if String.eqb k' k then (k', v) :: rest else (k', v') :: obj_update rest k v
  end.

Fixpoint obj_insert_index {A} (n : N) (k : string) (v : A) (o : Obj A) : Obj A :=
  match o with
  | [] => [(k, v)]
  | (k', v') :: rest =>
      match arrayIndex k' with
      | Some m => if (m <? n)%N then (k', v') :: obj_insert_index n k v rest
                  else (k, v) :: o
      | None => (k, v) :: o
      end
  end.

(** The assignment [o[k] = v] on an object created by [{}]:
    - [__proto__] is the accessor of [Object.prototype]; assigning it
      creates no own property;
    - an existing own property keeps its place and takes the new value;
    - a new array-index key goes among the index keys, in numeric order;
    - any other new key goes last. *)
Definition obj_set {A} (o : Obj A) (k : string) (v : A) : Obj A :=
  if String.eqb k "__proto__" then o
  else match obj_own o k with
       | Some _ => obj_update o k v
       | None =>
           match arrayIndex k with
           | Some n => obj_insert_index n k v o
           | None => o ++ [(k, v)]
           end
       end.

(** The value a loop of assignments [result[K key] = V value], one for
    each entry, stores last under [k]. *)
Fixpoint lastStored {A B} (K : string -> string) (V : B -> A)
    (entries : list (string * B)) (k : string) : option A :=
  match entries with
  | [] => None
  | (key, value) :: rest =>
      match lastStored K V rest k with
      | Some v => Some v
      | None => if String.eqb (K key) k then Some (V value) else None
      end
  end.

(** [const { k, ...rest } = o]: the own properties other than [k]. *)
Definition obj_rest {A} (k : string) (o : Obj A) : Obj A :=
  List.filter (fun kv => negb (String.eqb k kv.1)) o.

(** Well-formed JSON data: no object has two properties of the same name. *)
Fixpoint wf (v : Value) : Prop :=
  match v with
  | VArr elems => fold_right (fun e P => wf e /\ P) True elems
  | VObj props =>
      List.NoDup (map fst props) /\
      fold_right (fun kv P => wf kv.2 /\ P) True props
  | _ => True
  end.

(** The keys of the elements of an array, as [for ... in] yields them. *)
Definition indexKey (i : nat) : string :=
  NilEmpty.string_of_uint (Nat.to_uint i).

(** The double quote character. *)
Definition dquote : ascii := ascii_of_nat 34.

(** [s] between double quotes. *)
Definition inQuotes (s : string) : string :=
  String dquote (s +:+ String dquote EmptyString).

Definition decimal (n : Z) : string := NilZero.string_of_int (Z.to_int n).

(** [String(v)], the conversion a template literal applies. *)
Fixpoint toStr (v : Value) : string :=
  match v with
  | VNull => "null"
  | VBool b => if b then "true" else "false"
  | VNum n => decimal n
  | VStr s => s
  | VArr elems =>
      JSString.join ","
        (map (fun e => match e with VNull => EmptyString | _ => toStr e end) elems)
  | VObj _ => "[object Object]"
  end.

Definition hexDigit (n : nat) : ascii :=
  nth n [ "0"; "1"; "2"; "3"; "4"; "5"; "6"; "7"; "8"; "9";
          "a"; "b"; "c"; "d"; "e"; "f" ]%char "0"%char.

(** [JSON.stringify] of one character of a string: the double quote and
    the backslash are escaped, control characters are written by their
    short escape or as a [\u00XX] escape. *)
Definition jsonEscapeChar (c : ascii) : string :=
  let n := nat_of_ascii c in
  if (n =? 34)%nat then String "\" (String dquote EmptyString)
  else if (n =? 92)%nat then "\\"
  else if (n =? 8)%nat then "\b"
  else if (n =? 12)%nat then "\f"
  else if (n =? 10)%nat then "\n"
  else if (n =? 13)%nat then "\r"
  else if (n =? 9)%nat then "\t"
  else if (n <? 32)%nat
       then "\u00" +:+ String (hexDigit (n / 16)) (String (hexDigit (n mod 16)) EmptyString)
       else String c EmptyString.

Definition jsonQuote (s : string) : string :=
  inQuotes (JSString.replaceChars (fun _ => true) jsonEscapeChar s).

(** [JSON.stringify(v)] without indentation. *)
Fixpoint stringify (v : Value) : string :=
  match v with
  | VNull => "null"
  | VBool b => if b then "true" else "false"
  | VNum n => decimal n
  | VStr s => jsonQuote s
  | VArr elems => "[" +:+ JSString.join "," (map stringify elems) +:+ "]"
  | VObj props =>
      "{" +:+ JSString.join ","
                (map (fun kv => let '(k, x) := kv in jsonQuote k +:+ ":" +:+ stringify x) props)
          +:+ "}"
  end.

(** [JSON.stringify(v, null, 2)]: two blanks of indentation a level, an
    empty array or object on one line. *)
Fixpoint stringifyIndented (indent : string) (v : Value) : string :=
  let inner := indent +:+ "  " in
  let sep := String "," (String (ascii_of_nat 10) inner) in
  let nl := String (ascii_of_nat 10) EmptyString in
  match v with
  | VArr [] => "[]"
  | VArr elems =>
      "[" +:+ nl +:+ inner
          +:+ JSString.join sep (map (stringifyIndented inner) elems)
          +:+ nl +:+ indent +:+ "]"
  | VObj [] => "{}"
  | VObj props =>
      "{" +:+ nl +:+ inner
          +:+ JSString.join sep
                (map (fun kv => let '(k, x) := kv in
                                jsonQuote k +:+ ": " +:+ stringifyIndented inner x) props)
          +:+ nl +:+ indent +:+ "}"
  | _ => stringify v
  end.

End JS.

(** ** types.ts *)

Module Types.

(** [export const PARAMETER_MAPPINGS: Record<string, string>] *)
Definition PARAMETER_MAPPINGS : JS.Obj string :=
  [ ("project_path", "projectPath");
    ("scene_path", "scenePath");
    ("root_node_type", "rootNodeType");
    ("parent_node_path", "parentNodePath");
    ("node_type", "nodeType");
    ("node_name", "nodeName");
    ("texture_path", "texturePath");
    ("node_path", "nodePath");
    ("output_path", "outputPath");
    ("mesh_item_names", "meshItemNames");
    ("new_path", "newPath");
    ("file_path", "filePath");
    ("directory", "directory");
    ("recursive", "recursive");
    ("scene", "scene") ].

End Types.

(** ** operation-executor.ts *)

Module OperationExecutor.

Import JS Types.

(** The constructor fills the reverse table:
<<
    for (const [snakeCase, camelCase] of Object.entries(PARAMETER_MAPPINGS)) {
      this.reverseParameterMappings[camelCase] = snakeCase;
    }
>> *)
Definition reverseParameterMappings : Obj string :=
  fold_left (fun reverse '(snakeCase, camelCase) => obj_set reverse camelCase snakeCase)
            PARAMETER_MAPPINGS [].

(** The key an entry of the input is stored under by [normalizeParameters]:
<<
    let normalizedKey = key;
    if (key.includes('_') && PARAMETER_MAPPINGS[key]) {
      normalizedKey = PARAMETER_MAPPINGS[key];
    }
>>
    followed by the coercion of [result[normalizedKey]] to a property key. *)
Definition normalizedKey (key : string) : string :=
  if JSString.includes "_" key then
    match obj_read PARAMETER_MAPPINGS key with
    | Own camelCase => if String.eqb camelCase "" then key else camelCase
    | Inherited name => inheritedKeyString name
    | Undefined => key
    end
  else key.

(** The value an entry is stored with: a nested plain object
    ([typeof v === 'object' && v !== null && !Array.isArray(v)]) goes
    through the recursive call [self], anything else (arrays too) is
    stored as it is. *)
Definition nested (self : Value -> Value) (value : Value) : Value :=
  match value with VObj _ => self value | _ => value end.

(** One turn of the loop of [normalizeParameters]. *)
Definition normalizeStep (self : Value -> Value)
    (result : Obj Value) (entry : string * Value) : Obj Value :=
  let '(key, value) := entry in
  obj_set result (normalizedKey key) (nested self value).

(** [normalizeParameters(params: OperationParams): OperationParams].
    An array is an object too ([typeof] gives ['object']), so an array
    handed in at top level is walked by its index keys; nested arrays are
    stored as they are. *)
Fixpoint normalizeParameters (params : Value) : Value :=
  match params with
  | VObj props =>
      VObj (fold_left (fun result entry =>
                         let '(key, value) := entry in
                         obj_set result (normalizedKey key)
                           (match value with
                            | VObj _ => normalizeParameters value
                            | _ => value
                            end))
                      props [])
  | VArr elems =>
      VObj ((fix loop (i : nat) (elems : list Value) (result : Obj Value) : Obj Value :=
               match elems with
               | [] => result
               | value :: rest =>
                   loop (S i) rest
                        (obj_set result (normalizedKey (indexKey i))
                           (match value with
                            | VObj _ => normalizeParameters value
                            | _ => value
                            end))
               end) 0%nat elems [])
  | _ => params
  end.

(** [normalizeParameters] on an argument map. *)
Definition normalizeArgs (args : Obj Value) : Obj Value :=
  fold_left (normalizeStep normalizeParameters) args [].

(** The fallback of [convertCamelToSnakeCase]:
    [key.replace(/[A-Z]/g, letter => `_${letter.toLowerCase()}`)] *)
Definition camelToSnake (key : string) : string :=
  JSString.replaceChars JSString.isUpper
    (fun letter => String "_" (String (JSString.toLowerChar letter) EmptyString)) key.

(** [this.reverseParameterMappings[key] || key.replace(...)], coerced to a
    property key. *)
Definition snakeKey (key : string) : string :=
  match obj_read reverseParameterMappings key with
  | Own snakeCase => if String.eqb snakeCase "" then camelToSnake key else snakeCase
  | Inherited name => inheritedKeyString name
  | Undefined => camelToSnake key
  end.

(** One turn of the loop of [convertCamelToSnakeCase]. *)
Definition convertStep (self : Value -> Value)
    (result : Obj Value) (entry : string * Value) : Obj Value :=
  let '(key, value) := entry in
  obj_set result (snakeKey key) (nested self value).

(** [convertCamelToSnakeCase(params)], on values so that it can recurse
    into nested plain objects; it is only ever applied to objects. *)
Fixpoint convertValue (params : Value) : Value :=
  match params with
  | VObj props =>
      VObj (fold_left (fun result entry =>
                         let '(key, value) := entry in
                         obj_set result (snakeKey key)
                           (match value with
                            | VObj _ => convertValue value
                            | _ => value
                            end))
                      props [])
  | _ => params
  end.

(** [private convertCamelToSnakeCase(params: OperationParams): OperationParams] *)
Definition convertCamelToSnakeCase (params : Obj Value) : Obj Value :=
  fold_left (convertStep convertValue) params [].

End OperationExecutor.

(** ** Command construction and execution (operation-executor.ts) *)

Module Command.

Import JS OperationExecutor.

Record ExecOutput : Type := { stdout : string; stderr : string }.

(** The promise [execAsync(cmd)] gives: resolved; rejected with an error
    that carries the captured streams; rejected otherwise. *)
Inductive ExecResult : Type :=
| Resolved (out : ExecOutput)
| RejectedWithOutput (out : ExecOutput)
| Rejected (message : string).

(** What the executor sees of the host. *)
Record Host : Type := {
  isWindows : bool;            (* process.platform === 'win32' *)
  godotDebugMode : bool;       (* process.env.GODOT_DEBUG_MODE === 'true' *)
  execAsync : string -> ExecResult
}.

(** What the executor sees of the path manager it is handed: the result of
    [getPath()] on entry and, should [detectGodotPath()] be called, whether
    it throws ([None]) or which path [getPath()] gives afterwards. *)
Record PathManager : Type := {
  getPath : option string;
  detectGodotPath : option (option string)
}.

Inductive Effect : Type :=
| Detect
| Exec (cmd : string).

Inductive Outcome : Type :=
| Returned (out : ExecOutput)
| Thrown (message : string).

(** [paramsJson.replace(/'/g, ...)] with the three-character replacement
    the source gives: quote, backslash, quote. *)
Definition escapedParams (paramsJson : string) : string :=
  JSString.replaceChars (Ascii.eqb "'") (fun _ => "'\'") paramsJson.

(** [quotedParams]: on Windows a backslash, a double quote, the JSON with
    each double quote preceded by a backslash, and a double quote;
    elsewhere the escaped JSON between single quotes. *)
Definition quotedParams (windows : bool) (paramsJson : string) : string :=
  if windows
  then String "\" (String dquote
         (JSString.replaceChars (Ascii.eqb dquote)
            (fun _ => String "\" (String dquote EmptyString)) paramsJson
          +:+ String dquote EmptyString))
  else "'" +:+ escapedParams paramsJson +:+ "'".

(** The command line [cmd].  [godotPath] is the constant read before any
    detection, so an unset path is printed as [null]. *)
Definition commandLine (host : Host) (operationsScriptPath : string)
    (godotPath : option string) (projectPath operation : string)
    (snakeCaseParams : Obj Value) : string :=
  let paramsJson := stringify (VObj snakeCaseParams) in
  let debugArgs := if godotDebugMode host then ["--debug-godot"] else [] in
  JSString.join " "
    ([ inQuotes (match godotPath with Some p => p | None => "null" end);
       "--headless";
       "--path";
       inQuotes projectPath;
       "--script";
       inQuotes operationsScriptPath;
       operation;
       quotedParams (isWindows host) paramsJson ] ++ debugArgs).

(** [!path] for a path that is a string or [null]. *)
Definition unset (path : option string) : bool :=
  match path with
  | Some p => String.eqb p ""
  | None => true
  end.

(** The error [detectGodotPath] throws in strict mode. *)
Definition detectError : string :=
  "Could not find a valid Godot executable. Set GODOT_PATH or provide a valid path in config.".

(** [async executeOperation(operation, params, projectPath, pathManager)],
    with the effects it has on the environment, in order.  The streams of
    a failed command are returned, any other failure is thrown. *)
Definition executeOperation (host : Host) (operationsScriptPath : string)
    (operation : string) (params : Obj Value) (projectPath : string)
    (pathManager : PathManager) : Outcome * list Effect :=
  let snakeCaseParams := convertCamelToSnakeCase params in
  let godotPath := getPath pathManager in
  let run (before : list Effect) :=
    let cmd := commandLine host operationsScriptPath godotPath
                           projectPath operation snakeCaseParams in
    (match execAsync host cmd with
     | Resolved out => Returned out
     | RejectedWithOutput out => Returned out
     | Rejected message => Thrown message
     end, before ++ [Exec cmd]) in
  if unset godotPath then
    match detectGodotPath pathManager with
    | None => (Thrown detectError, [Detect])
    | Some newPath =>
        if unset newPath
        then (Thrown "Could not find a valid Godot executable path", [Detect])
        else run [Detect]
    end
  else run [].

End Command.

(** ** The quoting rules of the POSIX shell the specification names *)

Module Posix.

Inductive QuoteState : Type := Unquoted | SingleQuoted.

(** The word the shell makes of a token: between single quotes every
    character stands for itself; outside them a single quote opens a
    quoted part, a backslash makes the next character stand for itself,
    and any other character stands for itself.  [None]: the token ends
    with a quote left open. *)
Fixpoint unquote (st : QuoteState) (token : string) : option string :=
  match token with
  | EmptyString =>
      match st with Unquoted => Some EmptyString | SingleQuoted => None end
  | String c rest =>
      match st with
      | SingleQuoted =>
          if Ascii.eqb c "'" then unquote Unquoted rest
          else option_map (String c) (unquote SingleQuoted rest)
      | Unquoted =>
          if Ascii.eqb c "'" then unquote SingleQuoted rest
          else if Ascii.eqb c "\" then
                 match rest with
                 | String d rest' => option_map (String d) (unquote Unquoted rest')
                 | EmptyString => Some (String c EmptyString)
                 end
               else option_map (String c) (unquote Unquoted rest)
      end
  end.

Definition shellWord (token : string) : option string := unquote Unquoted token.

(** The scheme the specification describes: each embedded single quote
    becomes closing quote, backslash-quote, reopening quote. *)
Definition specQuote (s : string) : string :=
  "'" +:+ JSString.replaceChars (Ascii.eqb "'") (fun _ => "'\''") s +:+ "'".

End Posix.

(** ** godot-path.ts *)

Module GodotPathManager.

(** The ground truth a validation consults: the file system and the
    outcome of running a version query. *)
Record World : Type := {
  existsSync : string -> bool;
  versionQuerySucceeds : string -> bool   (* [await execAsync(command)] does not throw *)
}.

(** The consultations of the ground truth, as they happen. *)
Inductive Probe : Type :=
| ProbeExists (path : string)
| ProbeExec (command : string).

Definition isExec (p : Probe) : bool :=
  match p with ProbeExec _ => true | ProbeExists _ => false end.

Definition isExists (p : Probe) : bool :=
  match p with ProbeExists _ => true | ProbeExec _ => false end.

(** [async isValidGodotPath(path: string): Promise<boolean>] over the
    field [validatedPaths: Map<string, boolean>]: the answer, the map
    afterwards, and the probes made. *)
Definition isValidGodotPath (world : World) (path : string)
    (validatedPaths : gmap string bool) : bool * gmap string bool * list Probe :=
  match validatedPaths !! path with
  | Some cached => (cached, validatedPaths, [])
  | None =>
      if negb (String.eqb path "godot") && negb (existsSync world path)
      then (false, <[path := false]> validatedPaths, [ProbeExists path])
      else
        let command :=
          if String.eqb path "godot" then "godot --version"
          else JS.inQuotes path +:+ " --version" in
        let probes :=
          (if String.eqb path "godot" then [] else [ProbeExists path])
          ++ [ProbeExec command] in
        if versionQuerySucceeds world command
        then (true, <[path := true]> validatedPaths, probes)
        else (false, <[path := false]> validatedPaths, probes)
  end.

End GodotPathManager.

(** ** tool-handlers.ts *)

Module ToolHandlers.

Import JS.

Definition LF : ascii := ascii_of_nat 10.
Definition CR : ascii := ascii_of_nat 13.

(** A tool response: the texts of its [content] and the [isError] flag. *)
Record Response : Type := { content : list string; isError : bool }.

(** [private createErrorResponse(message, possibleSolutions)] *)
Definition createErrorResponse (message : string) (possibleSolutions : list string) : Response :=
  {| content :=
       message ::
       match possibleSolutions with
       | [] => []
       | _ => [ "Possible solutions:" +:+ String LF "- "
                +:+ JSString.join (String LF "- ") possibleSolutions ]
       end;
     isError := true |}.

Definition textResponse (texts : list string) : Response :=
  {| content := texts; isError := false |}.

(** The [TypeError]s the handlers can run into on arguments that are not
    strings; their messages are Node's. *)
Inductive Exception : Type :=
| IncludesNotAFunction                  (* [path.includes] on a number, boolean or object *)
| PathNotAString (v : Value)            (* [join(v, 'project.godot')] *)
| SpawnFileInvalid (f : option string). (* [spawn(null, ...)], [spawn('', ...)] *)

(** [ProjectUtils.validatePath(v)] on whatever value a caller supplied:
    a falsy value is refused; a string is searched for two dots; an array
    has an [includes] of its own, which looks for an element equal to the
    string of two dots; anything else has no [includes]. *)
Definition validatePathDyn (v : Value) : option bool :=
  if negb (truthy v) then Some false
  else match v with
       | VStr s => Some (ProjectUtils.validatePath s)
       | VArr elems =>
           Some (negb (existsb (fun e => match e with
                                         | VStr s => String.eqb s ".."
                                         | _ => false
                                         end) elems))
       | _ => None
       end.

(** *** Extraction of the JSON payload *)

(** [output.split(/\r?\n/)]: a line feed separates, and takes a carriage
    return just before it along. *)
Fixpoint splitLines (s : string) : list string :=
  match s with
  | EmptyString => [EmptyString]
  | String c s' =>
      let continue :=
        match splitLines s' with
        | [] => [String c EmptyString]
        | line :: rest => String c line :: rest
        end in
      if Ascii.eqb c LF then EmptyString :: splitLines s'
      else if Ascii.eqb c CR then
             match s' with
             | String d s'' =>
                 if Ascii.eqb d LF then EmptyString :: splitLines s'' else continue
             | EmptyString => continue
             end
           else continue
  end.

(** The lines the scan looks at: trimmed, the empty ones dropped. *)
Definition outputLines (output : string) : list string :=
  List.filter (fun line => negb (String.length line =? 0)%nat)
              (map JSString.trim (splitLines (JSString.trim output))).

Inductive Extracted : Type :=
| Parsed (json : Value)
| ExtractError (message : string).

Section Extraction.

(** [JSON.parse], [None] when it throws. *)
Variable JSON_parse : string -> option Value.

(** [for (let index = lines.length - 1; index >= 0; index -= 1)], with
    [count = index + 1]. *)
Fixpoint scanBackward (lines : list string) (count : nat) : Extracted :=
  match count with
  | O => ExtractError "Unable to parse JSON content from Godot output"
  | S index =>
      match lines !! index with
      | Some line =>
          match JSON_parse line with
          | Some json => Parsed json
          | None => scanBackward lines index
          end
      | None => scanBackward lines index
      end
  end.

(** [private extractJsonFromOutput(output: string): any] *)
Definition extractJsonFromOutput (output : string) : Extracted :=
  if String.eqb (JSString.trim output) ""
  then ExtractError "No JSON content returned from Godot"
  else let lines := outputLines output in
       scanBackward lines (length lines).

(** *** The generic operation handler *)

Record OperationToolOptions : Type := {
  expectsJson : bool;
  successMessage : option string
}.

(** One call of [this.operationExecutor.executeOperation]. *)
Record Call : Type := {
  callOperation : string;
  callParams : Obj Value;
  callProjectPath : option Value      (* [None]: [undefined] *)
}.

(** What a handler is given: the project marker check
    [existsSync(join(p, 'project.godot'))], the executor, the path the
    path manager holds, and the messages of the exceptions. *)
Record Env : Type := {
  projectMarker : string -> bool;
  executeOperation : Call -> Command.Outcome * list Command.Effect;
  godotPath : option string;
  errorMessage : Exception -> string
}.

(** The executor the server is built with: [executeOperation] of
    operation-executor.ts on a host, with its script and path manager.
    The project path goes into the command line through a template
    literal. *)
Definition operationExecutor (host : Command.Host) (operationsScriptPath : string)
    (pathManager : Command.PathManager) (call : Call)
    : Command.Outcome * list Command.Effect :=
  Command.executeOperation host operationsScriptPath
    (callOperation call) (callParams call)
    (match callProjectPath call with
     | Some v => toStr v
     | None => "undefined"
     end)
    pathManager.

Record Handled : Type := {
  response : Response;
  calls : list Call;
  effects : list Command.Effect
}.

Definition answer (r : Response) : Handled :=
  {| response := r; calls := []; effects := [] |}.

(** [error?.message || 'Unknown error'] *)
Definition orUnknown (message : string) : string :=
  if String.eqb message "" then "Unknown error" else message.

Definition executionSolutions : list string :=
  [ "Ensure Godot is installed correctly";
    "Check if the GODOT_PATH environment variable is set correctly";
    "Verify the project path is accessible" ].

Definition invalidProject (projectPath : string) : Response :=
  createErrorResponse
    ("Not a valid Godot project: " +:+ projectPath)
    [ "Ensure the path points to a directory containing a project.godot file";
      "Use list_projects to find valid Godot projects" ].

(** [requiredParams.filter(param => !args[param])] *)
Definition missingParams (args : Obj Value) (requiredParams : list string) : list string :=
  List.filter (fun param => negb (readTruthy (obj_read args param))) requiredParams.

(** The keys whose lower-case form includes [path] and whose value is a
    string that [validatePath] refuses. *)
Definition invalidPaths (args : Obj Value) : list string :=
  List.filter
    (fun param =>
       match obj_read args param with
       | Own (VStr value) => negb (ProjectUtils.validatePath value)
       | _ => false
       end)
    (List.filter (fun param => JSString.includes "path" (JSString.toLowerCase param))
                 (keys args)).

(** What the handler makes of the outcome of the operation. *)
Definition conclude (toolName : string) (options : OperationToolOptions)
    (outcome : Command.Outcome) : Response :=
  match outcome with
  | Command.Thrown message =>
      createErrorResponse ("Failed to " +:+ toolName +:+ ": " +:+ orUnknown message)
                          executionSolutions
  | Command.Returned out =>
      if JSString.includes "Failed to" (Command.stderr out)
      then createErrorResponse
             ("Failed to " +:+ toolName +:+ ": " +:+ Command.stderr out)
             [ "Check the operation parameters";
               "Verify file paths are correct";
               "Ensure proper permissions" ]
      else if expectsJson options then
             match extractJsonFromOutput (Command.stdout out) with
             | Parsed json =>
                 textResponse
                   [ match successMessage options with
                     | Some m => if String.eqb m ""
                                 then toolName +:+ " completed successfully."
                                 else m
                     | None => toolName +:+ " completed successfully."
                     end;
                     stringifyIndented "" json ]
             | ExtractError _ =>
                 createErrorResponse
                   ("Failed to " +:+ toolName +:+ ": Unable to parse JSON output")
                   [ "Run with DEBUG=true for verbose logging";
                     "Verify the requested resource exists and is readable" ]
             end
           else textResponse
                  [ toolName +:+ " completed successfully."
                    +:+ String LF (String LF "Output: ") +:+ Command.stdout out ]
  end.

(** [const { projectPath, ...params } = args;] and the call
    [executeOperation(operation, params, projectPath, this.pathManager)]. *)
Definition operationCall (operation : string) (args : Obj Value) : Call :=
  {| callOperation := operation;
     callParams := obj_rest "projectPath" args;
     callProjectPath := obj_own args "projectPath" |}.

(** [async handleOperationTool(toolName, operation, args, requiredParams, options)] *)
Definition handleOperationTool (env : Env) (toolName operation : string)
    (args : Obj Value) (requiredParams : list string)
    (options : OperationToolOptions) : Handled :=
  let args := OperationExecutor.normalizeArgs args in
  match missingParams args requiredParams with
  | (_ :: _) as missing =>
      answer (createErrorResponse
                ("Missing required parameters: " +:+ JSString.join ", " missing)
                [ "Provide " +:+ JSString.join ", " missing ])
  | [] =>
      match invalidPaths args with
      | _ :: _ =>
          answer (createErrorResponse "Invalid path"
                    [ "Provide valid paths without "
                      +:+ inQuotes ".." +:+ " or other potentially unsafe characters" ])
      | [] =>
          let projectPath := obj_own args "projectPath" in
          let execute :=
            let call := operationCall operation args in
            let '(outcome, effs) := executeOperation env call in
            {| response := conclude toolName options outcome;
               calls := [call];
               effects := effs |} in
          match projectPath with
          | Some v =>
              if truthy v then
                match v with
                | VStr p => if projectMarker env p then execute
                            else answer (invalidProject p)
                | _ => answer (createErrorResponse
                                 ("Failed to " +:+ toolName +:+ ": "
                                  +:+ orUnknown (errorMessage env (PathNotAString v)))
                                 executionSolutions)
                end
              else execute
          | None => execute
          end
      end
  end.

End Extraction.

(** *** The supervised process *)

(** A child process the handlers spawned, with the two arrays its stream
    callbacks push to.  [killed]: [kill()] was called on it.  [gone]: its
    [exit] or [error] notification was delivered. *)
Record GodotProcess : Type := {
  file : string;
  cmdArgs : list string;
  killed : bool;
  gone : bool;
  output : list string;
  errors : list string
}.

(** The field [activeProcess] and the processes spawned so far; a process
    is known by its position in the list, and [activeProcess] refers to
    the arrays of the process it names. *)
Record State : Type := {
  activeProcess : option nat;
  processes : list GodotProcess
}.

Definition initial : State := {| activeProcess := None; processes := [] |}.

(** What a handler does to processes, in order. *)
Inductive Action : Type :=
| Kill (pid : nat)
| Spawn (pid : nat)
| Track (pid : nat)
| Untrack.

(** What becomes of the promise of a handler. *)
Inductive Reply : Type :=
| Replied (r : Response)
| Rejects (e : Exception).

Definition setKilled (p : GodotProcess) : GodotProcess :=
  {| file := file p; cmdArgs := cmdArgs p; killed := true; gone := gone p;
     output := output p; errors := errors p |}.

Definition setGone (p : GodotProcess) : GodotProcess :=
  {| file := file p; cmdArgs := cmdArgs p; killed := killed p; gone := true;
     output := output p; errors := errors p |}.

Definition pushOutput (lines : list string) (p : GodotProcess) : GodotProcess :=
  {| file := file p; cmdArgs := cmdArgs p; killed := killed p; gone := gone p;
     output := output p ++ lines; errors := errors p |}.

Definition pushErrors (lines : list string) (p : GodotProcess) : GodotProcess :=
  {| file := file p; cmdArgs := cmdArgs p; killed := killed p; gone := gone p;
     output := output p; errors := errors p ++ lines |}.

(** [this.activeProcess.process.kill()] when there is an active process. *)
Definition killActive (st : State) : State * list Action :=
  match activeProcess st with
  | Some pid =>
      ({| activeProcess := activeProcess st;
          processes := alter setKilled pid (processes st) |}, [Kill pid])
  | None => (st, [])
  end.

Definition runSolutions : list string := executionSolutions.

Definition runFailure (env : Env) (e : Exception) : Response :=
  createErrorResponse
    ("Failed to run Godot project: " +:+ orUnknown (errorMessage env e))
    runSolutions.

(** [async handleRunProject(args: any)] *)
Definition handleRunProject (env : Env) (args : Obj Value) (st : State)
    : Reply * State * list Action :=
  let args := OperationExecutor.normalizeArgs args in
  match obj_own args "projectPath" with
  | None =>
      (Replied (createErrorResponse "Project path is required"
                  [ "Provide a valid path to a Godot project directory" ]), st, [])
  | Some projectPath =>
      if negb (truthy projectPath) then
        (Replied (createErrorResponse "Project path is required"
                    [ "Provide a valid path to a Godot project directory" ]), st, [])
      else
        match validatePathDyn projectPath with
        | None => (Rejects IncludesNotAFunction, st, [])
        | Some false =>
            (Replied (createErrorResponse "Invalid project path"
                        [ "Provide a valid path without " +:+ inQuotes ".."
                          +:+ " or other potentially unsafe characters" ]), st, [])
        | Some true =>
            match projectPath with
            | VStr path =>
                if negb (projectMarker env path)
                then (Replied (invalidProject path), st, [])
                else
                  (* Kill any existing process *)
                  let '(st1, killing) := killActive st in
                  let base := [ "-d"; "--path"; path ] in
                  (* the arguments, or the exception met on the way *)
                  let arguments : Exception + list string :=
                    match obj_own args "scene" with
                    | None => inr base
                    | Some scene =>
                        if truthy scene then
                          match validatePathDyn scene with
                          | None => inl IncludesNotAFunction
                          | Some false => inr base
                          | Some true =>
                              (* [spawn] turns an argument into a string *)
                              inr (base ++ [toStr scene])
                          end
                        else inr base
                    end in
                  match arguments with
                  | inl e => (Replied (runFailure env e), st1, killing)
                  | inr cmdArgs =>
                      match godotPath env with
                      | None =>
                          (Replied (runFailure env (SpawnFileInvalid None)), st1, killing)
                      | Some EmptyString =>
                          (Replied (runFailure env (SpawnFileInvalid (Some ""))), st1, killing)
                      | Some godot =>
                          let pid := length (processes st1) in
                          let process :=
                            {| file := godot; cmdArgs := cmdArgs; killed := false;
                               gone := false; output := []; errors := [] |} in
                          (Replied (textResponse
                                      [ "Godot project started in debug mode. Use get_debug_output to see output." ]),
                           {| activeProcess := Some pid;
                              processes := processes st1 ++ [process] |},
                           killing ++ [Spawn pid; Track pid])
                      end
                  end
            | _ => (Replied (runFailure env (PathNotAString projectPath)), st, [])
            end
        end
  end.

Definition noProcess : GodotProcess :=
  {| file := ""; cmdArgs := []; killed := false; gone := false;
     output := []; errors := [] |}.

(** [async handleGetDebugOutput()] *)
Definition handleGetDebugOutput (st : State) : Response :=
  match activeProcess st with
  | None =>
      createErrorResponse "No active Godot process."
        [ "Use run_project to start a Godot project first";
          "Check if the Godot process crashed unexpectedly" ]
  | Some pid =>
      let p := default noProcess (processes st !! pid) in
      textResponse
        [ stringifyIndented ""
            (VObj [ ("output", VArr (map VStr (output p)));
                    ("errors", VArr (map VStr (errors p))) ]) ]
  end.

(** [async handleStopProject()] *)
Definition handleStopProject (st : State) : Response * State * list Action :=
  match activeProcess st with
  | None =>
      (createErrorResponse "No active Godot process to stop."
         [ "Use run_project to start a Godot project first";
           "The process may have already terminated" ], st, [])
  | Some pid =>
      let p := default noProcess (processes st !! pid) in
      (textResponse
         [ stringifyIndented ""
             (VObj [ ("message", VStr "Godot project stopped");
                     ("finalOutput", VArr (map VStr (output p)));
                     ("finalErrors", VArr (map VStr (errors p))) ]) ],
       {| activeProcess := None;
          processes := alter setKilled pid (processes st) |},
       [Kill pid; Untrack])
  end.


(** What the event loop delivers between two handlers. *)
Inductive Event : Type :=
| StdoutData (pid : nat) (data : string)
| StderrData (pid : nat) (data : string)
| Exit (pid : nat)
| Error (pid : nat).

(** [if (this.activeProcess && this.activeProcess.process === process)
      this.activeProcess = null;] *)
Definition releaseIfActive (pid : nat) (st : State) : option nat :=
  match activeProcess st with
  | Some active => if (active =? pid)%nat then None else Some active
  | None => None
  end.

(** The callbacks [handleRunProject] registers on the process [pid]:
    [data.toString().split('\n')] is pushed to the array of the stream. *)
Definition deliver (st : State) (ev : Event) : State :=
  match ev with
  | StdoutData pid data =>
      {| activeProcess := activeProcess st;
         processes := alter (pushOutput (JSString.split (Ascii.eqb LF) data)) pid (processes st) |}
  | StderrData pid data =>
      {| activeProcess := activeProcess st;
         processes := alter (pushErrors (JSString.split (Ascii.eqb LF) data)) pid (processes st) |}
  | Exit pid | Error pid =>
      {| activeProcess := releaseIfActive pid st;
         processes := alter setGone pid (processes st) |}
  end.

Definition deliverAll (st : State) (evs : list Event) : State :=
  fold_left deliver evs st.







End ToolHandlers.

(** ** Vocabulary of the specification *)

Module Spec.

Import JS.



(** The required parameters the normalized arguments have no entry for. *)
Definition absentParams (args : Obj Value) (requiredParams : list string) : list string :=
  List.filter (fun param => match obj_own (OperationExecutor.normalizeArgs args) param with
                            | None => true
                            | Some _ => false
                            end) requiredParams.

(** Every key of a map, and of the maps nested in it as values, is a key
    of the mapping table. *)
Fixpoint allKeysMapped (v : Value) : Prop :=
  match v with
  | VObj props =>
      fold_right (fun kv P => In kv.1 (keys Types.PARAMETER_MAPPINGS)
                              /\ allKeysMapped kv.2 /\ P) True props
  | _ => True
  end.

End Spec.

(** ** Sample environments for the examples *)

Module Demo.

Import JS ToolHandlers.

(** Every directory is a project, and the engine prints one log line and
    one JSON line. *)
Definition demoEnv : Env :=
  {| projectMarker := fun _ => true;
     executeOperation := fun _ =>
       (Command.Returned {| Command.stdout := "Godot Engine v4.4" +:+ String LF "{}";
                            Command.stderr := "" |},
        [Command.Exec "godot"]);
     godotPath := Some "godot";
     errorMessage := fun _ => "TypeError" |}.

(** A parser that knows the empty object only. *)
Definition demoParse : string -> option Value :=
  fun line => if String.eqb line "{}" then Some (VObj []) else None.

Definition noOptions : OperationToolOptions :=
  {| expectsJson := false; successMessage := None |}.

Definition jsonOptions : OperationToolOptions :=
  {| expectsJson := true; successMessage := Some "TileMap data retrieved successfully." |}.

(** A host that is not Windows, on which every command succeeds and
    prints nothing. *)
Definition posixHost : Command.Host :=
  {| Command.isWindows := false;
     Command.godotDebugMode := false;
     Command.execAsync := fun _ =>
       Command.Resolved {| Command.stdout := ""; Command.stderr := "" |} |}.

Definition godotFound : Command.PathManager :=
  {| Command.getPath := Some "godot"; Command.detectGodotPath := None |}.

(** The handlers wired to the executor, as the server does it. *)
Definition serverEnv : Env :=
  {| projectMarker := fun _ => true;
     executeOperation := operationExecutor posixHost "ops.gd" godotFound;
     godotPath := Some "godot";
     errorMessage := fun _ => "TypeError" |}.

End Demo.

(** ** The enumeration order of an object *)

Module ObjectOrder.

Import JS.

(** The order in which an object enumerates the keys [ks]: the array
    indices come first, in ascending order. *)
Fixpoint ordered (ks : list string) : Prop :=
  match ks with
  | [] => True
  | k :: rest =>
      ordered rest /\
      match arrayIndex k with
      | Some n => forall k' m, In k' rest -> arrayIndex k' = Some m -> (n < m)%N
      | None => forall k', In k' rest -> arrayIndex k' = None
      end
  end.

(** An object as assignments to [{}] build it: no key twice, no own
    property [__proto__], the keys in enumeration order. *)
Definition canonical {A} (o : Obj A) : Prop :=
  List.NoDup (keys o) /\ ~ In "__proto__" (keys o) /\ ordered (keys o).

(** The entries a [for ... in] loop over an array sees. *)
Fixpoint indexEntries (i : nat) (elems : list Value) : list (string * Value) :=
  match elems with
  | [] => []
  | value :: rest => (indexKey i, value) :: indexEntries (S i) rest
  end.

End ObjectOrder.

(** ** More vocabulary *)

Module Names.

Import JS.

(** Every key of a map, and of the maps nested in it as values, is one of
    the camelCase names of the mapping table. *)
Fixpoint allKeysCamel (v : Value) : Prop :=
  match v with
  | VObj props =>
      fold_right (fun kv P => In kv.1 (map snd Types.PARAMETER_MAPPINGS)
                              /\ allKeysCamel kv.2 /\ P) True props
  | _ => True
  end.

End Names.


(** ** godot-path.ts: the path manager as a whole *)

Module PathResolution.

Import GodotPathManager.

(** [process.platform] *)
Inductive Platform : Type := Darwin | Win32 | Linux | OtherPlatform.

(** What the path manager sees of the process it runs in: the platform,
    three variables of the environment ([None]: not set) and [normalize]
    of the module [path]. *)
Record Host : Type := {
  platform : Platform;
  GODOT_PATH : option string;
  HOME : option string;
  USERPROFILE : option string;
  normalize : string -> string
}.

(** The fields of [GodotPathManager]. *)
Record Manager : Type := {
  validatedPaths : gmap string bool;
  godotPath : option string;               (* [None]: [null] *)
  strictPathValidation : bool
}.

Definition withPath (m : Manager) (path : option string) : Manager :=
  {| validatedPaths := validatedPaths m;
     godotPath := path;
     strictPathValidation := strictPathValidation m |}.

(** [getPath(): string | null] *)
Definition getPath (m : Manager) : option string := godotPath m.

(** [private isValidGodotPathSync(path: string): boolean] *)
Definition isValidGodotPathSync (world : World) (path : string) : bool * list Probe :=
  if String.eqb path "godot" then (true, [])
  else (existsSync world path, [ProbeExists path]).

(** The argument of the constructor; [None]: the property is absent. *)
Record Options : Type := {
  optStrictPathValidation : option bool;
  initialPath : option string
}.

(** [constructor(options)] *)
Definition construct (world : World) (host : Host) (options : Options)
    : Manager * list Probe :=
  let strict := default false (optStrictPathValidation options) in
  let unset := {| validatedPaths := ∅; godotPath := None;
                  strictPathValidation := strict |} in
  match initialPath options with
  | Some initial =>
      if String.eqb initial "" then (unset, [])
      else
        let normalizedPath := normalize host initial in
        let '(valid, probes) := isValidGodotPathSync world normalizedPath in
        (withPath unset (if valid then Some normalizedPath else None), probes)
  | None => (unset, [])
  end.

(** [this.isValidGodotPath(path)] on the fields of the manager. *)
Definition validate (world : World) (path : string) (m : Manager)
    : bool * Manager * list Probe :=
  let '(answer, cache, probes) := isValidGodotPath world path (validatedPaths m) in
  (answer,
   {| validatedPaths := cache; godotPath := godotPath m;
      strictPathValidation := strictPathValidation m |},
   probes).

(** A variable of the environment inside a template literal. *)
Definition envText (variable : option string) : string :=
  match variable with Some value => value | None => "undefined" end.

(** [possiblePaths], after the platform-specific paths are pushed. *)
Definition possiblePaths (host : Host) : list string :=
  "godot" ::
  match platform host with
  | Darwin =>
      [ "/Applications/Godot.app/Contents/MacOS/Godot";
        "/Applications/Godot_mono.app/Contents/MacOS/Godot";
        "/Applications/Godot_4.app/Contents/MacOS/Godot";
        envText (HOME host) +:+ "/Applications/Godot.app/Contents/MacOS/Godot";
        envText (HOME host) +:+ "/Applications/Godot_mono.app/Contents/MacOS/Godot";
        envText (HOME host) +:+ "/Applications/Godot_4.app/Contents/MacOS/Godot";
        envText (HOME host)
        +:+ "/Library/Application Support/Steam/steamapps/common/Godot Engine/Godot.app/Contents/MacOS/Godot" ]
  | Win32 =>
      [ "C:\Program Files\Godot\Godot.exe";
        "C:\Program Files (x86)\Godot\Godot.exe";
        "C:\Program Files\Godot_4\Godot.exe";
        "C:\Program Files (x86)\Godot_4\Godot.exe";
        envText (USERPROFILE host) +:+ "\Godot\Godot.exe" ]
  | Linux =>
      [ "/usr/bin/godot";
        "/usr/local/bin/godot";
        "/snap/bin/godot";
        envText (HOME host) +:+ "/.local/bin/godot" ]
  | OtherPlatform => []
  end.

(** [for (const path of possiblePaths)]: the first path that validates,
    normalized. *)
Fixpoint tryPaths (world : World) (host : Host) (paths : list string) (m : Manager)
    : option string * Manager * list Probe :=
  match paths with
  | [] => (None, m, [])
  | path :: rest =>
      let normalizedPath := normalize host path in
      let '(valid, m1, probes) := validate world normalizedPath m in
      if valid then (Some normalizedPath, m1, probes)
      else let '(found, m2, probes') := tryPaths world host rest m1 in
           (found, m2, probes ++ probes')
  end.

(** [fallbackCandidates]: the first one and the others.  The literal of
    the source for Windows has each backslash twice and no colon. *)
Definition fallbackCandidates (host : Host) : string * list string :=
  match platform host with
  | Win32 => ("C\\Program Files\\Godot\\Godot.exe", [])
  | Darwin => ("/Applications/Godot.app/Contents/MacOS/Godot",
               ["/Applications/Godot_mono.app/Contents/MacOS/Godot"])
  | _ => ("/usr/bin/godot", [])
  end.

(** [candidates.find(candidate => existsSync(candidate))] *)
Fixpoint findExisting (world : World) (candidates : list string)
    : option string * list Probe :=
  match candidates with
  | [] => (None, [])
  | candidate :: rest =>
      if existsSync world candidate then (Some candidate, [ProbeExists candidate])
      else let '(found, probes) := findExisting world rest in
           (found, ProbeExists candidate :: probes)
  end.

(** What becomes of one call of [detectGodotPath]. *)
Record Detection : Type := {
  after : Manager;
  threw : bool;
  probes : list Probe
}.

(** [!value] for a string that may be [null] or [undefined]. *)
Definition unset (value : option string) : bool :=
  match value with
  | Some text => String.eqb text ""
  | None => true
  end.

(** [async detectGodotPath(): Promise<void>] *)
Definition detectGodotPath (world : World) (host : Host) (m : Manager) : Detection :=
  (* the path that is set, if it is valid *)
  let '(kept, m0, probes0) :=
    match godotPath m with
    | Some current =>
        if String.eqb current "" then (false, m, []) else validate world current m
    | None => (false, m, [])
    end in
  if kept then {| after := m0; threw := false; probes := probes0 |}
  else
    (* the variable of the environment *)
    let '(fromEnv, m1, probes1) :=
      match GODOT_PATH host with
      | Some value =>
          if String.eqb value "" then (None, m0, [])
          else
            let normalizedPath := normalize host value in
            let '(valid, m', probes) := validate world normalizedPath m0 in
            (if valid then Some normalizedPath else None, m', probes)
      | None => (None, m0, [])
      end in
    match fromEnv with
    | Some path =>
        {| after := withPath m1 (Some path); threw := false;
           probes := probes0 ++ probes1 |}
    | None =>
        (* the common locations of the platform *)
        let '(found, m2, probes2) := tryPaths world host (possiblePaths host) m1 in
        match found with
        | Some path =>
            {| after := withPath m2 (Some path); threw := false;
               probes := probes0 ++ probes1 ++ probes2 |}
        | None =>
            if strictPathValidation m2
            then {| after := m2; threw := true;
                    probes := probes0 ++ probes1 ++ probes2 |}
            else
              let '(first, others) := fallbackCandidates host in
              let '(existing, probes3) := findExisting world (first :: others) in
              let selectedFallback := default first existing in
              {| after := withPath m2 (Some (normalize host selectedFallback));
                 threw := false;
                 probes := probes0 ++ probes1 ++ probes2 ++ probes3 |}
        end
    end.

(** [async setGodotPath(customPath: string): Promise<boolean>] *)
Definition setGodotPath (world : World) (host : Host) (customPath : string)
    (m : Manager) : bool * Manager * list Probe :=
  if String.eqb customPath "" then (false, m, [])
  else
    let normalizedPath := normalize host customPath in
    let '(valid, m1, probes) := validate world normalizedPath m in
    if valid then (true, withPath m1 (Some normalizedPath), probes)
    else (false, m1, probes).

(** Every command among the probes is the version query of the bare
    command [godot] or of a file that exists. *)
Definition runsExistingFiles (world : World) (probes : list Probe) : Prop :=
  forall command, In (ProbeExec command) probes ->
    command = "godot --version" \/
    exists file, command = JS.inQuotes file +:+ " --version" /\
                 existsSync world file = true.

(** The calls a client of the path manager can make. *)
Inductive Request : Type :=
| IsValidGodotPath (path : string)
| DetectGodotPath
| SetGodotPath (customPath : string).

(** One call, in the world as it is when the call is made. *)
Definition serve (host : Host) (m : Manager) (call : World * Request)
    : Manager * list Probe :=
  let '(world, request) := call in
  match request with
  | IsValidGodotPath path =>
      let '(_, m', probes) := validate world path m in (m', probes)
  | DetectGodotPath =>
      let d := detectGodotPath world host m in (after d, probes d)
  | SetGodotPath customPath =>
      let '(_, m', probes) := setGodotPath world host customPath m in (m', probes)
  end.

(** A sequence of calls: the manager after them and every probe made. *)
Fixpoint serveAll (host : Host) (m : Manager) (calls : list (World * Request))
    : Manager * list Probe :=
  match calls with
  | [] => (m, [])
  | call :: rest =>
      let '(m1, probes) := serve host m call in
      let '(m2, probes') := serveAll host m1 rest in
      (m2, probes ++ probes')
  end.

End PathResolution.


(** ** project-utils.ts: discovery and structure analysis *)

Module ProjectFiles.

Import JS.

(** An entry of a directory, as [readdirSync(dir, { withFileTypes: true })]
    gives it; for a directory, whether [project.godot] exists in it and
    what reading it gives in turn ([None]: [readdirSync] throws). *)
#[local] Unset Elimination Schemes.
Inductive Dirent : Type :=
| File (name : string)
| Other (name : string)                       (* neither a file nor a directory *)
| Directory (name : string) (projectFile : bool) (entries : option (list Dirent)).
#[local] Set Elimination Schemes.

Definition entryName (entry : Dirent) : string :=
  match entry with
  | File name | Other name | Directory name _ _ => name
  end.

(** [ProjectStructure] of types.ts *)
Record ProjectStructure : Type := {
  scenes : nat;
  scripts : nat;
  assets : nat;
  other : nat;
  error : option string
}.

Inductive Category : Type := Scenes | Scripts | Assets | Others.

(** [structure.scenes++] and the like. *)
Definition count (category : Category) (structure : ProjectStructure) : ProjectStructure :=
  match category with
  | Scenes => {| scenes := S (scenes structure); scripts := scripts structure;
                 assets := assets structure; other := other structure;
                 error := error structure |}
  | Scripts => {| scenes := scenes structure; scripts := S (scripts structure);
                  assets := assets structure; other := other structure;
                  error := error structure |}
  | Assets => {| scenes := scenes structure; scripts := scripts structure;
                 assets := S (assets structure); other := other structure;
                 error := error structure |}
  | Others => {| scenes := scenes structure; scripts := scripts structure;
                 assets := assets structure; other := S (other structure);
                 error := error structure |}
  end.

Definition emptyStructure : ProjectStructure :=
  {| scenes := 0; scripts := 0; assets := 0; other := 0; error := None |}.

(** What both functions return from their [catch]. *)
Definition failedStructure : ProjectStructure :=
  {| scenes := 0; scripts := 0; assets := 0; other := 0;
     error := Some "Failed to get project structure" |}.

(** The branch a lower-cased directory name takes in [getProjectStructure]. *)
Definition directoryCategory (dirName : string) : Category :=
  if String.eqb dirName "scenes" || JSString.includes "scene" dirName then Scenes
  else if String.eqb dirName "scripts" || JSString.includes "script" dirName then Scripts
  else if String.eqb dirName "assets" || String.eqb dirName "textures"
          || String.eqb dirName "models" || String.eqb dirName "sounds"
          || String.eqb dirName "music" then Assets
  else Others.

(** [static getProjectStructure(projectPath: string): ProjectStructure],
    given what [readdirSync(projectPath, ...)] returns. *)
Definition getProjectStructure (entries : option (list Dirent)) : ProjectStructure :=
  match entries with
  | None => failedStructure
  | Some entries =>
      fold_left
        (fun structure entry =>
           match entry with
           | Directory name _ _ =>
               let dirName := JSString.toLowerCase name in
               if JSString.startsWith "." dirName then structure
               else count (directoryCategory dirName) structure
           | _ => structure
           end)
        entries emptyStructure
  end.

(** [entry.name.split('.').pop()?.toLowerCase()] *)
Definition extension (name : string) : string :=
  JSString.toLowerCase (List.last (JSString.split (Ascii.eqb ".") name) "").

(** The branch an extension takes in [getProjectStructureAsync]. *)
Definition extensionCategory (ext : string) : Category :=
  if String.eqb ext "tscn" then Scenes
  else if String.eqb ext "gd" || String.eqb ext "gdscript" || String.eqb ext "cs"
       then Scripts
  else if existsb (String.eqb ext)
            ["png"; "jpg"; "jpeg"; "webp"; "svg"; "ttf"; "wav"; "mp3"; "ogg"]
       then Assets
  else Others.

(** One turn of the loop of [scanDirectory]; [None]: an exception. *)
Fixpoint scanEntry (entry : Dirent) (structure : ProjectStructure)
    : option ProjectStructure :=
  if JSString.startsWith "." (entryName entry) then Some structure
  else
    match entry with
    | Directory _ _ None => None
    | Directory _ _ (Some entries) =>
        (fix scanEntries (entries : list Dirent) (structure : ProjectStructure)
           : option ProjectStructure :=
           match entries with
           | [] => Some structure
           | entry :: rest =>
               match scanEntry entry structure with
               | Some structure' => scanEntries rest structure'
               | None => None
               end
           end) entries structure
    | File name => Some (count (extensionCategory (extension name)) structure)
    | Other _ => Some structure
    end.

(** [scanDirectory(currentPath)], given what [readdirSync(currentPath, ...)]
    returns. *)
Definition scanDirectory (entries : option (list Dirent)) (structure : ProjectStructure)
    : option ProjectStructure :=
  match entries with
  | None => None
  | Some entries =>
      fold_left (fun acc entry =>
                   match acc with
                   | Some structure => scanEntry entry structure
                   | None => None
                   end)
                entries (Some structure)
  end.

(** [static async getProjectStructureAsync(projectPath)] *)
Definition getProjectStructureAsync (entries : option (list Dirent)) : ProjectStructure :=
  match scanDirectory entries emptyStructure with
  | Some structure => structure
  | None => failedStructure
  end.

(** The files the recursive scan reaches: those that are not hidden, in
    directories that are not hidden. *)
Fixpoint visibleFiles (entry : Dirent) : list string :=
  if JSString.startsWith "." (entryName entry) then []
  else
    match entry with
    | File name => [name]
    | Other _ => []
    | Directory _ _ None => []
    | Directory _ _ (Some entries) => flat_map visibleFiles entries
    end.

(** Every directory the recursive scan reaches can be read. *)
Fixpoint readable (entry : Dirent) : bool :=
  if JSString.startsWith "." (entryName entry) then true
  else
    match entry with
    | Directory _ _ None => false
    | Directory _ _ (Some entries) => forallb readable entries
    | _ => true
    end.

(** The directories [getProjectStructure] counts: those whose name does
    not start with a dot. *)
Definition countedDirectory (entry : Dirent) : bool :=
  match entry with
  | Directory name _ _ => negb (JSString.startsWith "." (JSString.toLowerCase name))
  | _ => false
  end.

Definition sameCategory (a b : Category) : bool :=
  match a, b with
  | Scenes, Scenes | Scripts, Scripts | Assets, Assets | Others, Others => true
  | _, _ => false
  end.

(** How many of the files [names] fall into [category]. *)
Definition tally (category : Category) (names : list string) : nat :=
  length (List.filter
            (fun name => sameCategory (extensionCategory (extension name)) category)
            names).

(** [structure] after the files [names] are counted. *)
Definition countFiles (names : list string) (structure : ProjectStructure)
    : ProjectStructure :=
  fold_left (fun acc name => count (extensionCategory (extension name)) acc)
            names structure.

(** [GodotProjectRef] of types.ts *)
Record GodotProjectRef : Type := { path : string; name : string }.

Section Discovery.

(** [join] and [basename] of the module [path]. *)
Variable join : string -> string -> string.
Variable basename : string -> string.

(** One turn of the loop of the recursive search in [directory].  The
    recursive call [findGodotProjects(subdir, true)] is made where
    [project.godot] does not exist in [subdir], so it pushes nothing for
    [subdir] itself, and what it throws it catches. *)
Fixpoint searchEntry (directory : string) (entry : Dirent) : list GodotProjectRef :=
  match entry with
  | Directory entryName projectFile entries =>
      let subdir := join directory entryName in
      if JSString.startsWith "." entryName then []
      else if projectFile then [ {| path := subdir; name := entryName |} ]
      else match entries with
           | Some entries => flat_map (searchEntry subdir) entries
           | None => []
           end
  | _ => []
  end.

(** One turn of the loop over the immediate subdirectories. *)
Definition checkEntry (directory : string) (entry : Dirent) : list GodotProjectRef :=
  match entry with
  | Directory entryName true _ =>
      [ {| path := join directory entryName; name := entryName |} ]
  | _ => []
  end.

(** [static findGodotProjects(directory, recursive): GodotProjectRef[]],
    given whether [project.godot] exists in [directory] and what
    [readdirSync(directory, ...)] returns. *)
Definition findGodotProjects (directory : string) (projectFile : bool)
    (entries : option (list Dirent)) (recursive : bool) : list GodotProjectRef :=
  (if projectFile then [ {| path := directory; name := basename directory |} ] else [])
  ++ match entries with
     | Some entries =>
         flat_map (if recursive then searchEntry directory else checkEntry directory)
                  entries
     | None => []
     end.

(** The projects below [directory] that the recursive search is after:
    the directories with a project file that are not hidden and are
    reached through directories that are not hidden, can be read and are
    no projects themselves. *)
Inductive topProject (directory : string) (entries : list Dirent)
    : GodotProjectRef -> Prop :=
| top_here entryName sub :
    In (Directory entryName true sub) entries ->
    JSString.startsWith "." entryName = false ->
    topProject directory entries
      {| path := join directory entryName; name := entryName |}
| top_below entryName sub project :
    In (Directory entryName false (Some sub)) entries ->
    JSString.startsWith "." entryName = false ->
    topProject (join directory entryName) sub project ->
    topProject directory entries project.

End Discovery.

(** The text the regular expression of [getProjectName] starts with. *)
Definition configNamePrefix : string := "config/name=" +:+ String dquote EmptyString.

(** [s] without the prefix [p]; [None] when it does not start with it. *)
Fixpoint dropPrefix (p s : string) : option string :=
  match p, s with
  | EmptyString, _ => Some s
  | String _ _, EmptyString => None
  | String a p', String b s' => if Ascii.eqb a b then dropPrefix p' s' else None
  end.

(** The characters before the first double quote; [None] when there is
    none. *)
Fixpoint untilQuote (s : string) : option string :=
  match s with
  | EmptyString => None
  | String c rest =>
      if Ascii.eqb c dquote then Some EmptyString
      else option_map (String c) (untilQuote rest)
  end.

(** The group of the match of the regular expression at the start of [s]:
    the prefix, one or more characters other than a double quote, a
    double quote. *)
Definition matchHere (s : string) : option string :=
  match dropPrefix configNamePrefix s with
  | Some rest =>
      match untilQuote rest with
      | Some EmptyString => None
      | found => found
      end
  | None => None
  end.

(** The group of the leftmost match in [content]. *)
Fixpoint configNameMatch (content : string) : option string :=
  match matchHere content with
  | Some configName => Some configName
  | None =>
      match content with
      | EmptyString => None
      | String _ rest => configNameMatch rest
      end
  end.

(** [static getProjectName(projectPath: string): string], given whether
    the free identifier [require] is defined where the function runs,
    [basename(projectPath)], and what reading the project file gives
    ([None]: [readFileSync] throws).  The first statement of the [try]
    block is [const fs = require('fs')]: in an ES module, which is what
    the server is built as, [require] is not defined, evaluating it
    throws, and the [catch] keeps the directory name. *)
Definition getProjectName (requireDefined : bool) (base : string)
    (projectFileContent : option string) : string :=
  if requireDefined then
    match projectFileContent with
    | Some content =>
        match configNameMatch content with
        | Some configName => configName
        | None => base
        end
    | None => base
    end
  else base.

(** The longest prefix of decimal digits, and what follows it. *)
Fixpoint takeDigits (s : string) : string * string :=
  match s with
  | EmptyString => (EmptyString, EmptyString)
  | String c rest =>
      if isDigit c
      then let '(digits, after) := takeDigits rest in (String c digits, after)
      else (EmptyString, s)
  end.

(** The two groups of the match of the regular expression
    [/^(\d+)\.(\d+)/]. *)
Definition versionMatch (version : string) : option (string * string) :=
  match takeDigits version with
  | (EmptyString, _) => None
  | (major, String "." rest) =>
      match takeDigits rest with
      | (EmptyString, _) => None
      | (minor, _) => Some (major, minor)
      end
  | _ => None
  end.

(** [parseInt(digits, 10)] on a string of decimal digits: its value.  A
    value above 2^53 is rounded by JavaScript, which no comparison with 4
    can tell. *)
Definition parseInt (digits : string) : N :=
  match NilEmpty.uint_of_string digits with
  | Some d => N.of_uint d
  | None => 0
  end.

(** [static isGodot44OrLater(version: string): boolean] *)
Definition isGodot44OrLater (version : string) : bool :=
  match versionMatch version with
  | Some (major, minor) =>
      (4 <? parseInt major)%N || ((parseInt major =? 4)%N && (4 <=? parseInt minor)%N)
  | None => false
  end.

(** The decimal numeral of a number. *)
Definition numeral (n : N) : string := NilEmpty.string_of_uint (N.to_uint n).

(** [rest] does not start with a decimal digit. *)
Definition noDigitAhead (rest : string) : Prop :=
  match rest with
  | String c _ => isDigit c = false
  | EmptyString => True
  end.

End ProjectFiles.


(** ** tool-handlers.ts: the handlers with checks of their own *)

Module SceneHandlers.

Import JS ToolHandlers.

(** What becomes of a call of a handler: the reply, the calls of the
    executor and the effects on the environment. *)
Record Settled : Type := {
  reply : Reply;
  made : list Call;
  ran : list Command.Effect
}.

Definition settle (r : Response) : Settled :=
  {| reply := Replied r; made := []; ran := [] |}.

Definition reject (e : Exception) : Settled :=
  {| reply := Rejects e; made := []; ran := [] |}.

(** The reply of a handler that has started nothing. *)
Definition failed (reply : Reply) : Prop :=
  match reply with
  | Replied r => isError r = true
  | Rejects _ => True
  end.

(** [!args[param]] on the normalized arguments. *)
Definition lacks (args : Obj Value) (param : string) : bool :=
  match obj_own args param with
  | Some v => negb (truthy v)
  | None => true
  end.

Definition invalidPath : Response :=
  createErrorResponse "Invalid path"
    [ "Provide valid paths without " +:+ inQuotes ".."
      +:+ " or other potentially unsafe characters" ].

(** [!ProjectUtils.validatePath(args.projectPath) ||
     !ProjectUtils.validatePath(args.scenePath)], then the [try] block:
    [inl]: the handler is over; [inr]: both paths are accepted. *)
Definition checkPaths (projectPath scenePath : Value) : Settled + unit :=
  match validatePathDyn projectPath with
  | None => inl (reject IncludesNotAFunction)
  | Some false => inl (settle invalidPath)
  | Some true =>
      match validatePathDyn scenePath with
      | None => inl (reject IncludesNotAFunction)
      | Some false => inl (settle invalidPath)
      | Some true => inr tt
      end
  end.

(** The object literal [{ scenePath: ..., rootNodeType: ... || 'Node2D' }]. *)
Definition createSceneParams (args : Obj Value) (scenePath : Value) : Obj Value :=
  [ ("scenePath", scenePath);
    ("rootNodeType",
     match obj_own args "rootNodeType" with
     | Some v => if truthy v then v else VStr "Node2D"
     | None => VStr "Node2D"
     end) ].

(** [async handleCreateScene(args: any)] *)
Definition handleCreateScene (env : Env) (args : Obj Value) : Settled :=
  let args := OperationExecutor.normalizeArgs args in
  if lacks args "projectPath" || lacks args "scenePath" then
    settle (createErrorResponse "Project path and scene path are required"
              [ "Provide valid paths for both the project and the scene" ])
  else
    let projectPath := default VNull (obj_own args "projectPath") in
    let scenePath := default VNull (obj_own args "scenePath") in
    match checkPaths projectPath scenePath with
    | inl over => over
    | inr _ =>
        match projectPath with
        | VStr path =>
            if negb (projectMarker env path) then settle (invalidProject path)
            else
              let call := {| callOperation := "create_scene";
                             callParams := createSceneParams args scenePath;
                             callProjectPath := Some projectPath |} in
              let '(outcome, effs) := executeOperation env call in
              {| reply :=
                   Replied
                     match outcome with
                     | Command.Thrown message =>
                         createErrorResponse
                           ("Failed to create scene: " +:+ orUnknown message)
                           executionSolutions
                     | Command.Returned out =>
                         if JSString.includes "Failed to" (Command.stderr out)
                         then createErrorResponse
                                ("Failed to create scene: " +:+ Command.stderr out)
                                [ "Check if the root node type is valid";
                                  "Ensure you have write permissions to the scene path";
                                  "Verify the scene path is valid" ]
                         else textResponse
                                [ "Scene created successfully at: " +:+ toStr scenePath
                                  +:+ String LF (String LF "Output: ")
                                  +:+ Command.stdout out ]
                     end;
                 made := [call];
                 ran := effs |}
        | _ =>
            settle (createErrorResponse
                      ("Failed to create scene: "
                       +:+ orUnknown (errorMessage env (PathNotAString projectPath)))
                      executionSolutions)
        end
    end.

(** [if (args[param]) { params[param] = args[param]; }] *)
Definition copyIfTruthy (args : Obj Value) (param : string) (params : Obj Value)
    : Obj Value :=
  match obj_own args param with
  | Some v => if truthy v then obj_set params param v else params
  | None => params
  end.

(** The parameters [handleAddNode] hands to the executor. *)
Definition addNodeParams (args : Obj Value) : Obj Value :=
  copyIfTruthy args "properties"
    (copyIfTruthy args "parentNodePath"
       [ ("scenePath", default VNull (obj_own args "scenePath"));
         ("nodeType", default VNull (obj_own args "nodeType"));
         ("nodeName", default VNull (obj_own args "nodeName")) ]).

(** [async handleAddNode(args: any)]; [sceneFile p s] is
    [existsSync(join(p, s))]. *)
Definition handleAddNode (env : Env) (sceneFile : string -> string -> bool)
    (args : Obj Value) : Settled :=
  let args := OperationExecutor.normalizeArgs args in
  if lacks args "projectPath" || lacks args "scenePath"
     || lacks args "nodeType" || lacks args "nodeName" then
    settle (createErrorResponse "Missing required parameters"
              [ "Provide projectPath, scenePath, nodeType, and nodeName" ])
  else
    let projectPath := default VNull (obj_own args "projectPath") in
    let scenePath := default VNull (obj_own args "scenePath") in
    let failure (e : Exception) :=
      settle (createErrorResponse
                ("Failed to add node: " +:+ orUnknown (errorMessage env e))
                executionSolutions) in
    match checkPaths projectPath scenePath with
    | inl over => over
    | inr _ =>
        match projectPath with
        | VStr path =>
            if negb (projectMarker env path) then settle (invalidProject path)
            else
              match scenePath with
              | VStr scene =>
                  if negb (sceneFile path scene) then
                    settle (createErrorResponse
                              ("Scene file does not exist: " +:+ scene)
                              [ "Ensure the scene path is correct";
                                "Use create_scene to create a new scene first" ])
                  else
                    let call := {| callOperation := "add_node";
                                   callParams := addNodeParams args;
                                   callProjectPath := Some projectPath |} in
                    let '(outcome, effs) := executeOperation env call in
                    {| reply :=
                         Replied
                           match outcome with
                           | Command.Thrown message =>
                               createErrorResponse
                                 ("Failed to add node: " +:+ orUnknown message)
                                 executionSolutions
                           | Command.Returned out =>
                               if JSString.includes "Failed to" (Command.stderr out)
                               then createErrorResponse
                                      ("Failed to add node: " +:+ Command.stderr out)
                                      [ "Check if the node type is valid";
                                        "Ensure the parent node path exists";
                                        "Verify the scene file is valid" ]
                               else textResponse
                                      [ "Node '"
                                        +:+ toStr (default VNull (obj_own args "nodeName"))
                                        +:+ "' of type '"
                                        +:+ toStr (default VNull (obj_own args "nodeType"))
                                        +:+ "' added successfully to '" +:+ scene +:+ "'."
                                        +:+ String LF (String LF "Output: ")
                                        +:+ Command.stdout out ]
                           end;
                       made := [call];
                       ran := effs |}
              | _ => failure (PathNotAString scenePath)
              end
        | _ => failure (PathNotAString projectPath)
        end
    end.

(** What the handlers of the UID tools see besides the executor: the path
    manager, and the outcome of the version query, the text of its
    standard output or the message of the error it is rejected with. *)
Record VersionEnv : Type := {
  pathManager : Command.PathManager;
  execVersion : string -> string + string
}.

(** The version check both UID handlers start with: the effects, and the
    trimmed version or the message of what is thrown. *)
Definition queryVersion (v : VersionEnv) : list Command.Effect * (string + string) :=
  let current := Command.getPath (pathManager v) in
  let detected : option (list Command.Effect * option string) :=
    if Command.unset current then
      match Command.detectGodotPath (pathManager v) with
      | Some newPath => Some ([Command.Detect], newPath)
      | None => None
      end
    else Some ([], current) in
  match detected with
  | None => ([Command.Detect], inr Command.detectError)
  | Some (effs, path) =>
      let command :=
        inQuotes (match path with Some p => p | None => "null" end) +:+ " --version" in
      (effs ++ [Command.Exec command],
       match execVersion v command with
       | inl versionOutput => inl (JSString.trim versionOutput)
       | inr message => inr message
       end)
  end.

Definition unsupportedVersion (version : string) : Response :=
  createErrorResponse
    ("UIDs are only supported in Godot 4.4 or later. Current version: " +:+ version)
    [ "Upgrade to Godot 4.4 or later to use UIDs";
      "Use resource paths instead of UIDs for this version of Godot" ].

Definition noOptions : OperationToolOptions :=
  {| expectsJson := false; successMessage := None |}.

Section UidHandlers.

Variable JSON_parse : string -> option Value.

(** The part the two UID handlers share, from the [try] on. *)
Definition onSupportedVersion (env : Env) (v : VersionEnv) (failed : string)
    (toolName operation : string) (args : Obj Value) (requiredParams : list string)
    : Handled :=
  match queryVersion v with
  | (effs, inr message) =>
      {| response :=
           createErrorResponse (failed +:+ orUnknown message)
             [ "Ensure Godot is installed correctly";
               "Check if the GODOT_PATH environment variable is set correctly" ];
         calls := []; effects := effs |}
  | (effs, inl version) =>
      if negb (ProjectFiles.isGodot44OrLater version)
      then {| response := unsupportedVersion version; calls := []; effects := effs |}
      else
        let handled :=
          handleOperationTool JSON_parse env toolName operation args
                              requiredParams noOptions in
        {| response := response handled;
           calls := calls handled;
           effects := effs ++ effects handled |}
  end.

(** [async handleGetUid(args: any)] *)
Definition handleGetUid (env : Env) (v : VersionEnv) (args : Obj Value) : Handled :=
  let args := OperationExecutor.normalizeArgs args in
  if lacks args "projectPath" || lacks args "filePath" then
    answer (createErrorResponse "Missing required parameters"
              [ "Provide projectPath and filePath" ])
  else onSupportedVersion env v "Failed to get UID: " "get UID" "get_uid" args
                          [ "projectPath"; "filePath" ].

(** [async handleUpdateProjectUids(args: any)] *)
Definition handleUpdateProjectUids (env : Env) (v : VersionEnv) (args : Obj Value)
    : Handled :=
  let args := OperationExecutor.normalizeArgs args in
  onSupportedVersion env v "Failed to update project UIDs: " "update project UIDs"
                     "resave_resources" args [ "projectPath" ].

End UidHandlers.

End SceneHandlers.


(** ** index.ts: the configuration of the server *)

Module ServerConfig.

Import JS.

(** [GodotServerConfig] of types.ts; [None]: [undefined]. *)
Record GodotServerConfig : Type := {
  godotPath : option string;
  debugMode : option bool;
  godotDebugMode : option bool;
  strictPathValidation : option bool
}.

(** [function parseBoolean(value: unknown): boolean | undefined] *)
Definition parseBoolean (value : Value) : option bool :=
  match value with
  | VBool b => Some b
  | VStr text =>
      let lowered := JSString.toLowerCase (JSString.trim text) in
      if String.eqb lowered "true" then Some true
      else if String.eqb lowered "false" then Some false
      else None
  | _ => None
  end.

(** The path after the first part of [mergeConfig], and whether it
    changed. *)
Definition mergePath (current : option string) (pathValue : option Value)
    : option string * bool :=
  match pathValue with
  | Some (VStr text) =>
      let trimmed := JSString.trim text in
      if String.eqb trimmed "" then
        match current with
        | Some _ => (None, true)
        | None => (current, false)
        end
      else
        match current with
        | Some path => if String.eqb path trimmed then (current, false)
                       else (Some trimmed, true)
        | None => (Some trimmed, true)
        end
  | Some VNull =>
      match current with
      | Some _ => (None, true)
      | None => (current, false)
      end
  | _ => (current, false)
  end.

(** One turn of the loop over [booleanKeys]. *)
Definition mergeFlag (current : option bool) (value : option Value) : option bool * bool :=
  match value with
  | Some v =>
      match parseBoolean v with
      | Some coerced =>
          match current with
          | Some flag => if Bool.eqb flag coerced then (current, false)
                         else (Some coerced, true)
          | None => (Some coerced, true)
          end
      | None => (current, false)
      end
  | None => (current, false)
  end.

(** [function mergeConfig(current, input)]: [next] and [changed]. *)
Definition mergeConfig (current : GodotServerConfig) (input : Obj Value)
    : GodotServerConfig * bool :=
  let '(path, changed0) := mergePath (godotPath current) (obj_own input "godotPath") in
  let '(debug, changed1) := mergeFlag (debugMode current) (obj_own input "debugMode") in
  let '(godotDebug, changed2) :=
    mergeFlag (godotDebugMode current) (obj_own input "godotDebugMode") in
  let '(strict, changed3) :=
    mergeFlag (strictPathValidation current) (obj_own input "strictPathValidation") in
  ({| godotPath := path; debugMode := debug; godotDebugMode := godotDebug;
      strictPathValidation := strict |},
   changed0 || changed1 || changed2 || changed3).

End ServerConfig.

(** ** godot-server.ts: the tools and their dispatch *)

Module GodotServer.

Import JS ToolHandlers.

(** The method of [ToolHandlers] a tool call ends in; the handlers that
    only call [handleOperationTool] are given by its arguments. *)
Inductive Route : Type :=
| LaunchEditor
| RunProject
| GetDebugOutput
| StopProject
| GetGodotVersion
| ListProjects
| GetProjectInfo
| CreateScene
| AddNode
| GetUid
| UpdateProjectUids
| OperationTool (toolName operation : string) (requiredParams : list string)
                (options : OperationToolOptions).

Definition plain : OperationToolOptions :=
  {| expectsJson := false; successMessage := None |}.

(** The [switch] on [request.params.name]; [None]: the [McpError] of the
    default case. *)
Definition dispatch (name : string) : option Route :=
  if String.eqb name "launch_editor" then Some LaunchEditor
  else if String.eqb name "run_project" then Some RunProject
  else if String.eqb name "get_debug_output" then Some GetDebugOutput
  else if String.eqb name "stop_project" then Some StopProject
  else if String.eqb name "get_godot_version" then Some GetGodotVersion
  else if String.eqb name "list_projects" then Some ListProjects
  else if String.eqb name "get_project_info" then Some GetProjectInfo
  else if String.eqb name "create_scene" then Some CreateScene
  else if String.eqb name "add_node" then Some AddNode
  else if String.eqb name "load_sprite" then
    Some (OperationTool "load sprite" "load_sprite"
            ["projectPath"; "scenePath"; "nodePath"; "texturePath"] plain)
  else if String.eqb name "export_mesh_library" then
    Some (OperationTool "export mesh library" "export_mesh_library"
            ["projectPath"; "scenePath"; "outputPath"] plain)
  else if String.eqb name "save_scene" then
    Some (OperationTool "save scene" "save_scene" ["projectPath"; "scenePath"] plain)
  else if String.eqb name "get_uid" then Some GetUid
  else if String.eqb name "update_project_uids" then Some UpdateProjectUids
  else if String.eqb name "create_tilemap" then
    Some (OperationTool "create TileMap" "create_tilemap"
            ["projectPath"; "scenePath"; "tilemapName"] plain)
  else if String.eqb name "create_tileset" then
    Some (OperationTool "create TileSet" "create_tileset"
            ["projectPath"; "tilesetPath"] plain)
  else if String.eqb name "set_tilemap_source" then
    Some (OperationTool "set TileMap source" "set_tilemap_source"
            ["projectPath"; "scenePath"; "tilemapPath"; "tilesetPath"] plain)
  else if String.eqb name "paint_tiles" then
    Some (OperationTool "paint tiles" "paint_tiles"
            ["projectPath"; "scenePath"; "tilemapPath"; "tiles"] plain)
  else if String.eqb name "add_tileset_source" then
    Some (OperationTool "add TileSet source" "add_tileset_source"
            ["projectPath"; "tilesetPath"; "texturePath"] plain)
  else None.

(** The tools the server lists, with the [required] of their input
    schema. *)
Definition tools : list (string * list string) :=
  [ ("launch_editor", ["projectPath"]);
    ("run_project", ["projectPath"]);
    ("get_debug_output", []);
    ("stop_project", []);
    ("get_godot_version", []);
    ("list_projects", ["directory"]);
    ("get_project_info", ["projectPath"]);
    ("create_scene", ["projectPath"; "scenePath"]);
    ("add_node", ["projectPath"; "scenePath"; "nodeType"; "nodeName"]);
    ("load_sprite", ["projectPath"; "scenePath"; "nodePath"; "texturePath"]);
    ("export_mesh_library", ["projectPath"; "scenePath"; "outputPath"]);
    ("save_scene", ["projectPath"; "scenePath"]);
    ("get_uid", ["projectPath"; "filePath"]);
    ("update_project_uids", ["projectPath"]);
    ("create_tilemap", ["projectPath"; "scenePath"; "tilemapName"]);
    ("create_tileset", ["projectPath"; "tilesetPath"]);
    ("set_tilemap_source", ["projectPath"; "scenePath"; "tilemapPath"; "tilesetPath"]);
    ("paint_tiles", ["projectPath"; "scenePath"; "tilemapPath"; "tiles"]);
    ("add_tileset_source", ["projectPath"; "tilesetPath"; "texturePath"]) ].

End GodotServer.


(** ** More sample environments *)

Module Samples.

Import JS ToolHandlers.

(** A Linux host with no variable set, on which [normalize] changes
    nothing. *)
Definition linuxHost : PathResolution.Host :=
  {| PathResolution.platform := PathResolution.Linux;
     PathResolution.GODOT_PATH := None;
     PathResolution.HOME := Some "/home/dev";
     PathResolution.USERPROFILE := None;
     PathResolution.normalize := fun path => path |}.

(** A world with the engine at [/usr/local/bin/godot] and nowhere else. *)
Definition localInstall : GodotPathManager.World :=
  {| GodotPathManager.existsSync := fun path => String.eqb path "/usr/local/bin/godot";
     GodotPathManager.versionQuerySucceeds := fun command =>
       String.eqb command (inQuotes "/usr/local/bin/godot" +:+ " --version") |}.

(** A world without the engine. *)
Definition noInstall : GodotPathManager.World :=
  {| GodotPathManager.existsSync := fun _ => false;
     GodotPathManager.versionQuerySucceeds := fun _ => false |}.

(** A path manager just constructed, with no path. *)
Definition fresh (strict : bool) : PathResolution.Manager :=
  {| PathResolution.validatedPaths := ∅;
     PathResolution.godotPath := None;
     PathResolution.strictPathValidation := strict |}.

(** Handlers whose path manager holds no path. *)
Definition pathlessEnv : Env :=
  {| projectMarker := fun _ => true;
     executeOperation := fun _ => (Command.Thrown "no path", []);
     godotPath := None;
     errorMessage := fun _ => "TypeError" |}.

(** A path manager with no path, whose detection finds one. *)
Definition godotDetected : Command.PathManager :=
  {| Command.getPath := None;
     Command.detectGodotPath := Some (Some "/usr/bin/godot") |}.

(** A project file as the editor writes it. *)
Definition projectFile : string :=
  "config_version=5" +:+ String LF (String LF "[application]")
  +:+ String LF (String LF
        (ProjectFiles.configNamePrefix +:+ "My Game"
         +:+ String dquote (String LF "run/main_scene=" +:+ inQuotes "res://main.tscn"))).

End Samples.

(** * Properties *)

Import JS.

(** ** Strings *)

Lemma startsWith_refl s : JSString.startsWith s s = true.
Proof.
  induction s as [|c s IH]; simpl; [reflexivity|].
  now rewrite Ascii.eqb_refl.
Qed.

Lemma includes_cons needle c s :
  JSString.includes needle s = true -> JSString.includes needle (String c s) = true.
Proof.
  intros H. simpl. rewrite H. apply orb_true_r.
Qed.

Lemma startsWith_includes needle s :
  JSString.startsWith needle s = true -> JSString.includes needle s = true.
Proof.
  intros H. destruct s; simpl in *; rewrite H; reflexivity.
Qed.

Lemma split_nonempty sep s : JSString.split sep s <> [].
Proof.
  destruct s as [|c s]; simpl; [discriminate|].
  destruct (sep c); [discriminate|].
  destruct (JSString.split sep s); discriminate.
Qed.

(** The first piece of a split is a prefix of the string. *)
Lemma split_head_prefix sep s piece rest :
  JSString.split sep s = piece :: rest -> JSString.startsWith piece s = true.
Proof.
  revert piece rest. induction s as [|c s IH]; intros piece rest; simpl.
  - intros [= <- _]. reflexivity.
  - destruct (sep c).
    + intros [= <- _]. reflexivity.
    + destruct (JSString.split sep s) as [|p r] eqn:E.
      * intros [= <- _]. simpl. rewrite Ascii.eqb_refl. now destruct s.
      * intros [= <- _]. simpl. rewrite Ascii.eqb_refl. simpl. eapply IH; reflexivity.
Qed.

(** Every piece of a split occurs in the string. *)
Lemma split_piece_includes sep s piece :
  In piece (JSString.split sep s) -> JSString.includes piece s = true.
Proof.
  induction s as [|c s IH]; simpl.
  - intros [<-|[]]. reflexivity.
  - destruct (sep c).
    + intros [<-|H].
      * reflexivity.
      * rewrite (IH H). apply orb_true_r.
    + destruct (JSString.split sep s) as [|p r] eqn:E.
      * exfalso. eapply split_nonempty; eassumption.
      * intros [<-|H].
        -- simpl. rewrite Ascii.eqb_refl. simpl.
           rewrite (split_head_prefix _ _ _ _ E). reflexivity.
        -- rewrite IH; [apply orb_true_r | now right].
Qed.

(** ** Path validation *)

(** What [validatePath] decides. *)
Lemma validatePath_true_iff p :
  ProjectUtils.validatePath p = true <->
  p <> "" /\ JSString.includes ".." p = false.
Proof.
  unfold ProjectUtils.validatePath.
  destruct (String.eqb_spec p ""); simpl.
  - split; [discriminate | intros [H _]; contradiction].
  - destruct (JSString.includes ".." p); split; try discriminate; auto.
    intros [_ H]; discriminate.
Qed.

(** C2, as the specification states it, fails: a relative path without any
    parent-directory segment is refused when a name in it has two
    consecutive dots. *)
Lemma validatePath_rejects_dotted_name :
  ~ (forall p : string,
        p <> "" ->
        PathSpec.isRelative p = true ->
        PathSpec.hasParentSegment p = false ->
        ProjectUtils.validatePath p = true).
Proof.
  intros H. specialize (H "notes..txt").
  assert (ProjectUtils.validatePath "notes..txt" = false) as E by reflexivity.
  rewrite H in E; [discriminate | discriminate | reflexivity | reflexivity].
Qed.

(** C2, amended: a non-empty path in which two consecutive dots occur
    nowhere is accepted; a path with a parent-directory segment, written
    with forward or backward separators, is refused. *)
Theorem validatePath_accepts_and_rejects :
  (forall p : string,
      p <> "" -> JSString.includes ".." p = false ->
      ProjectUtils.validatePath p = true) /\
  (forall p : string,
      PathSpec.hasParentSegment p = true ->
      ProjectUtils.validatePath p = false).
Proof.
  split.
  - intros p Hne Hdots. apply validatePath_true_iff. auto.
  - intros p Hseg. unfold PathSpec.hasParentSegment in Hseg.
    apply existsb_exists in Hseg as (seg & Hin & Heq).
    apply String.eqb_eq in Heq. subst seg.
    apply split_piece_includes in Hin.
    unfold ProjectUtils.validatePath. rewrite Hin.
    now rewrite orb_true_r.
Qed.

Lemma validatePath_accepts_and_rejects_witness :
  ProjectUtils.validatePath "projects/sample" = true /\
  ProjectUtils.validatePath "nested\..\..\escape" = false.
Proof.
  split.
  - apply (proj1 validatePath_accepts_and_rejects); [discriminate | reflexivity].
  - apply (proj2 validatePath_accepts_and_rejects). reflexivity.
Defined.

(** ** The validation cache of the path manager *)

Section ValidationCache.

Import GodotPathManager.

Implicit Types (world : World) (path : string) (cache : gmap string bool).

(** A path that is in the map is answered from the map. *)
Lemma isValidGodotPath_hit world path cache cached :
  cache !! path = Some cached ->
  isValidGodotPath world path cache = (cached, cache, []).
Proof. intros H. unfold isValidGodotPath. now rewrite H. Qed.

(** Whatever the answer, it is in the map afterwards. *)
Lemma isValidGodotPath_records world path cache :
  let '(answer, cache', _) := isValidGodotPath world path cache in
  cache' !! path = Some answer.
Proof.
  unfold isValidGodotPath.
  destruct (cache !! path) as [cached|] eqn:E; [exact E|].
  destruct (andb _ _);
    [|destruct (versionQuerySucceeds world _)]; apply lookup_insert_eq.
Qed.

(** A validation probes the file system at most once and runs at most one
    command. *)
Lemma isValidGodotPath_probes world path cache :
  let probes := (isValidGodotPath world path cache).2 in
  (length (List.filter isExists probes) <= 1)%nat /\
  (length (List.filter isExec probes) <= 1)%nat.
Proof.
  unfold isValidGodotPath.
  destruct (cache !! path); simpl; [lia|].
  destruct (String.eqb path "godot"); simpl.
  - destruct (versionQuerySucceeds world _); simpl; lia.
  - destruct (existsSync world path); simpl; [|lia].
    destruct (versionQuerySucceeds world _); simpl; lia.
Qed.

End ValidationCache.

(** C4: of two successive validations of one path, the second makes no
    probe and returns what the first returned, also when that was [false]
    and whatever the world has become; together they probe the file
    system at most once and run the version query at most once. *)
Theorem isValidGodotPath_cached_once
    (world1 world2 : GodotPathManager.World) (path : string)
    (validatedPaths : gmap string bool) :
  let '(answer1, paths1, probes1) :=
    GodotPathManager.isValidGodotPath world1 path validatedPaths in
  let '(answer2, paths2, probes2) :=
    GodotPathManager.isValidGodotPath world2 path paths1 in
  answer2 = answer1 /\ probes2 = [] /\ paths2 = paths1 /\
  (length (List.filter GodotPathManager.isExists (probes1 ++ probes2)) <= 1)%nat /\
  (length (List.filter GodotPathManager.isExec (probes1 ++ probes2)) <= 1)%nat.
Proof.
  pose proof (isValidGodotPath_records world1 path validatedPaths) as Hrec.
  pose proof (isValidGodotPath_probes world1 path validatedPaths) as Hprobes.
  destruct (GodotPathManager.isValidGodotPath world1 path validatedPaths)
    as [[answer1 paths1] probes1].
  rewrite (isValidGodotPath_hit world2 path paths1 answer1 Hrec).
  simpl in Hprobes. rewrite app_nil_r. tauto.
Qed.

(** The second test of the repository: a cached [false] survives the file
    coming into existence. *)
Example isValidGodotPath_cached_false :
  let absent := {| GodotPathManager.existsSync := fun _ => false;
                   GodotPathManager.versionQuerySucceeds := fun _ => true |} in
  let present := {| GodotPathManager.existsSync := fun _ => true;
                    GodotPathManager.versionQuerySucceeds := fun _ => true |} in
  let '(answer1, paths1, probes1) :=
    GodotPathManager.isValidGodotPath absent "/missing/godot" ∅ in
  answer1 = false /\ probes1 = [GodotPathManager.ProbeExists "/missing/godot"] /\
  (GodotPathManager.isValidGodotPath present "/missing/godot" paths1).1
  = (false, paths1).
Proof.
  simpl. unfold GodotPathManager.isValidGodotPath. simpl.
  rewrite lookup_empty. simpl. rewrite lookup_insert_eq. auto.
Qed.

(** ** Objects as dictionaries *)

Section Objects.

Context {A : Type}.
Implicit Types (o : Obj A) (k : string) (v : A).

Lemma obj_own_None o k : obj_own o k = None <-> ~ In k (keys o).
Proof.
  induction o as [|[k' v'] o IH]; simpl.
  - tauto.
  - destruct (String.eqb_spec k' k).
    + split; [discriminate | intros H; exfalso; apply H; now left].
    + rewrite IH. tauto.
Qed.

Lemma obj_own_In o k v : obj_own o k = Some v -> In (k, v) o.
Proof.
  induction o as [|[k' v'] o IH]; simpl; [discriminate|].
  destruct (String.eqb_spec k' k).
  - intros [= <-]. subst. now left.
  - auto.
Qed.

Lemma obj_own_NoDup_In o k v :
  List.NoDup (keys o) -> In (k, v) o -> obj_own o k = Some v.
Proof.
  induction o as [|[k' v'] o IH]; simpl; [tauto|].
  intros Hnd [[= -> ->]|Hin].
  - now rewrite String.eqb_refl.
  - apply List.NoDup_cons_iff in Hnd as [Hfresh Hnd].
    destruct (String.eqb_spec k' k).
    + subst. exfalso. apply Hfresh. change k with (fst (k, v)). now apply in_map.
    + auto.
Qed.

Lemma keys_update o k v : keys (obj_update o k v) = keys o.
Proof.
  induction o as [|[k' v'] o IH]; simpl; [reflexivity|].
  destruct (String.eqb k' k); simpl; [reflexivity | now rewrite IH].
Qed.

Lemma obj_own_update o k v k' :
  obj_own (obj_update o k v) k' =
  if String.eqb k k'
  then match obj_own o k with Some _ => Some v | None => None end
  else obj_own o k'.
Proof.
  induction o as [|[k0 v0] o IH]; simpl.
  - now destruct (String.eqb k k').
  - destruct (String.eqb_spec k0 k) as [->|Hne]; simpl.
    + destruct (String.eqb_spec k k'); reflexivity.
    + rewrite IH. destruct (String.eqb_spec k k') as [Heq|Hne'].
      * subst k'. destruct (String.eqb_spec k0 k); [contradiction | reflexivity].
      * reflexivity.
Qed.

Lemma obj_own_insert_index n o k v k' :
  obj_own o k = None ->
  obj_own (obj_insert_index n k v o) k' =
  if String.eqb k k' then Some v else obj_own o k'.
Proof.
  induction o as [|[k0 v0] o IH]; simpl; [reflexivity|].
  destruct (String.eqb_spec k0 k) as [->|Hne]; [discriminate|].
  intros Hfresh.
  destruct (arrayIndex k0) as [m|]; [destruct (m <? n)%N|]; simpl;
    try reflexivity.
  rewrite (IH Hfresh).
  destruct (String.eqb_spec k k') as [Heq|]; [subst k'|reflexivity].
  destruct (String.eqb_spec k0 k); [contradiction | reflexivity].
Qed.

Lemma obj_own_app o k v k' :
  obj_own (o ++ [(k, v)]) k' =
  match obj_own o k' with
  | Some x => Some x
  | None => if String.eqb k k' then Some v else None
  end.
Proof.
  induction o as [|[k0 v0] o IH]; simpl; [reflexivity|].
  destruct (String.eqb k0 k'); [reflexivity | apply IH].
Qed.

Lemma obj_set_proto o v : obj_set o "__proto__" v = o.
Proof. reflexivity. Qed.

(** Reading back after an assignment. *)
Lemma obj_own_set o k v k' :
  k <> "__proto__" ->
  obj_own (obj_set o k v) k' = if String.eqb k k' then Some v else obj_own o k'.
Proof.
  intros Hproto. unfold obj_set.
  destruct (String.eqb_spec k "__proto__"); [contradiction|].
  destruct (obj_own o k) as [old|] eqn:E.
  - rewrite obj_own_update, E. reflexivity.
  - destruct (arrayIndex k).
    + now apply obj_own_insert_index.
    + rewrite obj_own_app.
      destruct (String.eqb_spec k k') as [Heq|]; [subst k'; now rewrite E|].
      now destruct (obj_own o k').
Qed.

(** An assignment to [k] leaves every other property as it was. *)
Lemma obj_own_set_other o k v k' :
  k <> k' -> obj_own (obj_set o k v) k' = obj_own o k'.
Proof.
  intros Hne. destruct (String.eqb_spec k "__proto__") as [->|Hproto];
    [reflexivity|].
  rewrite obj_own_set by assumption.
  destruct (String.eqb_spec k k'); [contradiction | reflexivity].
Qed.

Lemma keys_insert_index n o k v k' :
  In k' (keys (obj_insert_index n k v o)) <-> k' = k \/ In k' (keys o).
Proof.
  induction o as [|[k0 v0] o IH]; simpl.
  - intuition.
  - destruct (arrayIndex k0) as [m|]; [destruct (m <? n)%N|]; simpl;
      rewrite ?IH; intuition.
Qed.

Lemma NoDup_insert_index n o k v :
  ~ In k (keys o) -> List.NoDup (keys o) -> List.NoDup (keys (obj_insert_index n k v o)).
Proof.
  induction o as [|[k0 v0] o IH]; simpl; intros Hfresh Hnd.
  - constructor; [tauto | constructor].
  - apply List.NoDup_cons_iff in Hnd as [H0 Hnd].
    assert (List.NoDup (k :: k0 :: keys o)) as Hall.
    { constructor; [simpl; tauto|]. constructor; assumption. }
    destruct (arrayIndex k0) as [m|]; [destruct (m <? n)%N|]; simpl;
      try exact Hall.
    constructor.
    + rewrite keys_insert_index. intros [->|Hin]; [|contradiction].
      apply Hfresh. now left.
    + apply IH; [tauto | assumption].
Qed.

(** An object never gets two properties of one name. *)
Lemma NoDup_obj_set o k v : List.NoDup (keys o) -> List.NoDup (keys (obj_set o k v)).
Proof.
  intros Hnd. unfold obj_set.
  destruct (String.eqb k "__proto__"); [assumption|].
  destruct (obj_own o k) eqn:E.
  - now rewrite keys_update.
  - apply obj_own_None in E.
    destruct (arrayIndex k).
    + now apply NoDup_insert_index.
    + unfold keys. rewrite map_app. simpl.
      apply List.NoDup_app; [assumption | |].
      * constructor; [simpl; tauto | constructor].
      * intros x Hx [<-|[]]. contradiction.
Qed.

Lemma keys_obj_insert_index n k v v' o o' :
  keys o = keys o' ->
  keys (obj_insert_index n k v o) = keys (obj_insert_index n k v' o').
Proof.
  revert o'. induction o as [|[k0 v0] o IH]; intros [|[k0' v0'] o'] H;
    try discriminate; [reflexivity|].
  simpl in *. injection H as <- H.
  destruct (arrayIndex k0) as [m|]; [destruct (m <? n)%N|]; simpl;
    try (now rewrite H).
  now rewrite (IH o' H).
Qed.

(** The keys after an assignment depend on the keys before it alone. *)
Lemma keys_obj_set o o' k v v' :
  keys o = keys o' -> keys (obj_set o k v) = keys (obj_set o' k v').
Proof.
  intros H. unfold obj_set.
  destruct (String.eqb k "__proto__"); [exact H|].
  destruct (obj_own o k) eqn:E, (obj_own o' k) eqn:E'.
  - now rewrite !keys_update.
  - apply obj_own_None in E'. rewrite <- H in E'. apply obj_own_None in E'.
    congruence.
  - apply obj_own_None in E. rewrite H in E. apply obj_own_None in E.
    congruence.
  - destruct (arrayIndex k).
    + now apply keys_obj_insert_index.
    + unfold keys in *. rewrite !map_app, H. reflexivity.
Qed.

(** Two objects with the same keys in the same order and the same value
    under each are the same. *)
Lemma obj_ext o o' :
  keys o = keys o' -> List.NoDup (keys o) ->
  (forall k, obj_own o k = obj_own o' k) -> o = o'.
Proof.
  revert o'. induction o as [|[k v] o IH]; intros [|[k' v'] o'] Hkeys Hnd Hown;
    try discriminate; [reflexivity|].
  simpl in Hkeys. injection Hkeys as <- Hkeys.
  apply List.NoDup_cons_iff in Hnd as [Hfresh Hnd].
  pose proof (Hown k) as Hk. simpl in Hk. rewrite String.eqb_refl in Hk.
  injection Hk as <-. f_equal. apply IH; [assumption | assumption |].
  intros k'. destruct (String.eqb_spec k k') as [<-|Hne].
  - assert (~ In k (keys o')) as Hfresh' by (now rewrite <- Hkeys).
    apply obj_own_None in Hfresh, Hfresh'. simpl in Hfresh. congruence.
  - specialize (Hown k'). simpl in Hown.
    destruct (String.eqb_spec k k'); [contradiction | exact Hown].
Qed.

(** A new key that is neither an array index nor [__proto__] goes last. *)
Lemma obj_set_append o k v :
  k <> "__proto__" -> arrayIndex k = None -> ~ In k (keys o) ->
  obj_set o k v = o ++ [(k, v)].
Proof.
  intros Hproto Hidx Hfresh. unfold obj_set.
  destruct (String.eqb_spec k "__proto__"); [contradiction|].
  apply obj_own_None in Hfresh. now rewrite Hfresh, Hidx.
Qed.

End Objects.

(** ** Loops that assign the entries of one object to another *)

Section Assignments.

Context {A B : Type} (K : string -> string) (V : B -> A).
Context (step : Obj A -> string * B -> Obj A).
Hypothesis step_spec :
  forall result key value, step result (key, value) = obj_set result (K key) (V value).

Implicit Types (entries : list (string * B)) (acc : Obj A) (k : string).

(** A property no entry is stored under is as it was before the loop. *)
Lemma fold_own_untouched entries acc k :
  (forall key value, In (key, value) entries -> K key <> k) ->
  obj_own (fold_left step entries acc) k = obj_own acc k.
Proof.
  revert acc. induction entries as [|[key value] entries IH]; intros acc H; simpl.
  - reflexivity.
  - rewrite IH.
    + rewrite step_spec. apply obj_own_set_other. apply (H key value). now left.
    + intros key' value' Hin. apply (H key' value'). now right.
Qed.

(** The last entry stored under a property decides its value. *)
Lemma fold_own_last pre key value post acc :
  K key <> "__proto__" ->
  (forall key' value', In (key', value') post -> K key' <> K key) ->
  obj_own (fold_left step (pre ++ (key, value) :: post) acc) (K key) = Some (V value).
Proof.
  intros Hproto Hpost. rewrite fold_left_app. simpl.
  rewrite fold_own_untouched by assumption.
  rewrite step_spec, obj_own_set by assumption.
  now rewrite String.eqb_refl.
Qed.

Lemma fold_NoDup entries acc :
  List.NoDup (keys acc) -> List.NoDup (keys (fold_left step entries acc)).
Proof.
  revert acc. induction entries as [|[key value] entries IH]; intros acc H; simpl.
  - assumption.
  - apply IH. rewrite step_spec. now apply NoDup_obj_set.
Qed.

(** The properties after the loop: those before it, and those an entry
    was stored under. *)
Lemma fold_own_Some entries acc k :
  obj_own (fold_left step entries acc) k <> None <->
  obj_own acc k <> None \/
  (k <> "__proto__" /\ exists key value, In (key, value) entries /\ K key = k).
Proof.
  revert acc. induction entries as [|[key value] entries IH]; intros acc; simpl.
  - split; [auto | intros [H|(_ & ? & ? & [] & _)]; exact H].
  - rewrite IH, step_spec.
    destruct (String.eqb_spec (K key) k) as [Heq|Hne].
    + destruct (String.eqb_spec k "__proto__") as [Hp|Hp].
      * rewrite Heq, Hp, obj_set_proto. split.
        -- intros [H|(Hc & _)]; [now left | now contradiction Hc].
        -- intros [H|(Hc & _)]; [now left | now contradiction Hc].
      * rewrite obj_own_set by congruence.
        rewrite (proj2 (String.eqb_eq _ _) Heq). split.
        -- intros _. right. split; [assumption|]. exists key, value. auto.
        -- intros _. now left.
    + rewrite obj_own_set_other by assumption. split.
      * intros [H|(Hp & key' & value' & Hin & Heq)]; [now left|].
        right. split; [assumption|]. exists key', value'. auto.
      * intros [H|(Hp & key' & value' & [[= -> ->]|Hin] & Heq)];
          [now left | contradiction |].
        right. split; [assumption|]. exists key', value'. auto.
Qed.

(** When the keys the entries are stored under are new, distinct, and
    neither array indices nor [__proto__], the loop appends them in
    order. *)
Lemma fold_append entries acc :
  (forall key value, In (key, value) entries ->
                     K key <> "__proto__" /\ arrayIndex (K key) = None) ->
  List.NoDup (keys acc ++ map (fun e => K e.1) entries) ->
  fold_left step entries acc = acc ++ map (fun e => (K e.1, V e.2)) entries.
Proof.
  revert acc. induction entries as [|[key value] entries IH]; intros acc Hk Hnd; simpl.
  - now rewrite app_nil_r.
  - destruct (Hk key value) as [Hproto Hidx]; [now left|].
    simpl in Hnd.
    rewrite step_spec, obj_set_append; try assumption.
    + rewrite IH.
      * now rewrite <- app_assoc.
      * intros key' value' Hin. apply (Hk key' value'). now right.
      * unfold keys. rewrite map_app. simpl. now rewrite <- app_assoc.
    + apply NoDup_remove_2 in Hnd. intros Hin. apply Hnd.
      apply in_or_app. now left.
Qed.

(** The value of a property after the loop is the one stored last. *)
Lemma fold_own entries acc k :
  k <> "__proto__" ->
  obj_own (fold_left step entries acc) k =
  match lastStored K V entries k with
  | Some v => Some v
  | None => obj_own acc k
  end.
Proof.
  intros Hproto. revert acc.
  induction entries as [|[key value] entries IH]; intros acc; simpl; [reflexivity|].
  rewrite IH, step_spec.
  destruct (lastStored K V entries k); [reflexivity|].
  destruct (String.eqb_spec (K key) k) as [Heq|Hne].
  - rewrite obj_own_set by congruence. now rewrite (proj2 (String.eqb_eq _ _) Heq).
  - now apply obj_own_set_other.
Qed.

Lemma fold_own_proto entries acc :
  obj_own (fold_left step entries acc) "__proto__" = obj_own acc "__proto__".
Proof.
  revert acc. induction entries as [|[key value] entries IH]; intros acc; simpl;
    [reflexivity|].
  rewrite IH, step_spec.
  destruct (String.eqb_spec (K key) "__proto__") as [->|Hne];
    [reflexivity | now apply obj_own_set_other].
Qed.

Lemma lastStored_app l l' k :
  lastStored K V (l ++ l') k =
  match lastStored K V l' k with
  | Some v => Some v
  | None => lastStored K V l k
  end.
Proof.
  induction l as [|[key value] l IH]; simpl.
  - now destruct (lastStored K V l' k).
  - rewrite IH. now destruct (lastStored K V l' k).
Qed.

Lemma lastStored_In l key value :
  In (key, value) l -> lastStored K V l (K key) <> None.
Proof.
  induction l as [|[key' value'] l IH]; simpl; [tauto|].
  intros [[= -> ->]|Hin].
  - rewrite String.eqb_refl. now destruct (lastStored K V l (K key)).
  - specialize (IH Hin). now destruct (lastStored K V l (K key)).
Qed.

(** The order of the keys after the loop depends on the keys alone. *)
Lemma fold_keys entries entries' acc acc' :
  map fst entries = map fst entries' ->
  keys acc = keys acc' ->
  keys (fold_left step entries acc) = keys (fold_left step entries' acc').
Proof.
  revert entries' acc acc'.
  induction entries as [|[key value] entries IH];
    intros [|[key' value'] entries'] acc acc' Hentries Hacc; try discriminate.
  - exact Hacc.
  - simpl in *. injection Hentries as <- Hentries.
    apply IH; [exact Hentries|]. rewrite !step_spec. now apply keys_obj_set.
Qed.

End Assignments.

(** ** Parameter normalization *)

Import OperationExecutor Types.

(** Induction on JSON data. *)
Lemma Value_ind (P : Value -> Prop) :
  P VNull ->
  (forall b, P (VBool b)) ->
  (forall n, P (VNum n)) ->
  (forall s, P (VStr s)) ->
  (forall elems, Forall P elems -> P (VArr elems)) ->
  (forall props, Forall (fun kv => P kv.2) props -> P (VObj props)) ->
  forall v, P v.
Proof.
  intros Hnull Hbool Hnum Hstr Harr Hobj.
  fix IH 1. intros [| b | n | s | elems | props].
  - exact Hnull.
  - apply Hbool.
  - apply Hnum.
  - apply Hstr.
  - apply Harr. induction elems as [|e elems IHe]; constructor; [apply IH | exact IHe].
  - apply Hobj. induction props as [|[k x] props IHp]; constructor;
      [apply IH | exact IHp].
Qed.

Lemma normalizeStep_spec self result key value :
  normalizeStep self result (key, value)
  = obj_set result (normalizedKey key) (nested self value).
Proof. reflexivity. Qed.

Lemma convertStep_spec self result key value :
  convertStep self result (key, value)
  = obj_set result (snakeKey key) (nested self value).
Proof. reflexivity. Qed.

(** On an object, [normalizeParameters] is the loop [normalizeArgs]. *)
Lemma normalizeParameters_obj props :
  normalizeParameters (VObj props) = VObj (normalizeArgs props).
Proof. reflexivity. Qed.

Lemma convertValue_obj props :
  convertValue (VObj props) = VObj (convertCamelToSnakeCase props).
Proof. reflexivity. Qed.

(** The reverse table the constructor builds. *)
Lemma reverseParameterMappings_eq :
  reverseParameterMappings = map (fun e => (e.2, e.1)) PARAMETER_MAPPINGS.
Proof. reflexivity. Qed.

(** Facts about the fifteen keys of the table, by inspection. *)
Lemma mapped_keys_facts :
  Forall (fun k =>
            snakeKey (normalizedKey k) = k /\
            normalizedKey k <> "__proto__" /\ arrayIndex (normalizedKey k) = None /\
            k <> "__proto__" /\ arrayIndex k = None)
         (keys PARAMETER_MAPPINGS).
Proof.
  repeat constructor; (reflexivity || discriminate).
Qed.

Lemma mapped_key k :
  In k (keys PARAMETER_MAPPINGS) ->
  snakeKey (normalizedKey k) = k /\
  normalizedKey k <> "__proto__" /\ arrayIndex (normalizedKey k) = None /\
  k <> "__proto__" /\ arrayIndex k = None.
Proof.
  intros H. exact (proj1 (List.Forall_forall _ _) mapped_keys_facts k H).
Qed.

(** The keys of a well-formed map with mapped keys stay distinct. *)
Lemma mapped_keys_NoDup (props : Obj Value) :
  (forall k, In k (keys props) -> In k (keys PARAMETER_MAPPINGS)) ->
  List.NoDup (keys props) ->
  List.NoDup (map (fun e : string * Value => normalizedKey e.1) props).
Proof.
  intros Hmapped Hnd.
  apply (NoDup_map_inv snakeKey). rewrite map_map.
  erewrite map_ext_in; [exact Hnd|].
  intros [k x] Hin. simpl. apply mapped_key, Hmapped.
  change k with (fst (k, x)). now apply in_map.
Qed.

Lemma wf_obj_inv k x props :
  wf (VObj ((k, x) :: props)) ->
  ~ In k (keys props) /\ wf x /\ wf (VObj props).
Proof.
  simpl. intros [Hnd (Hx & Hrest)].
  apply List.NoDup_cons_iff in Hnd as [Hfresh Hnd]. auto.
Qed.

Lemma wf_obj_forall props :
  wf (VObj props) <-> List.NoDup (keys props) /\ Forall (fun kv => wf kv.2) props.
Proof.
  simpl. unfold keys. split; intros [Hnd H]; (split; [exact Hnd|]).
  - clear Hnd. induction props as [|kv props IH]; constructor; simpl in H; tauto.
  - clear Hnd. induction H; simpl; auto.
Qed.

Lemma allKeysMapped_forall props :
  Spec.allKeysMapped (VObj props) <->
  Forall (fun kv => In kv.1 (keys PARAMETER_MAPPINGS) /\ Spec.allKeysMapped kv.2) props.
Proof.
  simpl. split.
  - induction props as [|kv props IH]; simpl; constructor; tauto.
  - induction 1; simpl; tauto.
Qed.

(** The round trip, on any value stored in a map. *)
Lemma nested_roundtrip v :
  wf v -> Spec.allKeysMapped v ->
  nested convertValue (nested normalizeParameters v) = v.
Proof.
  induction v as [| b | n | s | elems _ | props IH] using Value_ind;
    intros Hwf Hmapped; try reflexivity.
  apply wf_obj_forall in Hwf as [Hnd Hwf].
  apply allKeysMapped_forall in Hmapped.
  assert (forall k, In k (keys props) -> In k (keys PARAMETER_MAPPINGS)) as Hkeys.
  { intros k Hin. apply in_map_iff in Hin as ([k' x] & <- & Hin).
    exact (proj1 (proj1 (List.Forall_forall _ _) Hmapped _ Hin)). }
  cbn [nested]. rewrite normalizeParameters_obj. cbn [nested].
  rewrite convertValue_obj. f_equal.
  unfold normalizeArgs.
  rewrite (fold_append normalizedKey (nested normalizeParameters)
             _ (normalizeStep_spec normalizeParameters)).
  2:{ intros k x Hin.
      destruct (mapped_key k) as (_ & ? & ? & _); [|auto].
      apply Hkeys. change k with (fst (k, x)). now apply in_map. }
  2:{ simpl. now apply mapped_keys_NoDup. }
  simpl. unfold convertCamelToSnakeCase.
  rewrite (fold_append snakeKey (nested convertValue)
             _ (convertStep_spec convertValue)).
  - simpl. rewrite map_map. simpl.
    rewrite <- (map_id props) at 2. apply map_ext_in.
    intros [k x] Hin. simpl. f_equal.
    + apply mapped_key, Hkeys. change k with (fst (k, x)). now apply in_map.
    + apply (proj1 (List.Forall_forall _ _) IH _ Hin).
      * exact (proj1 (List.Forall_forall _ _) Hwf _ Hin).
      * exact (proj2 (proj1 (List.Forall_forall _ _) Hmapped _ Hin)).
  - intros k x Hin. apply in_map_iff in Hin as ([k' x'] & [= <- _] & Hin).
    cbn [fst]. destruct (mapped_key k') as (-> & _ & _ & ? & ?); [|auto].
    apply Hkeys. change k' with (fst (k', x')). now apply in_map.
  - simpl. rewrite map_map. simpl.
    erewrite map_ext_in; [exact Hnd|].
    intros [k x] Hin. simpl. apply mapped_key, Hkeys.
    change k with (fst (k, x)). now apply in_map.
Qed.

(** C7: on a parameter map all of whose keys, those of nested maps
    included, are keys of the mapping table, converting back after
    normalizing gives the map itself. *)
Theorem convert_normalize_roundtrip (p : Obj Value) :
  wf (VObj p) ->
  Spec.allKeysMapped (VObj p) ->
  convertCamelToSnakeCase (normalizeArgs p) = p.
Proof.
  intros Hwf Hmapped.
  pose proof (nested_roundtrip (VObj p) Hwf Hmapped) as H.
  cbn [nested] in H. rewrite normalizeParameters_obj in H. cbn [nested] in H.
  rewrite convertValue_obj in H. now injection H.
Qed.

Lemma convert_normalize_roundtrip_witness :
  let p := [ ("project_path", VStr "demo");
             ("scene_path", VStr "scenes/main.tscn");
             ("recursive", VBool true);
             ("mesh_item_names", VArr [VStr "a"; VObj [("notMapped", VNum 1)]]);
             ("directory", VObj [("node_name", VStr "Player"); ("scene", VNull)]) ] in
  convertCamelToSnakeCase (normalizeArgs p) = p.
Proof.
  intros p. apply convert_normalize_roundtrip.
  - simpl. repeat split; repeat constructor; simpl; intuition discriminate.
  - simpl. intuition.
Defined.

(** *** The mapping table, by inspection *)

Lemma table_keys_NoDup : List.NoDup (keys PARAMETER_MAPPINGS).
Proof. repeat constructor; simpl; intuition discriminate. Qed.

Lemma table_values_NoDup : List.NoDup (map snd PARAMETER_MAPPINGS).
Proof. repeat constructor; simpl; intuition discriminate. Qed.

Lemma table_entries_facts :
  Forall (fun e : string * string =>
            e.2 <> "" /\
            JSString.includes " " e.1 = false /\
            JSString.includes " " e.2 = false /\
            JSString.includes "_" e.2 = false /\
            (e.1 <> e.2 -> JSString.includes "_" e.1 = true))
         PARAMETER_MAPPINGS.
Proof.
  repeat constructor; simpl; (discriminate || reflexivity || auto).
  all: intros H; now contradiction H.
Qed.

Lemma table_entry snake camel :
  In (snake, camel) PARAMETER_MAPPINGS ->
  obj_own PARAMETER_MAPPINGS snake = Some camel /\
  camel <> "" /\
  JSString.includes " " snake = false /\
  JSString.includes " " camel = false /\
  JSString.includes "_" camel = false /\
  (snake <> camel -> JSString.includes "_" snake = true).
Proof.
  intros Hin. split.
  - apply obj_own_NoDup_In; [exact table_keys_NoDup | exact Hin].
  - exact (proj1 (List.Forall_forall _ _) table_entries_facts _ Hin).
Qed.

(** No two keys of the table have the same counterpart. *)
Lemma table_injective s1 s2 camel :
  In (s1, camel) PARAMETER_MAPPINGS -> In (s2, camel) PARAMETER_MAPPINGS -> s1 = s2.
Proof.
  intros H1 H2.
  assert (forall s, In (s, camel) PARAMETER_MAPPINGS ->
                    obj_own reverseParameterMappings camel = Some s) as Hrev.
  { intros s Hs. apply obj_own_NoDup_In.
    - rewrite reverseParameterMappings_eq. unfold keys. rewrite map_map.
      exact table_values_NoDup.
    - rewrite reverseParameterMappings_eq.
      apply in_map_iff. exists (s, camel). auto. }
  pose proof (Hrev s1 H1) as E1. rewrite (Hrev s2 H2) in E1. congruence.
Qed.

(** The string an inherited member turns into has a blank in it, which no
    key and no value of the table has. *)
Lemma inheritedKeyString_blank name :
  JSString.includes " " (inheritedKeyString name) = true.
Proof.
  unfold inheritedKeyString. destruct (String.eqb name "__proto__"); reflexivity.
Qed.

(** A key of the table is stored under its counterpart, and a counterpart
    under itself. *)
Lemma normalizedKey_snake snake camel :
  In (snake, camel) PARAMETER_MAPPINGS -> normalizedKey snake = camel.
Proof.
  intros Hin. destruct (table_entry _ _ Hin) as (Hown & Hne & _ & _ & Hc & Hs).
  unfold normalizedKey, obj_read. rewrite Hown.
  destruct (String.eqb_spec camel ""); [contradiction|].
  destruct (String.eqb_spec snake camel) as [Heq|Hneq].
  - now destruct (JSString.includes "_" snake).
  - now rewrite (Hs Hneq).
Qed.

Lemma normalizedKey_camel snake camel :
  In (snake, camel) PARAMETER_MAPPINGS -> normalizedKey camel = camel.
Proof.
  intros Hin. destruct (table_entry _ _ Hin) as (_ & _ & _ & _ & Hc & _).
  unfold normalizedKey. now rewrite Hc.
Qed.

(** Only a key of the table and its counterpart are stored under the
    counterpart. *)
Lemma normalizedKey_inv snake camel k :
  In (snake, camel) PARAMETER_MAPPINGS ->
  normalizedKey k = camel -> k = snake \/ k = camel.
Proof.
  intros Hin. destruct (table_entry _ _ Hin) as (_ & _ & _ & Hblank & _).
  unfold normalizedKey, obj_read.
  destruct (JSString.includes "_" k); [|now right].
  destruct (obj_own PARAMETER_MAPPINGS k) as [c|] eqn:E.
  - destruct (String.eqb c ""); [now right|].
    intros ->. left. apply obj_own_In in E. eapply table_injective; eassumption.
  - destruct (isPrototypeMember k); [|now right].
    intros H. rewrite <- H, inheritedKeyString_blank in Hblank. discriminate.
Qed.

(** Nothing is stored under a key of the table that differs from its
    counterpart. *)
Lemma normalizedKey_not_snake snake camel k :
  In (snake, camel) PARAMETER_MAPPINGS -> snake <> camel ->
  normalizedKey k <> snake.
Proof.
  intros Hin Hne. destruct (table_entry _ _ Hin) as (Hown & _ & Hblank & _ & _ & Hs).
  specialize (Hs Hne).
  unfold normalizedKey, obj_read.
  destruct (JSString.includes "_" k) eqn:Eu; [|congruence].
  destruct (obj_own PARAMETER_MAPPINGS k) as [c|] eqn:E.
  - pose proof (obj_own_In _ _ _ E) as Hk.
    destruct (table_entry _ _ Hk) as (_ & Hc0 & _ & _ & Hc & _).
    destruct (String.eqb_spec c ""); [contradiction|].
    intros ->. congruence.
  - destruct (isPrototypeMember k).
    + intros H. rewrite <- H, inheritedKeyString_blank in Hblank. discriminate.
    + intros ->. congruence.
Qed.

(** *** Both spellings of one parameter *)

(** C9: when a map has a key of the mapping table and its camelCase
    counterpart, in either order, the normalized map has no property
    under the snake_case key and one property under the camelCase key,
    whose value is that of the key enumerated later (normalized itself
    when it is a nested map).  The value of the key enumerated earlier is
    lost: whatever it is, the normalized map is the same; so two
    different maps have the same normal form.  A map of just the two
    keys becomes a map of the camelCase key alone. *)
Theorem normalizeParameters_later_spelling_wins
    (snake camel a b : string) (va vb : Value) (l1 l2 l3 : Obj Value) :
  In (snake, camel) PARAMETER_MAPPINGS ->
  snake <> camel ->
  (a = snake /\ b = camel) \/ (a = camel /\ b = snake) ->
  List.NoDup (keys (l1 ++ (a, va) :: l2 ++ (b, vb) :: l3)) ->
  let result := normalizeArgs (l1 ++ (a, va) :: l2 ++ (b, vb) :: l3) in
  obj_own result camel = Some (nested normalizeParameters vb) /\
  obj_own result snake = None /\
  List.NoDup (keys result) /\
  (forall va', normalizeArgs (l1 ++ (a, va') :: l2 ++ (b, vb) :: l3) = result) /\
  normalizeArgs [(a, va); (b, vb)] = [(camel, nested normalizeParameters vb)] /\
  (exists p q : Obj Value,
      p <> q /\ wf (VObj p) /\ wf (VObj q) /\ normalizeArgs p = normalizeArgs q).
Proof.
  intros Hin Hne Hab Hnd result.
  assert (normalizedKey a = camel /\ normalizedKey b = camel) as [Ha Hb].
  { destruct Hab as [[-> ->]|[-> ->]]; split;
      (now apply normalizedKey_snake) || (eapply normalizedKey_camel; eassumption). }
  assert (camel <> "__proto__" /\ arrayIndex camel = None) as [Hcp Hci].
  { destruct (mapped_key snake) as (_ & Hc & Hi & _).
    - change snake with (fst (snake, camel)). now apply in_map.
    - now rewrite (normalizedKey_snake _ _ Hin) in Hc, Hi. }
  split; [|split; [|split; [|split; [|split]]]].
  - subst result.
    replace (l1 ++ (a, va) :: l2 ++ (b, vb) :: l3)
      with ((l1 ++ (a, va) :: l2) ++ (b, vb) :: l3)
      by (rewrite <- app_assoc; reflexivity).
    rewrite <- Hb.
    apply (fold_own_last normalizedKey (nested normalizeParameters)
             _ (normalizeStep_spec normalizeParameters)).
    + now rewrite Hb.
    + intros k x Hk Hcontra. rewrite Hb in Hcontra.
      apply (normalizedKey_inv _ _ _ Hin) in Hcontra.
      assert (In k (keys l3)) as Hl3
          by (change k with (fst (k, x)); now apply in_map).
      unfold keys in Hnd. rewrite !map_app in Hnd. simpl in Hnd.
      rewrite map_app in Hnd. simpl in Hnd.
      apply NoDup_remove in Hnd as [Hnd Hfresh].
      apply NoDup_app_remove_l in Hnd.
      pose proof Hnd as Hnd2.
      apply NoDup_remove_2 in Hnd2.
      assert (k <> b) as Hkb.
      { intros ->. apply Hnd2. apply in_or_app. now right. }
      assert (k <> a) as Hka.
      { intros ->. apply Hfresh. apply in_or_app. right.
        apply in_or_app. right. now right. }
      destruct Hab as [[-> ->]|[-> ->]], Hcontra; contradiction.
  - subst result.
    destruct (obj_own (normalizeArgs _) snake) eqn:E; [|reflexivity].
    exfalso.
    assert (obj_own (normalizeArgs (l1 ++ (a, va) :: l2 ++ (b, vb) :: l3)) snake
            <> None) as Hsome by congruence.
    apply (fold_own_Some normalizedKey (nested normalizeParameters)
             _ (normalizeStep_spec normalizeParameters)) in Hsome.
    destruct Hsome as [Hnil|(_ & k & x & _ & Hk)]; [now apply Hnil|].
    eapply normalizedKey_not_snake; eassumption.
  - apply (fold_NoDup normalizedKey (nested normalizeParameters)
             _ (normalizeStep_spec normalizeParameters)). constructor.
  - intros va'. subst result. unfold normalizeArgs. apply obj_ext.
    + apply (fold_keys normalizedKey (nested normalizeParameters)
               _ (normalizeStep_spec normalizeParameters)); [|reflexivity].
      rewrite !map_app. reflexivity.
    + apply (fold_NoDup normalizedKey (nested normalizeParameters)
               _ (normalizeStep_spec normalizeParameters)). constructor.
    + intros k. destruct (String.eqb_spec k "__proto__") as [->|Hk].
      * now rewrite !(fold_own_proto normalizedKey (nested normalizeParameters)
                        _ (normalizeStep_spec normalizeParameters)).
      * rewrite !(fold_own normalizedKey (nested normalizeParameters)
                    _ (normalizeStep_spec normalizeParameters)) by exact Hk.
        rewrite !lastStored_app. cbn [lastStored].
        destruct (lastStored normalizedKey (nested normalizeParameters)
                    (l2 ++ (b, vb) :: l3) k) eqn:E; [reflexivity|].
        destruct (String.eqb_spec (normalizedKey a) k) as [Heq|_]; [|reflexivity].
        exfalso. rewrite Ha in Heq. subst k. rewrite <- Hb in E.
        revert E. apply lastStored_In with (value := vb).
        apply in_or_app. right. now left.
  - unfold normalizeArgs. cbn [fold_left normalizeStep]. rewrite Ha, Hb.
    rewrite (obj_set_append [] camel) by (assumption || (simpl; tauto)).
    cbn [app]. unfold obj_set.
    destruct (String.eqb_spec camel "__proto__"); [contradiction|].
    cbn [obj_own obj_update]. now rewrite String.eqb_refl.
  - exists [("project_path", VStr "old"); ("projectPath", VStr "new")],
           [("projectPath", VStr "new")].
    repeat split; try discriminate; repeat constructor; simpl; intuition discriminate.
Qed.

Lemma normalizeParameters_later_spelling_wins_witness :
  let input := [ ("scenePath", VStr "a.tscn");
                 ("projectPath", VStr "camel");
                 ("nodeName", VStr "Player");
                 ("project_path", VStr "snake") ] in
  obj_own (normalizeArgs input) "projectPath" = Some (VStr "snake") /\
  obj_own (normalizeArgs input) "project_path" = None.
Proof.
  intros input.
  pose proof (normalizeParameters_later_spelling_wins
                "project_path" "projectPath" "projectPath" "project_path"
                (VStr "camel") (VStr "snake")
                [("scenePath", VStr "a.tscn")] [("nodeName", VStr "Player")] [])
    as H.
  simpl in H.
  destruct H as (Hcamel & Hsnake & _).
  - now left.
  - discriminate.
  - right. split; reflexivity.
  - repeat constructor; simpl; intuition discriminate.
  - split; [exact Hcamel | exact Hsnake].
Defined.

(** The same on the two orders of the example of the claim. *)
Example normalizeParameters_both_spellings :
  normalizeArgs [("project_path", VStr "first"); ("projectPath", VStr "second")]
  = [("projectPath", VStr "second")] /\
  normalizeArgs [("projectPath", VStr "first"); ("project_path", VStr "second")]
  = [("projectPath", VStr "second")].
Proof. split; reflexivity. Qed.

(** *** Keys the table does not have *)

Lemma toLowerChar_not_upper c : JSString.isUpper (JSString.toLowerChar c) = false.
Proof. destruct c as [[] [] [] [] [] [] [] []]; reflexivity. Qed.

Lemma hasUpper_app s t :
  JSString.hasUpper (s +:+ t) = JSString.hasUpper s || JSString.hasUpper t.
Proof.
  induction s as [|c s IH]; simpl; [reflexivity|].
  now rewrite IH, orb_assoc.
Qed.

(** The fallback leaves no capital behind. *)
Lemma camelToSnake_lower key : JSString.hasUpper (camelToSnake key) = false.
Proof.
  unfold camelToSnake. induction key as [|c key IH]; simpl; [reflexivity|].
  rewrite hasUpper_app, IH, orb_false_r.
  destruct (JSString.isUpper c) eqn:E; simpl.
  - now rewrite toLowerChar_not_upper.
  - now rewrite E.
Qed.

(** An example of the fallback. *)
Example camelToSnake_tilemapName : camelToSnake "tilemapName" = "tilemap_name".
Proof. reflexivity. Qed.






(** *** The loops at work *)

(** Nested maps are normalized, arrays are stored as they are. *)
Example normalizeArgs_nested :
  normalizeArgs
    [ ("node_type", VObj [ ("scene_path", VNull);
                           ("tiles", VArr [VObj [("node_name", VNum 1)]]) ]) ]
  = [ ("nodeType", VObj [ ("scenePath", VNull);
                          ("tiles", VArr [VObj [("node_name", VNum 1)]]) ]) ].
Proof. reflexivity. Qed.

(** Array-index keys come first in the result, in numeric order. *)
Example normalizeArgs_index_keys :
  normalizeArgs [("b", VNum 1); ("10", VNum 2); ("2", VNum 3)]
  = [("2", VNum 3); ("10", VNum 2); ("b", VNum 1)].
Proof. reflexivity. Qed.

(** An array handed in at top level comes back as an object. *)
Example normalizeParameters_array :
  normalizeParameters (VArr [VObj [("scene_path", VNum 1)]; VArr []])
  = VObj [("0", VObj [("scenePath", VNum 1)]); ("1", VArr [])].
Proof. reflexivity. Qed.

(** A key that names a member of [Object.prototype] finds that member in
    the table lookup and is stored under the text of the member; a key
    the fallback turns into [__proto__] is stored nowhere. *)
Example convertCamelToSnakeCase_inherited :
  normalizeArgs [("__proto__", VStr "x")] = [("[object Object]", VStr "x")] /\
  convertCamelToSnakeCase
    [ ("constructor", VNum 1); ("_Proto__", VNum 2); ("HTTPPort", VNum 80) ]
  = [ ("function Object() { [native code] }", VNum 1); ("_h_t_t_p_port", VNum 80) ].
Proof. split; reflexivity. Qed.

(** ** Dispatch *)

Import ToolHandlers Demo.

(** A parameter is reported missing when the read [args[param]] is falsy:
    there is no such property (and [Object.prototype] has no such member),
    or its value is [null], [false], [0] or the empty string. *)
Lemma missingParams_spec (args : Obj Value) (requiredParams : list string) param :
  In param (missingParams args requiredParams) <->
  In param requiredParams /\
  match obj_own args param with
  | Some v => truthy v = false
  | None => isPrototypeMember param = false
  end.
Proof.
  unfold missingParams. rewrite filter_In. unfold obj_read.
  destruct (obj_own args param) as [v|]; simpl.
  - now rewrite negb_true_iff.
  - destruct (isPrototypeMember param); simpl; intuition.
Qed.

Lemma obj_own_rest {A} (o : Obj A) k k' :
  obj_own (obj_rest k o) k' = if String.eqb k k' then None else obj_own o k'.
Proof.
  unfold obj_rest. induction o as [|[k0 v0] o IH]; simpl.
  - now destruct (String.eqb k k').
  - destruct (String.eqb_spec k k0) as [Heq|Hne]; simpl.
    + subst k0. rewrite IH. destruct (String.eqb_spec k k'); reflexivity.
    + rewrite IH. destruct (String.eqb_spec k0 k') as [Heq'|]; [|reflexivity].
      subst k'. destruct (String.eqb_spec k k0); [contradiction | reflexivity].
Qed.

(** No key is sent to the engine as [projectPath]. *)
Lemma snakeKey_not_projectPath key : snakeKey key <> "projectPath".
Proof.
  assert (camelToSnake key <> "projectPath") as Hfallback.
  { intros H. pose proof (camelToSnake_lower key) as Hl. rewrite H in Hl. discriminate. }
  unfold snakeKey, obj_read.
  destruct (obj_own reverseParameterMappings key) as [s|] eqn:E.
  - destruct (String.eqb s ""); [exact Hfallback|].
    apply obj_own_In in E. rewrite reverseParameterMappings_eq in E.
    apply in_map_iff in E as ([s' c] & [= <- <-] & Hin). simpl.
    intros ->. apply (in_map fst) in Hin.
    exact (proj1 (obj_own_None PARAMETER_MAPPINGS "projectPath") eq_refl Hin).
  - destruct (isPrototypeMember key); [|exact Hfallback].
    intros H. pose proof (inheritedKeyString_blank key) as Hb.
    rewrite H in Hb. discriminate.
Qed.

Lemma convert_has_no_projectPath (params : Obj Value) :
  obj_own (convertCamelToSnakeCase params) "projectPath" = None.
Proof.
  destruct (obj_own (convertCamelToSnakeCase params) "projectPath") eqn:E;
    [exfalso|reflexivity].
  assert (obj_own (convertCamelToSnakeCase params) "projectPath" <> None) as H
      by congruence.
  apply (fold_own_Some snakeKey (nested convertValue)
           _ (convertStep_spec convertValue)) in H.
  destruct H as [H|(_ & key & value & _ & H)]; [now apply H|].
  now apply snakeKey_not_projectPath in H.
Qed.

(** Only the empty key is converted to the empty key. *)
Lemma camelToSnake_nil_inv key : camelToSnake key = "" -> key = "".
Proof.
  destruct key as [|c key]; [reflexivity|].
  unfold camelToSnake. cbn [JSString.replaceChars].
  destruct (JSString.isUpper c); discriminate.
Qed.

(** How the fallback can have produced a given first character. *)
Lemma camelToSnake_cons_inv key t0 t :
  camelToSnake key = String t0 t ->
  exists c key', key = String c key' /\
    ((JSString.isUpper c = false /\ c = t0 /\ camelToSnake key' = t) \/
     (JSString.isUpper c = true /\ t0 = "_"%char /\
      exists t', t = String (JSString.toLowerChar c) t' /\ camelToSnake key' = t')).
Proof.
  destruct key as [|c key]; [discriminate|].
  unfold camelToSnake. cbn [JSString.replaceChars].
  destruct (JSString.isUpper c) eqn:E; intros [= <- <-]; exists c, key;
    (split; [reflexivity|]); [right | left]; eauto.
Qed.

Lemma toLowerChar_p c :
  JSString.isUpper c = true -> JSString.toLowerChar c = "p"%char -> c = "P"%char.
Proof. destruct c as [[] [] [] [] [] [] [] []]; (discriminate || reflexivity). Qed.

(** One character of a known result of the fallback, traced back. *)
Ltac fallback_step H :=
  let c := fresh "c" in
  let k := fresh "key" in
  let Hu := fresh "Hu" in
  let Ht := fresh "Ht" in
  let t' := fresh "t" in
  let Heq := fresh "Heq" in
  apply camelToSnake_cons_inv in H as (c & k & -> & [(Hu & -> & H)|(Hu & Ht & t' & Heq & H)]);
  [ | try discriminate Ht ].

(** The two keys the fallback turns into [project_path]. *)
Lemma camelToSnake_project_path key :
  camelToSnake key = "project_path" ->
  key = "project_path" \/ key = "projectPath".
Proof.
  intros H.
  do 7 (fallback_step H).
  fallback_step H.
  - do 4 (fallback_step H). apply camelToSnake_nil_inv in H as ->. now left.
  - injection Heq as Hp <-. symmetry in Hp. apply toLowerChar_p in Hp as ->; [|assumption].
    do 3 (fallback_step H). apply camelToSnake_nil_inv in H as ->. now right.
Qed.

(** Nor is any key of the normalized arguments, the project path apart,
    sent as [project_path]. *)
Lemma convert_rest_has_no_project_path (args : Obj Value) :
  obj_own (convertCamelToSnakeCase (obj_rest "projectPath" (normalizeArgs args)))
          "project_path" = None.
Proof.
  destruct (obj_own (convertCamelToSnakeCase _) "project_path") eqn:E;
    [exfalso|reflexivity].
  assert (obj_own (convertCamelToSnakeCase
                     (obj_rest "projectPath" (normalizeArgs args))) "project_path"
          <> None) as H by congruence.
  apply (fold_own_Some snakeKey (nested convertValue)
           _ (convertStep_spec convertValue)) in H.
  destruct H as [H|(_ & key & value & Hin & Hkey)]; [now apply H|].
  unfold obj_rest in Hin. apply filter_In in Hin as [Hin Hrest]. cbn [fst] in Hrest.
  apply negb_true_iff, String.eqb_neq in Hrest.
  assert (exists k0, normalizedKey k0 = key) as [k0 Hk0].
  { assert (obj_own (normalizeArgs args) key <> None) as Hown.
    { intros Hnone. apply obj_own_None in Hnone. apply Hnone.
      change key with (fst (key, value)). now apply in_map. }
    apply (fold_own_Some normalizedKey (nested normalizeParameters)
             _ (normalizeStep_spec normalizeParameters)) in Hown.
    destruct Hown as [Hown|(_ & k0 & x & _ & Hk0)]; [now contradiction Hown|].
    now exists k0. }
  assert (In ("project_path", "projectPath") PARAMETER_MAPPINGS) as Htable
      by (now left).
  assert (camelToSnake key <> "project_path") as Hfallback.
  { intros Hc. apply camelToSnake_project_path in Hc as [->| ->].
    - revert Hk0. now apply (normalizedKey_not_snake _ _ _ Htable).
    - now apply Hrest. }
  revert Hkey. unfold snakeKey, obj_read.
  destruct (obj_own reverseParameterMappings key) as [s|] eqn:Es.
  - destruct (String.eqb s ""); [exact Hfallback|].
    intros Hs. subst s.
    apply obj_own_In in Es. rewrite reverseParameterMappings_eq in Es.
    apply in_map_iff in Es as ([s' c] & Heq & Hin'). injection Heq as Hc Hs.
    simpl in Hc, Hs. subst s' c.
    apply Hrest. symmetry.
    pose proof (proj1 (table_entry _ _ Hin')) as E1.
    pose proof (proj1 (table_entry _ _ Htable)) as E2. congruence.
  - destruct (isPrototypeMember key); [|exact Hfallback].
    intros H. pose proof (inheritedKeyString_blank key) as Hb.
    rewrite H in Hb. discriminate.
Qed.

Section Dispatch.

Variable JSON_parse : string -> option Value.
Variable env : Env.

Implicit Types (args : Obj Value) (requiredParams : list string).

(** With a parameter missing, the handler answers at once. *)
Lemma handleOperationTool_missing toolName operation args requiredParams options :
  missingParams (normalizeArgs args) requiredParams <> [] ->
  handleOperationTool JSON_parse env toolName operation args requiredParams options
  = answer (createErrorResponse
              ("Missing required parameters: "
               +:+ JSString.join ", " (missingParams (normalizeArgs args) requiredParams))
              [ "Provide "
                +:+ JSString.join ", " (missingParams (normalizeArgs args) requiredParams) ]).
Proof.
  intros H. unfold handleOperationTool.
  destruct (missingParams (normalizeArgs args) requiredParams); [contradiction|].
  reflexivity.
Qed.

Lemma handleOperationTool_calls toolName operation args requiredParams options :
  let h := handleOperationTool JSON_parse env toolName operation args
                               requiredParams options in
  calls h = [] \/ calls h = [operationCall operation (normalizeArgs args)].
Proof.
  unfold handleOperationTool.
  destruct (missingParams _ _); [|now left].
  destruct (invalidPaths _); [|now left].
  destruct (executeOperation env (operationCall operation (normalizeArgs args))) as [outcome effs].
  destruct (obj_own (normalizeArgs args) "projectPath") as [v|]; [|now right].
  destruct (truthy v); [|now right].
  destruct v; try (now left).
  destruct (projectMarker env s); [now right | now left].
Qed.

Lemma handleOperationTool_passes toolName operation args requiredParams options :
  missingParams (normalizeArgs args) requiredParams = [] ->
  invalidPaths (normalizeArgs args) = [] ->
  match obj_own (normalizeArgs args) "projectPath" with
  | Some (VStr p) => p = "" \/ projectMarker env p = true
  | Some v => truthy v = false
  | None => True
  end ->
  handleOperationTool JSON_parse env toolName operation args requiredParams options
  = {| response := conclude JSON_parse toolName options
                     (executeOperation env (operationCall operation (normalizeArgs args))).1;
       calls := [operationCall operation (normalizeArgs args)];
       effects := (executeOperation env (operationCall operation (normalizeArgs args))).2 |}.
Proof.
  intros Hmissing Hpaths Hproject. unfold handleOperationTool.
  rewrite Hmissing, Hpaths. fold (operationCall operation (normalizeArgs args)).
  destruct (executeOperation env (operationCall operation (normalizeArgs args))) as [outcome effs]. simpl.
  destruct (obj_own (normalizeArgs args) "projectPath") as [v|]; [|reflexivity].
  destruct v; simpl in *; try reflexivity; try discriminate;
    try (rewrite Hproject; reflexivity).
  destruct Hproject as [Hempty|Hmarker].
  - subst s. reflexivity.
  - rewrite Hmarker. now destruct (negb (s =? "")%string).
Qed.

End Dispatch.

(** C5, as the specification states it, fails: a required parameter that
    is present with the empty string as its value is named as missing
    along with the absent one. *)
Lemma handleOperationTool_names_present_parameter :
  ~ (forall JSON_parse env toolName operation args requiredParams options,
        Spec.absentParams args requiredParams <> [] ->
        let h := handleOperationTool JSON_parse env toolName operation args
                                     requiredParams options in
        response h
        = createErrorResponse
            ("Missing required parameters: "
             +:+ JSString.join ", " (Spec.absentParams args requiredParams))
            [ "Provide " +:+ JSString.join ", " (Spec.absentParams args requiredParams) ]
        /\ calls h = [] /\ effects h = []).
Proof.
  intros H.
  specialize (H demoParse demoEnv "save scene" "save_scene"
                [("projectPath", VStr "")] ["projectPath"; "scenePath"] noOptions).
  destruct H as (H & _); [discriminate|].
  discriminate H.
Qed.

(** What the handler answers on that input. *)
Example handleOperationTool_empty_projectPath :
  response (handleOperationTool demoParse demoEnv "save scene" "save_scene"
              [("projectPath", VStr "")] ["projectPath"; "scenePath"] noOptions)
  = createErrorResponse "Missing required parameters: projectPath, scenePath"
                        ["Provide projectPath, scenePath"].
Proof. reflexivity. Qed.

(** C5, amended: when some required parameter is falsy in the normalized
    arguments (no such property, or the value [null], [false], [0] or the
    empty string), the handler answers with the validation error that
    names exactly these parameters, in the order of the required list,
    and neither calls the executor nor touches the environment. *)
Theorem handleOperationTool_reports_missing
    (JSON_parse : string -> option Value) (env : Env)
    (toolName operation : string) (args : Obj Value)
    (requiredParams : list string) (options : OperationToolOptions) :
  let missing := missingParams (normalizeArgs args) requiredParams in
  missing <> [] ->
  let h := handleOperationTool JSON_parse env toolName operation args
                               requiredParams options in
  response h
  = createErrorResponse
      ("Missing required parameters: " +:+ JSString.join ", " missing)
      [ "Provide " +:+ JSString.join ", " missing ] /\
  isError (response h) = true /\
  calls h = [] /\
  effects h = [] /\
  (forall param,
      In param missing <->
      In param requiredParams /\
      match obj_own (normalizeArgs args) param with
      | Some v => truthy v = false
      | None => isPrototypeMember param = false
      end).
Proof.
  intros missing Hmissing h. subst h.
  rewrite (handleOperationTool_missing JSON_parse env) by exact Hmissing.
  do 4 (split; [reflexivity|]).
  intros param. apply missingParams_spec.
Qed.

Lemma handleOperationTool_reports_missing_witness :
  let h := handleOperationTool demoParse demoEnv "save scene" "save_scene"
             [("project_path", VStr "demo")] ["projectPath"; "scenePath"] noOptions in
  response h = createErrorResponse "Missing required parameters: scenePath"
                                   ["Provide scenePath"] /\
  calls h = [] /\ effects h = [].
Proof.
  intros h.
  destruct (handleOperationTool_reports_missing demoParse demoEnv
              "save scene" "save_scene" [("project_path", VStr "demo")]
              ["projectPath"; "scenePath"] noOptions) as (H1 & _ & H2 & H3 & _).
  - discriminate.
  - split; [exact H1 | split; [exact H2 | exact H3]].
Defined.

(** C10: a dispatch calls the executor at most once, and when the
    validation steps pass it calls it exactly once, with the normalized
    arguments less the property [projectPath]: every other property is
    handed on with its value, in the same order, and the object written
    into the command line has no property [projectPath], nor one of the
    name [project_path] the engine side would use. *)
Theorem handleOperationTool_forwards_params
    (JSON_parse : string -> option Value) (env : Env)
    (toolName operation : string) (args : Obj Value)
    (requiredParams : list string) (options : OperationToolOptions) :
  let normalized := normalizeArgs args in
  let h := handleOperationTool JSON_parse env toolName operation args
                               requiredParams options in
  missingParams normalized requiredParams = [] ->
  invalidPaths normalized = [] ->
  match obj_own normalized "projectPath" with
  | Some (VStr p) => p = "" \/ projectMarker env p = true
  | Some v => truthy v = false
  | None => True
  end ->
  exists params,
    calls h = [ {| callOperation := operation;
                   callParams := params;
                   callProjectPath := obj_own normalized "projectPath" |} ] /\
    params = List.filter (fun kv => negb (String.eqb "projectPath" kv.1)) normalized /\
    obj_own params "projectPath" = None /\
    (forall k, k <> "projectPath" -> obj_own params k = obj_own normalized k) /\
    obj_own (convertCamelToSnakeCase params) "projectPath" = None /\
    obj_own (convertCamelToSnakeCase params) "project_path" = None.
Proof.
  intros normalized h Hmissing Hpaths Hproject.
  exists (obj_rest "projectPath" normalized). subst h.
  rewrite (handleOperationTool_passes JSON_parse env) by assumption.
  repeat split.
  - rewrite obj_own_rest. reflexivity.
  - intros k Hk. rewrite obj_own_rest.
    destruct (String.eqb_spec "projectPath" k); [congruence | reflexivity].
  - apply convert_has_no_projectPath.
  - apply convert_rest_has_no_project_path.
Qed.

Lemma handleOperationTool_forwards_params_witness :
  calls (handleOperationTool demoParse demoEnv "save scene" "save_scene"
           [ ("project_path", VStr "demo"); ("scenePath", VStr "main.tscn");
             ("new_path", VStr "copy.tscn") ]
           ["projectPath"; "scenePath"] noOptions)
  = [ {| callOperation := "save_scene";
         callParams := [("scenePath", VStr "main.tscn"); ("newPath", VStr "copy.tscn")];
         callProjectPath := Some (VStr "demo") |} ].
Proof.
  destruct (handleOperationTool_forwards_params demoParse demoEnv
              "save scene" "save_scene"
              [ ("project_path", VStr "demo"); ("scenePath", VStr "main.tscn");
                ("new_path", VStr "copy.tscn") ]
              ["projectPath"; "scenePath"] noOptions)
    as (params & Hcalls & Hparams & _).
  - reflexivity.
  - reflexivity.
  - right. reflexivity.
  - rewrite Hcalls, Hparams. reflexivity.
Defined.

(** The same dispatch with the executor of the server: one command is
    run, and its JSON argument has the scene path and the new path but no
    project path. *)
Example handleOperationTool_command_line :
  effects (handleOperationTool demoParse serverEnv "save scene" "save_scene"
             [ ("project_path", VStr "demo"); ("scenePath", VStr "main.tscn");
               ("new_path", VStr "copy.tscn") ]
             ["projectPath"; "scenePath"] noOptions)
  = [ Command.Exec
        (inQuotes "godot" +:+ " --headless --path " +:+ inQuotes "demo"
         +:+ " --script " +:+ inQuotes "ops.gd" +:+ " save_scene '{"
         +:+ inQuotes "scene_path" +:+ ":" +:+ inQuotes "main.tscn" +:+ ","
         +:+ inQuotes "new_path" +:+ ":" +:+ inQuotes "copy.tscn" +:+ "}'") ].
Proof. reflexivity. Qed.

(** ** Extraction of the JSON payload *)

Section Scan.

Variable JSON_parse : string -> option Value.

(** The scan stops at the last line that parses. *)
Lemma scanBackward_found pre line post json :
  JSON_parse line = Some json ->
  Forall (fun l => JSON_parse l = None) post ->
  scanBackward JSON_parse (pre ++ line :: post) (length (pre ++ line :: post))
  = Parsed json.
Proof.
  intros Hline Hpost.
  assert (forall n, (n <= length post)%nat ->
                    scanBackward JSON_parse (pre ++ line :: post) (length pre + 1 + n)
                    = Parsed json) as H.
  { induction n as [|n IH]; intros Hn.
    - replace (length pre + 1 + 0)%nat with (S (length pre)) by lia. simpl.
      rewrite lookup_app_r by lia. rewrite Nat.sub_diag. simpl. now rewrite Hline.
    - replace (length pre + 1 + S n)%nat with (S (length pre + 1 + n)) by lia.
      simpl. rewrite lookup_app_r by lia.
      replace (length pre + 1 + n - length pre)%nat with (S n) by lia. simpl.
      destruct (post !! n) as [l|] eqn:E.
      + assert (JSON_parse l = None) as ->.
        { apply (proj1 (List.Forall_forall _ _) Hpost).
          apply list_elem_of_In. eapply list_elem_of_lookup_2. exact E. }
        apply IH. lia.
      + apply IH. lia. }
  rewrite length_app. simpl.
  replace (length pre + S (length post))%nat with (length pre + 1 + length post)%nat
    by lia.
  now apply H.
Qed.

(** When no line parses, the scan runs to the first line and fails. *)
Lemma scanBackward_none lines count :
  Forall (fun l => JSON_parse l = None) lines ->
  scanBackward JSON_parse lines count
  = ExtractError "Unable to parse JSON content from Godot output".
Proof.
  intros Hlines. induction count as [|index IH]; simpl; [reflexivity|].
  destruct (lines !! index) as [l|] eqn:E; [|exact IH].
  assert (JSON_parse l = None) as ->; [|exact IH].
  apply (proj1 (List.Forall_forall _ _) Hlines).
  apply list_elem_of_In. eapply list_elem_of_lookup_2. exact E.
Qed.

Lemma outputLines_blank output :
  JSString.trim output = "" -> outputLines output = [].
Proof. unfold outputLines. intros ->. reflexivity. Qed.

End Scan.

(** C8: the extraction takes the lines of stdout (trimmed, empty ones
    dropped) from the last backward and gives the parse of the first that
    is valid JSON, whatever the lines before it are, and with structured
    results requested and no failure marker on stderr the handler answers
    with that value; when no line parses the extraction fails and the
    handler answers with the parse-failure error, which is different from
    every answer to a failed execution. *)
Theorem extractJsonFromOutput_scans_backward
    (JSON_parse : string -> option Value) (toolName : string)
    (options : OperationToolOptions) (out : Command.ExecOutput) :
  let lines := outputLines (Command.stdout out) in
  let unparsable := Forall (fun line => JSON_parse line = None) in
  (forall pre line post json,
      lines = pre ++ line :: post ->
      JSON_parse line = Some json ->
      unparsable post ->
      extractJsonFromOutput JSON_parse (Command.stdout out) = Parsed json /\
      (expectsJson options = true ->
       JSString.includes "Failed to" (Command.stderr out) = false ->
       exists message,
         conclude JSON_parse toolName options (Command.Returned out)
         = textResponse [message; stringifyIndented "" json])) /\
  (unparsable lines ->
   exists message,
     extractJsonFromOutput JSON_parse (Command.stdout out) = ExtractError message) /\
  (expectsJson options = true ->
   JSString.includes "Failed to" (Command.stderr out) = false ->
   unparsable lines ->
   conclude JSON_parse toolName options (Command.Returned out)
   = createErrorResponse
       ("Failed to " +:+ toolName +:+ ": Unable to parse JSON output")
       [ "Run with DEBUG=true for verbose logging";
         "Verify the requested resource exists and is readable" ] /\
   (forall message,
       conclude JSON_parse toolName options (Command.Thrown message)
       <> conclude JSON_parse toolName options (Command.Returned out)) /\
   (forall failed,
       JSString.includes "Failed to" (Command.stderr failed) = true ->
       conclude JSON_parse toolName options (Command.Returned failed)
       <> conclude JSON_parse toolName options (Command.Returned out))).
Proof.
  intros lines unparsable.
  assert (unparsable lines ->
          exists message,
            extractJsonFromOutput JSON_parse (Command.stdout out) = ExtractError message)
    as Hnone.
  { intros Hlines. unfold extractJsonFromOutput.
    destruct (String.eqb _ ""); [eauto|].
    rewrite scanBackward_none by exact Hlines. eauto. }
  split; [|split; [exact Hnone|]].
  - intros pre line post json Hsplit Hline Hpost.
    assert (extractJsonFromOutput JSON_parse (Command.stdout out) = Parsed json)
      as Hparsed.
    { unfold extractJsonFromOutput.
      destruct (String.eqb_spec (JSString.trim (Command.stdout out)) "") as [Hblank|_].
      - apply outputLines_blank in Hblank. fold lines in Hblank.
        rewrite Hsplit in Hblank. now destruct pre.
      - fold lines. rewrite Hsplit. now apply scanBackward_found. }
    split; [exact Hparsed|].
    intros Hjson Hstderr. simpl. rewrite Hstderr, Hjson, Hparsed. eauto.
  - intros Hjson Hstderr Hlines.
    assert (conclude JSON_parse toolName options (Command.Returned out)
            = createErrorResponse
                ("Failed to " +:+ toolName +:+ ": Unable to parse JSON output")
                [ "Run with DEBUG=true for verbose logging";
                  "Verify the requested resource exists and is readable" ]) as Hconclude.
    { simpl. rewrite Hstderr, Hjson.
      destruct (Hnone Hlines) as [message ->]. reflexivity. }
    split; [exact Hconclude|]. rewrite Hconclude. split.
    + intros message H. apply (f_equal (fun r => nth 1 (content r) "")) in H.
      discriminate H.
    + intros failed Hfailed H. simpl in H. rewrite Hfailed in H.
      apply (f_equal (fun r => nth 1 (content r) "")) in H.
      discriminate H.
Qed.

Lemma extractJsonFromOutput_scans_backward_witness :
  let out := {| Command.stdout :=
                  "Godot Engine v4.4" +:+ String CR (String LF "  {} ")
                  +:+ String CR (String LF "shutting down") +:+ String LF "";
                Command.stderr := "" |} in
  let garbled := {| Command.stdout := "Godot Engine v4.4" +:+ String LF "{";
                    Command.stderr := "WARNING: leaked" |} in
  (outputLines (Command.stdout out) = ["Godot Engine v4.4"; "{}"; "shutting down"] /\
   extractJsonFromOutput demoParse (Command.stdout out) = Parsed (VObj [])) /\
  conclude demoParse "read TileMap" jsonOptions (Command.Returned garbled)
  = createErrorResponse "Failed to read TileMap: Unable to parse JSON output"
      [ "Run with DEBUG=true for verbose logging";
        "Verify the requested resource exists and is readable" ].
Proof.
  intros out garbled. split; [split; [reflexivity|]|].
  - apply (proj1 (extractJsonFromOutput_scans_backward
                    demoParse "read TileMap" jsonOptions out)
                 ["Godot Engine v4.4"] "{}" ["shutting down"] (VObj [])).
    + reflexivity.
    + reflexivity.
    + repeat constructor.
  - apply (proj2 (proj2 (extractJsonFromOutput_scans_backward
                           demoParse "read TileMap" jsonOptions garbled))).
    + reflexivity.
    + reflexivity.
    + repeat constructor.
Defined.

(** ** The supervised process *)

Section Supervision.

Variable env : Env.




End Supervision.

Section SlotInvariant.

Variable env : Env.








End SlotInvariant.



(** ** Quoting of the JSON argument *)

Section Quoting.

Import Command Posix.

Lemma append_cons c s t : String c s +:+ t = String c (s +:+ t).
Proof. reflexivity. Qed.

Lemma append_assoc s t u : (s +:+ t) +:+ u = s +:+ (t +:+ u).
Proof.
  induction s as [|c s IH]; [reflexivity|].
  rewrite !append_cons. now rewrite IH.
Qed.

Lemma replaceChars_match pat r c s :
  pat c = true ->
  JSString.replaceChars pat r (String c s) = r c +:+ JSString.replaceChars pat r s.
Proof. intros H. cbn [JSString.replaceChars]. now rewrite H. Qed.

Lemma replaceChars_other pat r c s :
  pat c = false ->
  JSString.replaceChars pat r (String c s) = String c (JSString.replaceChars pat r s).
Proof. intros H. cbn [JSString.replaceChars]. now rewrite H. Qed.

Lemma replaceChars_app pat r s t :
  JSString.replaceChars pat r (s +:+ t)
  = JSString.replaceChars pat r s +:+ JSString.replaceChars pat r t.
Proof.
  induction s as [|c s IH]; [reflexivity|].
  rewrite append_cons. cbn [JSString.replaceChars].
  now rewrite IH, append_assoc.
Qed.

Lemma includes_char_cons a c s :
  JSString.includes (String a EmptyString) (String c s)
  = Ascii.eqb a c || JSString.includes (String a EmptyString) s.
Proof. cbn [JSString.includes JSString.startsWith]. now rewrite andb_true_r. Qed.

Lemma includes_char_app a s t :
  JSString.includes (String a EmptyString) (s +:+ t)
  = JSString.includes (String a EmptyString) s
    || JSString.includes (String a EmptyString) t.
Proof.
  induction s as [|c s IH]; [reflexivity|].
  rewrite append_cons, !includes_char_cons, IH. now rewrite orb_assoc.
Qed.

(** The rules of the shell, one at a time. *)
Lemma unquote_quoted_close rest :
  unquote SingleQuoted (String "'" rest) = unquote Unquoted rest.
Proof. reflexivity. Qed.

Lemma unquote_quoted_literal c rest :
  c <> "'"%char ->
  unquote SingleQuoted (String c rest)
  = option_map (String c) (unquote SingleQuoted rest).
Proof.
  intros H. cbn [unquote].
  destruct (Ascii.eqb_spec c "'"%char); [contradiction | reflexivity].
Qed.

Lemma unquote_open rest :
  unquote Unquoted (String "'" rest) = unquote SingleQuoted rest.
Proof. reflexivity. Qed.

Lemma unquote_escape d rest :
  unquote Unquoted (String "\" (String d rest))
  = option_map (String d) (unquote Unquoted rest).
Proof. reflexivity. Qed.

Lemma unquote_literal c rest :
  c <> "'"%char -> c <> "\"%char ->
  unquote Unquoted (String c rest) = option_map (String c) (unquote Unquoted rest).
Proof.
  intros Hq Hb. cbn [unquote].
  destruct (Ascii.eqb_spec c "'"%char); [contradiction|].
  destruct (Ascii.eqb_spec c "\"%char); [contradiction | reflexivity].
Qed.

(** The scheme of the specification gives the string back, whatever the
    string. *)
Lemma specQuote_body s :
  unquote SingleQuoted
    (JSString.replaceChars (Ascii.eqb "'") (fun _ => "'\''") s +:+ "'") = Some s.
Proof.
  induction s as [|c s IH]; [reflexivity|].
  destruct (Ascii.eqb_spec "'"%char c) as [Heq|Hne].
  - subst c. rewrite replaceChars_match by reflexivity.
    rewrite !append_cons.
    rewrite unquote_quoted_close, unquote_escape, unquote_open.
    change (EmptyString +:+ ?x) with x.
    now rewrite IH.
  - rewrite replaceChars_other by (now apply Ascii.eqb_neq).
    rewrite append_cons, unquote_quoted_literal by congruence.
    now rewrite IH.
Qed.

Lemma specQuote_roundtrip s : shellWord (specQuote s) = Some s.
Proof.
  unfold shellWord, specQuote. rewrite append_cons, unquote_open.
  apply specQuote_body.
Qed.

(** Past the first embedded quote the token of the source is outside
    quotes, and from there its last quote opens a part that never
    closes. *)
Lemma escapedParams_unquoted_open s :
  unquote Unquoted (escapedParams s +:+ "}'") = None.
Proof.
  assert (forall n s, (String.length s < n)%nat ->
                      unquote Unquoted (escapedParams s +:+ "}'") = None) as H.
  { clear s. induction n as [|n IH]; intros s Hn; [lia|].
    destruct s as [|c s]; [reflexivity|].
    unfold escapedParams in *. cbn [String.length] in Hn.
    destruct (Ascii.eqb_spec "'"%char c) as [Heq|Hq].
    - subst c. rewrite replaceChars_match by reflexivity.
      rewrite !append_cons. change (EmptyString +:+ ?x) with x.
      rewrite unquote_open, unquote_quoted_literal by discriminate.
      rewrite unquote_quoted_close, IH by lia. reflexivity.
    - rewrite replaceChars_other by (now apply Ascii.eqb_neq).
      rewrite append_cons.
      destruct (Ascii.eqb_spec c "\"%char) as [Hb|Hb].
      + subst c. destruct s as [|d s]; [reflexivity|].
        cbn [String.length] in Hn.
        destruct (Ascii.eqb_spec "'"%char d) as [Heq|Hq'].
        * subst d. rewrite replaceChars_match by reflexivity.
          rewrite !append_cons. change (EmptyString +:+ ?x) with x.
          rewrite !unquote_escape, IH by lia. reflexivity.
        * rewrite replaceChars_other by (now apply Ascii.eqb_neq).
          rewrite append_cons, unquote_escape, IH by lia. reflexivity.
      + rewrite unquote_literal by congruence.
        rewrite IH by lia. reflexivity. }
  apply (H (S (String.length s))). lia.
Qed.

Lemma escapedParams_quoted_open s :
  JSString.includes "'" s = true ->
  unquote SingleQuoted (escapedParams s +:+ "}'") = None.
Proof.
  induction s as [|c s IH]; [discriminate|].
  rewrite includes_char_cons. unfold escapedParams in *.
  destruct (Ascii.eqb_spec "'"%char c) as [Heq|Hq].
  - subst c. intros _. rewrite replaceChars_match by reflexivity.
    rewrite !append_cons. change (EmptyString +:+ ?x) with x.
    rewrite unquote_quoted_close, unquote_escape.
    fold (escapedParams s). now rewrite escapedParams_unquoted_open.
  - cbn [orb]. intros Hs. rewrite replaceChars_other by (now apply Ascii.eqb_neq).
    rewrite append_cons, unquote_quoted_literal by congruence.
    now rewrite IH.
Qed.

(** On every host but Windows, a JSON object text with a single quote in
    it is turned into a token that leaves a quote open. *)
Lemma quotedParams_leaves_quote_open (params : Obj Value) :
  JSString.includes "'" (stringify (VObj params)) = true ->
  shellWord (quotedParams false (stringify (VObj params))) = None.
Proof.
  cbn [stringify]. set (body := JSString.join "," _).
  rewrite <- append_assoc.
  rewrite includes_char_app. change (JSString.includes "'" "}") with false.
  rewrite orb_false_r. intros Hquote.
  unfold shellWord, quotedParams.
  rewrite append_cons, unquote_open. change (EmptyString +:+ ?x) with x.
  unfold escapedParams at 1. rewrite replaceChars_app.
  change (JSString.replaceChars (Ascii.eqb "'") (fun _ => "'\'") "}") with "}".
  rewrite append_assoc. now apply escapedParams_quoted_open.
Qed.

End Quoting.

(** C1 fails on the code: for the parameter map with the one entry
    [nodeName] of value [it's], on a host that is not Windows, the JSON
    text has a single quote in it, the source replaces it by quote,
    backslash, quote without the quote that reopens, and the token in the
    command line leaves a quote open, so the shell does not get the JSON
    text back; with the scheme the specification describes it does. *)
Theorem executeOperation_leaves_quote_open :
  let params := [("nodeName", VStr "it's")] in
  let json := stringify (VObj (convertCamelToSnakeCase params)) in
  json = "{" +:+ inQuotes "node_name" +:+ ":" +:+ inQuotes "it's" +:+ "}" /\
  JSString.includes "'" json = true /\
  Command.quotedParams false json
  = "'{" +:+ inQuotes "node_name" +:+ ":" +:+ String dquote "it'\'s"
    +:+ String dquote "}'" /\
  (Command.executeOperation posixHost "ops.gd" "add_node" params "demo" godotFound).2
  = [ Command.Exec
        (inQuotes "godot" +:+ " --headless --path " +:+ inQuotes "demo"
         +:+ " --script " +:+ inQuotes "ops.gd" +:+ " add_node "
         +:+ Command.quotedParams false json) ] /\
  Posix.shellWord (Command.quotedParams false json) = None /\
  Posix.shellWord (Posix.specQuote json) = Some json.
Proof.
  intros params json.
  split; [reflexivity|]. split; [reflexivity|]. split; [reflexivity|].
  split; [reflexivity|]. split; [reflexivity|].
  apply specQuote_roundtrip.
Qed.

(** * Further properties *)

(** ** More on the supervised process *)

Lemma deliverAll_empty_slot evs : forall st,
  activeProcess st = None -> activeProcess (deliverAll st evs) = None.
Proof.
  induction evs as [|ev evs IH]; intros st Hst; [exact Hst|].
  unfold deliverAll. simpl. fold (deliverAll (deliver st ev) evs). apply IH.
  destruct ev; simpl; try exact Hst; unfold releaseIfActive; now rewrite Hst.
Qed.

(** X1: stopping the active process kills it, answers with the lines it
    has accumulated, and empties the slot: the debug output and a second
    stop then report that no process is active, and no event fills the
    slot again. *)
Theorem handleStopProject_clears_slot (st : State) (pid : nat) (p : GodotProcess) :
  activeProcess st = Some pid ->
  processes st !! pid = Some p ->
  let '(r, st', acts) := handleStopProject st in
  r = textResponse
        [ stringifyIndented ""
            (VObj [ ("message", VStr "Godot project stopped");
                    ("finalOutput", VArr (map VStr (output p)));
                    ("finalErrors", VArr (map VStr (errors p))) ]) ] /\
  acts = [Kill pid; Untrack] /\
  killed <$> processes st' !! pid = Some true /\
  handleGetDebugOutput st'
  = createErrorResponse "No active Godot process."
      [ "Use run_project to start a Godot project first";
        "Check if the Godot process crashed unexpectedly" ] /\
  handleStopProject st'
  = (createErrorResponse "No active Godot process to stop."
       [ "Use run_project to start a Godot project first";
         "The process may have already terminated" ], st', []) /\
  (forall evs, activeProcess (deliverAll st' evs) = None).
Proof.
  intros Hactive Hp. unfold handleStopProject. rewrite Hactive, Hp. simpl.
  split; [reflexivity|]. split; [reflexivity|]. split; [|split; [|split]].
  - rewrite list_lookup_alter. destruct (decide (pid = pid)); [|contradiction].
    now rewrite Hp.
  - reflexivity.
  - reflexivity.
  - intros evs. now apply deliverAll_empty_slot.
Qed.

Lemma handleStopProject_clears_slot_witness :
  let st := (handleRunProject demoEnv [("project_path", VStr "demo")] initial).1.2 in
  let st1 := deliverAll st [StdoutData 0%nat "ready"] in
  (handleStopProject st1).2 = [Kill 0%nat; Untrack] /\
  isError (handleGetDebugOutput (handleStopProject st1).1.2) = true.
Proof.
  intros st st1.
  pose proof (handleStopProject_clears_slot st1 0%nat
                {| file := "godot"; cmdArgs := ["-d"; "--path"; "demo"];
                   killed := false; gone := false;
                   output := ["ready"]; errors := [] |} eq_refl eq_refl) as H.
  destruct (handleStopProject st1) as [[r st'] acts].
  destruct H as (_ & Hacts & _ & Hout & _).
  split; [exact Hacts|]. simpl. now rewrite Hout.
Defined.

(** X2: the exit or failure of a process that is not the one in the slot
    leaves the slot and the debug output as they are; that of the process
    in the slot empties the slot. *)
Theorem exit_of_stale_process_keeps_slot (st : State) (active pid : nat) :
  activeProcess st = Some active ->
  (pid <> active ->
   activeProcess (deliver st (Exit pid)) = Some active /\
   activeProcess (deliver st (Error pid)) = Some active /\
   handleGetDebugOutput (deliver st (Exit pid)) = handleGetDebugOutput st /\
   handleGetDebugOutput (deliver st (Error pid)) = handleGetDebugOutput st) /\
  activeProcess (deliver st (Exit active)) = None /\
  activeProcess (deliver st (Error active)) = None /\
  isError (handleGetDebugOutput (deliver st (Exit active))) = true.
Proof.
  intros Hactive. split; [|split; [|split]].
  - intros Hne.
    assert (releaseIfActive pid st = Some active) as Hrel.
    { unfold releaseIfActive. rewrite Hactive.
      destruct (Nat.eqb_spec active pid); [congruence | reflexivity]. }
    assert (handleGetDebugOutput
              {| activeProcess := releaseIfActive pid st;
                 processes := alter setGone pid (processes st) |}
            = handleGetDebugOutput st) as Hout.
    { unfold handleGetDebugOutput. simpl. rewrite Hrel, Hactive.
      rewrite list_lookup_alter_ne by exact Hne. reflexivity. }
    simpl. rewrite Hrel in *. auto.
  - simpl. unfold releaseIfActive. now rewrite Hactive, Nat.eqb_refl.
  - simpl. unfold releaseIfActive. now rewrite Hactive, Nat.eqb_refl.
  - unfold handleGetDebugOutput. simpl. unfold releaseIfActive.
    now rewrite Hactive, Nat.eqb_refl.
Qed.

Lemma exit_of_stale_process_keeps_slot_witness :
  let run path st := (handleRunProject demoEnv [("project_path", VStr path)] st).1.2 in
  let st := run "second" (run "first" initial) in
  activeProcess (deliver st (Exit 0%nat)) = Some 1%nat /\
  activeProcess (deliver st (Exit 1%nat)) = None.
Proof.
  intros run st.
  destruct (exit_of_stale_process_keeps_slot st 1%nat 0%nat eq_refl)
    as (Hstale & _).
  destruct (exit_of_stale_process_keeps_slot st 1%nat 1%nat eq_refl)
    as (_ & Hexit & _).
  split; [apply Hstale; discriminate | exact Hexit].
Defined.


Lemma killActive_slot st : activeProcess (killActive st).1 = activeProcess st.
Proof.
  unfold killActive. destruct (activeProcess st) eqn:Hactive; simpl; congruence.
Qed.

Lemma killActive_output st :
  handleGetDebugOutput (killActive st).1 = handleGetDebugOutput st.
Proof.
  unfold killActive, handleGetDebugOutput.
  destruct (activeProcess st) as [pid|] eqn:Hactive; simpl; [|now rewrite Hactive].
  rewrite list_lookup_alter.
  destruct (decide (pid = pid)); [|contradiction].
  now destruct (processes st !! pid).
Qed.

(** X3: a run that starts no process leaves the slot and the debug output
    of the process in it as they were; it has done nothing at all, or it
    has killed the process in the slot and nothing else. *)
Theorem handleRunProject_failure_keeps_slot (env : Env) (args : Obj Value)
    (st st' : State) (reply : Reply) (acts : list Action) :
  handleRunProject env args st = (reply, st', acts) ->
  SceneHandlers.failed reply ->
  activeProcess st' = activeProcess st /\
  handleGetDebugOutput st' = handleGetDebugOutput st /\
  ((st' = st /\ acts = []) \/
   (exists pid, activeProcess st = Some pid /\ acts = [Kill pid] /\
                st' = (killActive st).1)).
Proof.
  unfold handleRunProject.
  assert (forall r : Reply, (r, st, @nil Action) = (reply, st', acts) ->
            activeProcess st' = activeProcess st /\
            handleGetDebugOutput st' = handleGetDebugOutput st /\
            ((st' = st /\ acts = []) \/
             (exists pid, activeProcess st = Some pid /\ acts = [Kill pid] /\
                          st' = (killActive st).1))) as Hsame.
  { intros r [= _ <- <-]. auto. }
  assert (forall r : Reply,
            (r, (killActive st).1, (killActive st).2) = (reply, st', acts) ->
            activeProcess st' = activeProcess st /\
            handleGetDebugOutput st' = handleGetDebugOutput st /\
            ((st' = st /\ acts = []) \/
             (exists pid, activeProcess st = Some pid /\ acts = [Kill pid] /\
                          st' = (killActive st).1))) as Hkilled.
  { intros r [= _ <- <-].
    split; [apply killActive_slot|]. split; [apply killActive_output|].
    unfold killActive. destruct (activeProcess st) as [pid|] eqn:Hactive.
    - right. exists pid. auto.
    - left. auto. }
  destruct (obj_own _ "projectPath") as [projectPath|]; [|intros H _; eapply Hsame, H].
  destruct (negb (truthy projectPath)); [intros H _; eapply Hsame, H|].
  destruct (validatePathDyn projectPath) as [[|]|];
    [|intros H _; eapply Hsame, H|intros H _; eapply Hsame, H].
  destruct projectPath as [| | |path| |]; try (intros H _; eapply Hsame, H).
  destruct (negb (projectMarker env path)); [intros H _; eapply Hsame, H|].
  destruct (killActive st) as [st1 killing] eqn:Hkill. simpl in Hkilled.
  match goal with
  | |- context [match ?a with inl _ => _ | inr _ => _ end] => destruct a as [e|cmdArgs]
  end; [intros H _; eapply Hkilled, H|].
  destruct (godotPath env) as [[|c godot]|]; try (intros H _; eapply Hkilled, H).
  intros [= <- _ _] Hfailed. discriminate Hfailed.
Qed.

Lemma handleRunProject_failure_keeps_slot_witness :
  let st := (handleRunProject demoEnv [("project_path", VStr "demo")] initial).1.2 in
  activeProcess (handleRunProject demoEnv [("project_path", VStr "../demo")] st).1.2
  = Some 0%nat.
Proof.
  intros st.
  destruct (handleRunProject demoEnv [("project_path", VStr "../demo")] st)
    as [[reply st'] acts] eqn:Hrun.
  destruct (handleRunProject_failure_keeps_slot demoEnv _ st st' reply acts Hrun)
    as (Hslot & _).
  - injection Hrun as <- _ _. reflexivity.
  - simpl. rewrite Hslot. reflexivity.
Defined.

(** X4: [handleRunProject] never asks the path manager to detect a path:
    with no path resolved, a run on a valid project kills the process in
    the slot, starts nothing and answers with an error, and the slot keeps
    naming the process it has just killed. *)
Theorem handleRunProject_without_path_kills (env : Env) (args : Obj Value)
    (st : State) (path : string) (pid : nat) :
  obj_own (normalizeArgs args) "projectPath" = Some (VStr path) ->
  ProjectUtils.validatePath path = true ->
  projectMarker env path = true ->
  Command.unset (godotPath env) = true ->
  activeProcess st = Some pid ->
  exists e,
    handleRunProject env args st
    = (Replied (runFailure env e),
       {| activeProcess := Some pid;
          processes := alter setKilled pid (processes st) |},
       [Kill pid]).
Proof.
  intros Hpath Hvalid Hmarker Hunset Hactive.
  unfold handleRunProject. rewrite Hpath.
  assert (truthy (VStr path) = true) as Htruthy.
  { destruct path; [discriminate Hvalid | reflexivity]. }
  rewrite Htruthy. cbn [negb].
  unfold validatePathDyn at 1. rewrite Htruthy. cbn [negb].
  rewrite Hvalid, Hmarker. cbn [negb].
  unfold killActive. rewrite Hactive.
  match goal with
  | |- context [match ?a with inl _ => _ | inr _ => _ end] => destruct a as [e|cmdArgs]
  end.
  - exists e. reflexivity.
  - destruct (godotPath env) as [[|c godot]|]; [|discriminate Hunset|].
    + exists (SpawnFileInvalid (Some "")). reflexivity.
    + exists (SpawnFileInvalid None). reflexivity.
Qed.

Lemma handleRunProject_without_path_kills_witness :
  let st := (handleRunProject demoEnv [("project_path", VStr "first")] initial).1.2 in
  exists e,
    handleRunProject Samples.pathlessEnv [("project_path", VStr "second")] st
    = (Replied (runFailure Samples.pathlessEnv e),
       {| activeProcess := Some 0%nat;
          processes := alter setKilled 0%nat (processes st) |},
       [Kill 0%nat]).
Proof.
  intros st.
  apply (handleRunProject_without_path_kills Samples.pathlessEnv
           [("project_path", VStr "second")] st "second" 0%nat); reflexivity.
Defined.


Lemma filter_empty {A} (f : A -> bool) (l : list A) x :
  List.filter f l = [] -> In x l -> f x = false.
Proof.
  intros Hnil Hin. destruct (f x) eqn:Hfx; [|reflexivity].
  assert (In x (List.filter f l)) as H by (apply filter_In; auto).
  rewrite Hnil in H. destruct H.
Qed.

(** X5: the generic handler reaches the executor only past its three
    checks: every required parameter reads as a truthy value, every own
    string argument whose key has [path] in it, in whatever case, is free
    of two dots and not empty, and a project path that is a string names
    a directory with a project file. *)
Theorem handleOperationTool_calls_only_validated
    (JSON_parse : string -> option Value) (env : Env) (toolName operation : string)
    (args : Obj Value) (requiredParams : list string) (options : OperationToolOptions) :
  calls (handleOperationTool JSON_parse env toolName operation args requiredParams options)
  <> [] ->
  let normalized := normalizeArgs args in
  (forall param, In param requiredParams ->
                 readTruthy (obj_read normalized param) = true) /\
  (forall key value,
     In key (keys normalized) ->
     JSString.includes "path" (JSString.toLowerCase key) = true ->
     obj_read normalized key = Own (VStr value) ->
     ProjectUtils.validatePath value = true) /\
  (forall path, obj_own normalized "projectPath" = Some (VStr path) ->
                path <> "" -> projectMarker env path = true).
Proof.
  intros Hcalls normalized. unfold handleOperationTool in Hcalls.
  fold normalized in Hcalls.
  destruct (missingParams normalized requiredParams) eqn:Hmissing;
    [|now contradiction Hcalls].
  destruct (invalidPaths normalized) eqn:Hinvalid; [|now contradiction Hcalls].
  split; [|split].
  - intros param Hin. apply negb_false_iff.
    exact (filter_empty _ _ param Hmissing Hin).
  - intros key value Hkey Hpath Hread.
    assert (In key (List.filter
                      (fun param => JSString.includes "path" (JSString.toLowerCase param))
                      (keys normalized))) as Hin by (apply filter_In; auto).
    pose proof (filter_empty _ _ key Hinvalid Hin) as H. cbv beta in H.
    rewrite Hread in H. now apply negb_false_iff.
  - intros path Hown Hne. rewrite Hown in Hcalls.
    assert (truthy (VStr path) = true) as Htruthy by (now destruct path).
    rewrite Htruthy in Hcalls.
    destruct (projectMarker env path); [reflexivity | now contradiction Hcalls].
Qed.

Lemma handleOperationTool_calls_only_validated_witness :
  ProjectUtils.validatePath "main.tscn" = true.
Proof.
  refine (proj1 (proj2 (handleOperationTool_calls_only_validated demoParse demoEnv
            "save scene" "save_scene"
            [("project_path", VStr "demo"); ("scene_path", VStr "main.tscn")]
            ["projectPath"; "scenePath"] noOptions _))
            "scenePath" "main.tscn" _ _ _).
  - discriminate.
  - right. left. reflexivity.
  - reflexivity.
  - reflexivity.
Defined.

Section MoreQuoting.

Import Command Posix.

Lemma replaceChars_absent a r s :
  JSString.includes (String a EmptyString) s = false ->
  JSString.replaceChars (Ascii.eqb a) r s = s.
Proof.
  induction s as [|c s IH]; [reflexivity|].
  rewrite includes_char_cons. intros H. apply orb_false_elim in H as [Hc Hs].
  rewrite replaceChars_other by exact Hc. now rewrite IH.
Qed.

Lemma unquote_quoted_plain s :
  JSString.includes "'" s = false ->
  unquote SingleQuoted (s +:+ "'") = Some s.
Proof.
  induction s as [|c s IH]; [reflexivity|].
  rewrite includes_char_cons. intros H. apply orb_false_elim in H as [Hc Hs].
  rewrite append_cons, unquote_quoted_literal.
  - now rewrite IH.
  - intros ->. discriminate Hc.
Qed.

End MoreQuoting.

(** X6: on every host but Windows, a JSON text without a single quote is
    put between single quotes unchanged, and the shell makes of the token
    the JSON text itself. *)
Theorem quotedParams_plain_roundtrip (paramsJson : string) :
  JSString.includes "'" paramsJson = false ->
  Command.quotedParams false paramsJson = "'" +:+ paramsJson +:+ "'" /\
  Posix.shellWord (Command.quotedParams false paramsJson) = Some paramsJson.
Proof.
  intros Hplain. unfold Command.quotedParams, Command.escapedParams.
  rewrite replaceChars_absent by exact Hplain.
  split; [reflexivity|].
  unfold Posix.shellWord. rewrite append_cons, unquote_open.
  change (EmptyString +:+ ?x) with x. now apply unquote_quoted_plain.
Qed.

Lemma quotedParams_plain_roundtrip_witness :
  let json := stringify (VObj (convertCamelToSnakeCase [("nodeName", VStr "Player")])) in
  Posix.shellWord (Command.quotedParams false json) = Some json.
Proof.
  intros json. apply (quotedParams_plain_roundtrip json). reflexivity.
Defined.

(** X7: one operation runs at most one command, and asks for a
    detection only when no path is set; when the detection throws or
    finds nothing, no command is run and the operation throws. *)
Theorem executeOperation_runs_one_command (host : Command.Host)
    (script operation : string) (params : Obj Value) (projectPath : string)
    (pathManager : Command.PathManager) :
  let '(outcome, effects) :=
    Command.executeOperation host script operation params projectPath pathManager in
  let cmd := Command.commandLine host script (Command.getPath pathManager)
               projectPath operation (convertCamelToSnakeCase params) in
  let unset := Command.unset (Command.getPath pathManager) in
  let detected := Command.detectGodotPath pathManager in
  (effects = [Command.Exec cmd] /\ unset = false) \/
  (effects = [Command.Detect; Command.Exec cmd] /\ unset = true /\
   exists found, detected = Some found /\ Command.unset found = false) \/
  (effects = [Command.Detect] /\ unset = true /\
   (detected = None \/
    exists found, detected = Some found /\ Command.unset found = true) /\
   exists message, outcome = Command.Thrown message).
Proof.
  unfold Command.executeOperation.
  destruct (Command.unset (Command.getPath pathManager)) eqn:Hunset.
  - destruct (Command.detectGodotPath pathManager) as [found|] eqn:Hdetect.
    + destruct (Command.unset found) eqn:Hfound.
      * right. right. split; [reflexivity|]. split; [reflexivity|].
        split; [right; eauto | eauto].
      * right. left. split; [reflexivity|]. split; [reflexivity|]. eauto.
    + right. right. split; [reflexivity|]. split; [reflexivity|].
      split; [now left | eauto].
  - left. split; reflexivity.
Qed.

(** X8: when no path is set on entry and the detection finds one, the
    command that is run does not start with the path found: the path was
    read before the detection, and the command starts with the word
    [null] between double quotes. *)
Theorem executeOperation_ignores_detected_path (host : Command.Host) (script operation : string)
    (params : Obj Value) (projectPath : string) (pathManager : Command.PathManager)
    (found : string) :
  Command.getPath pathManager = None ->
  Command.detectGodotPath pathManager = Some (Some found) ->
  found <> "" ->
  exists rest,
    (Command.executeOperation host script operation params projectPath pathManager).2
    = [Command.Detect;
       Command.Exec (inQuotes "null" +:+ " --headless --path " +:+ rest)].
Proof.
  intros Hpath Hdetect Hfound. unfold Command.executeOperation.
  rewrite Hpath, Hdetect. cbn [Command.unset].
  destruct (String.eqb_spec found ""); [contradiction|].
  unfold Command.commandLine.
  eexists. cbn [snd app]. do 2 f_equal.
Qed.

Lemma executeOperation_ignores_detected_path_witness :
  exists rest,
    (Command.executeOperation posixHost "ops.gd" "save_scene" [] "demo"
       Samples.godotDetected).2
    = [Command.Detect;
       Command.Exec (inQuotes "null" +:+ " --headless --path " +:+ rest)].
Proof.
  apply (executeOperation_ignores_detected_path posixHost "ops.gd" "save_scene" []
           "demo" Samples.godotDetected "/usr/bin/godot");
    [reflexivity | reflexivity | discriminate].
Defined.


(** ** The enumeration order of an object *)

Section Numerals.

Implicit Types (s t : string) (acc n : N).

Lemma digitsValue_bounds s : forall acc n,
  digitsValue acc s = Some n ->
  (acc * 10 ^ N.of_nat (String.length s) <= n
   < (acc + 1) * 10 ^ N.of_nat (String.length s))%N.
Proof.
  induction s as [|c s IH]; intros acc n; cbn [digitsValue String.length].
  - intros [= <-]. change (N.of_nat 0) with 0%N. rewrite N.pow_0_r. lia.
  - destruct (isDigit c) eqn:Hc; [|discriminate].
    intros H. apply IH in H.
    unfold isDigit in Hc. apply andb_prop in Hc as [Hlo Hhi].
    apply Nat.leb_le in Hlo, Hhi.
    rewrite Nat2N.inj_succ, N.pow_succ_r'.
    set (p := (10 ^ N.of_nat (String.length s))%N) in *.
    set (d := N.of_nat (nat_of_ascii c - 48)) in *.
    assert (d <= 9)%N by (subst d; lia).
    nia.
Qed.

Lemma digit_inj c d :
  isDigit c = true -> isDigit d = true ->
  N.of_nat (nat_of_ascii c - 48) = N.of_nat (nat_of_ascii d - 48) -> c = d.
Proof.
  unfold isDigit. intros Hc Hd H.
  apply andb_prop in Hc as [Hc _]. apply andb_prop in Hd as [Hd _].
  apply Nat.leb_le in Hc, Hd.
  rewrite <- (ascii_nat_embedding c), <- (ascii_nat_embedding d).
  f_equal. lia.
Qed.

Lemma digitsValue_inj s : forall t acc n,
  String.length s = String.length t ->
  digitsValue acc s = Some n -> digitsValue acc t = Some n -> s = t.
Proof.
  induction s as [|c s IH]; intros [|d t] acc n Hlen; try discriminate;
    [reflexivity|].
  cbn [digitsValue String.length] in *.
  destruct (isDigit c) eqn:Hc; [|discriminate].
  destruct (isDigit d) eqn:Hd; [|discriminate].
  intros Hs Ht. injection Hlen as Hlen.
  pose proof (digitsValue_bounds _ _ _ Hs) as Bs.
  pose proof (digitsValue_bounds _ _ _ Ht) as Bt.
  rewrite <- Hlen in Bt.
  set (p := (10 ^ N.of_nat (String.length s))%N) in *.
  assert (0 < p)%N as Hp by (subst p; apply N.neq_0_lt_0, N.pow_nonzero; lia).
  assert (N.of_nat (nat_of_ascii c - 48) = N.of_nat (nat_of_ascii d - 48)) as Heq by nia.
  rewrite (digit_inj c d Hc Hd Heq) in *.
  f_equal. eapply IH; eauto.
Qed.

(** A numeral that does not start with a zero is at least the power of
    ten of its length. *)
Lemma digitsValue_lower c s n :
  digitsValue 0 (String c s) = Some n -> c <> "0"%char ->
  (10 ^ N.of_nat (String.length s) <= n)%N.
Proof.
  cbn [digitsValue]. destruct (isDigit c) eqn:Hc; [|discriminate].
  intros H Hzero. apply digitsValue_bounds in H.
  assert (1 <= N.of_nat (nat_of_ascii c - 48))%N.
  { destruct (Nat.eq_dec (nat_of_ascii c) 48) as [E|E].
    - exfalso. apply Hzero. rewrite <- (ascii_nat_embedding c), E. reflexivity.
    - unfold isDigit in Hc. apply andb_prop in Hc as [Hlo _].
      apply Nat.leb_le in Hlo. lia. }
  nia.
Qed.

Lemma arrayIndex_spec k n :
  arrayIndex k = Some n ->
  digitsValue 0 k = Some n /\
  exists c rest, k = String c rest /\ (c = "0"%char -> rest = "").
Proof.
  unfold arrayIndex. destruct k as [|c rest]; [discriminate|].
  destruct (Ascii.eqb_spec c "0"%char) as [->|Hc].
  - destruct (String.eqb_spec rest "") as [->|Hrest]; cbn [andb negb].
    + intros H. split; [|eauto].
      destruct (digitsValue 0 "0") as [m|]; [|discriminate].
      destruct (m <? 4294967295)%N; [congruence | discriminate].
    + discriminate.
  - cbn [andb]. intros H. split; [|exists c, rest; split; [reflexivity | tauto]].
    destruct (digitsValue 0 (String c rest)) as [m|]; [|discriminate].
    destruct (m <? 4294967295)%N; [congruence | discriminate].
Qed.

(** An integer has one canonical numeral. *)
Lemma arrayIndex_inj k k' n :
  arrayIndex k = Some n -> arrayIndex k' = Some n -> k = k'.
Proof.
  intros H H'.
  apply arrayIndex_spec in H as (Hv & c & s & -> & Hc).
  apply arrayIndex_spec in H' as (Hv' & c' & s' & -> & Hc').
  destruct (Nat.eq_dec (String.length s) (String.length s')) as [Hlen|Hlen].
  - eapply digitsValue_inj; eauto. cbn [String.length]. now rewrite Hlen.
  - exfalso.
    pose proof (digitsValue_bounds _ _ _ Hv) as B.
    pose proof (digitsValue_bounds _ _ _ Hv') as B'.
    cbn [String.length] in B, B'.
    rewrite Nat2N.inj_succ, N.pow_succ_r' in B, B'.
    assert (forall a b : nat, (a < b)%nat ->
              (10 * 10 ^ N.of_nat a <= 10 ^ N.of_nat b)%N) as Hpow.
    { intros a b Hab. rewrite <- N.pow_succ_r', <- Nat2N.inj_succ.
      apply N.pow_le_mono_r; lia. }
    destruct (Nat.lt_ge_cases (String.length s) (String.length s')) as [Hlt|Hge].
    + assert (c' <> "0"%char) as Hz.
      { intros E. specialize (Hc' E). subst s'. cbn [String.length] in Hlt. lia. }
      pose proof (digitsValue_lower _ _ _ Hv' Hz).
      specialize (Hpow _ _ Hlt). lia.
    + assert (String.length s' < String.length s)%nat as Hlt by lia.
      assert (c <> "0"%char) as Hz.
      { intros E. specialize (Hc E). subst s. cbn [String.length] in Hlt. lia. }
      pose proof (digitsValue_lower _ _ _ Hv Hz).
      specialize (Hpow _ _ Hlt). lia.
Qed.

End Numerals.

Section Order.

Import ObjectOrder.

Context {A : Type}.
Implicit Types (o : Obj A) (k : string) (v : A).

Lemma ordered_snoc_other ks k :
  ordered ks -> arrayIndex k = None -> ordered (ks ++ [k]).
Proof.
  intros Hord Hk. induction ks as [|k0 ks IH]; cbn [ordered app] in *.
  - rewrite Hk. split; [exact I | intros ? []].
  - destruct Hord as [Hrest Hhead]. split; [now apply IH|].
    destruct (arrayIndex k0) as [n|].
    + intros k' m Hin Hm. apply in_app_or in Hin as [Hin|[<-|[]]];
        [eauto | congruence].
    + intros k' Hin. apply in_app_or in Hin as [Hin|[<-|[]]]; auto.
Qed.

Lemma ordered_insert_index n o k v :
  arrayIndex k = Some n -> ~ In k (keys o) -> ordered (keys o) ->
  ordered (keys (obj_insert_index n k v o)).
Proof.
  intros Hk. induction o as [|[k0 v0] o IH]; intros Hfresh Hord.
  - cbn. rewrite Hk. split; [exact I | intros ? ? []].
  - cbn [obj_insert_index]. cbn [keys map fst ordered] in Hord, Hfresh.
    destruct Hord as [Hrest Hhead].
    destruct (arrayIndex k0) as [m|] eqn:Hk0.
    + destruct (N.ltb_spec m n) as [Hlt|Hge].
      * cbn [keys map fst ordered]. split.
        -- apply IH; [intros Hin; apply Hfresh; now right | exact Hrest].
        -- rewrite Hk0. intros k' m' Hin Hm'.
           apply keys_insert_index in Hin as [->|Hin]; [|eauto].
           congruence.
      * cbn [keys map fst ordered]. split; [split; [exact Hrest|]|].
        -- now rewrite Hk0.
        -- rewrite Hk. intros k' m' [<-|Hin] Hm'.
           ++ assert (m' = m) as -> by congruence.
              assert (m <> n); [|lia].
              intros ->. apply Hfresh. left. eapply arrayIndex_inj; eauto.
           ++ specialize (Hhead k' m' Hin Hm'). lia.
    + cbn [keys map fst ordered]. split; [split; [exact Hrest|]|].
      * now rewrite Hk0.
      * rewrite Hk. intros k' m' [<-|Hin] Hm'; [congruence|].
        rewrite (Hhead k' Hin) in Hm'. discriminate.
Qed.

Lemma canonical_nil : canonical (@nil (string * A)).
Proof. repeat split; [constructor | intros []]. Qed.

(** An assignment keeps an object in enumeration order. *)
Lemma canonical_obj_set o k v : canonical o -> canonical (obj_set o k v).
Proof.
  intros (Hnd & Hproto & Hord). split; [now apply NoDup_obj_set|].
  unfold obj_set.
  destruct (String.eqb_spec k "__proto__") as [->|Hk]; [now split|].
  destruct (obj_own o k) eqn:Hown.
  - rewrite keys_update. now split.
  - apply obj_own_None in Hown.
    destruct (arrayIndex k) as [n|] eqn:Hidx.
    + split.
      * rewrite keys_insert_index. intros [E|Hin]; [congruence | contradiction].
      * now apply ordered_insert_index.
    + unfold keys in *. rewrite map_app. cbn [map fst]. split.
      * intros Hin. apply in_app_or in Hin as [Hin|[E|[]]];
          [contradiction | congruence].
      * now apply ordered_snoc_other.
Qed.

(** The keys before an array index are array indices below it. *)
Lemma ordered_before_index ks k n :
  ordered (ks ++ [k]) -> arrayIndex k = Some n ->
  forall k', In k' ks -> exists m, arrayIndex k' = Some m /\ (m < n)%N.
Proof.
  intros Hord Hk. induction ks as [|k0 ks IH]; [intros ? []|].
  cbn [app ordered] in Hord. destruct Hord as [Hrest Hhead].
  intros k' [<-|Hin]; [|now apply IH].
  destruct (arrayIndex k0) as [m|].
  - exists m. split; [reflexivity|].
    apply (Hhead k n); [apply in_or_app; right; now left | exact Hk].
  - rewrite Hhead in Hk; [discriminate|]. apply in_or_app. right. now left.
Qed.

Lemma ordered_init ks k : ordered (ks ++ [k]) -> ordered ks.
Proof.
  induction ks as [|k0 ks IH]; [intros _; exact I|].
  cbn [app ordered]. intros [Hrest Hhead]. split; [now apply IH|].
  destruct (arrayIndex k0).
  - intros k' m Hin. apply Hhead. apply in_or_app. now left.
  - intros k' Hin. apply Hhead. apply in_or_app. now left.
Qed.

Lemma obj_insert_index_last n o k v :
  (forall k', In k' (keys o) -> exists m, arrayIndex k' = Some m /\ (m < n)%N) ->
  obj_insert_index n k v o = o ++ [(k, v)].
Proof.
  induction o as [|[k0 v0] o IH]; intros H; [reflexivity|].
  cbn [obj_insert_index app].
  destruct (H k0) as (m & -> & Hlt); [now left|].
  destruct (N.ltb_spec m n); [|lia].
  f_equal. apply IH. intros k' Hin. apply H. now right.
Qed.

(** Assigning the last property of an object in enumeration order to the
    object made of the properties before it puts it last again. *)
Lemma obj_set_last o k v :
  canonical (o ++ [(k, v)]) -> obj_set o k v = o ++ [(k, v)].
Proof.
  intros (Hnd & Hproto & Hord). unfold keys in *.
  rewrite map_app in *. cbn [map fst] in *.
  assert (~ In k (map fst o)) as Hfresh.
  { apply List.NoDup_remove_2 in Hnd. now rewrite app_nil_r in Hnd. }
  unfold obj_set.
  destruct (String.eqb_spec k "__proto__") as [->|Hk].
  { exfalso. apply Hproto. apply in_or_app. right. now left. }
  rewrite (proj2 (obj_own_None o k) Hfresh).
  destruct (arrayIndex k) as [n|] eqn:Hidx; [|reflexivity].
  apply obj_insert_index_last. now apply ordered_before_index with (k := k).
Qed.

Lemma canonical_init o k v : canonical (o ++ [(k, v)]) -> canonical o.
Proof.
  intros (Hnd & Hproto & Hord). unfold canonical, keys in *.
  rewrite map_app in *. cbn [map fst] in *.
  split; [|split].
  - apply List.NoDup_remove_1 in Hnd. now rewrite app_nil_r in Hnd.
  - intros Hin. apply Hproto. apply in_or_app. now left.
  - now apply ordered_init with (k := k).
Qed.

End Order.

Section Rebuild.

Import ObjectOrder.

Context {A : Type} (K : string -> string) (V : A -> A).
Context (step : Obj A -> string * A -> Obj A).
Hypothesis step_spec :
  forall result key value, step result (key, value) = obj_set result (K key) (V value).

(** The loop keeps its result in enumeration order. *)
Lemma fold_canonical entries : forall acc,
  canonical acc -> canonical (fold_left step entries acc).
Proof.
  induction entries as [|[key value] entries IH]; intros acc Hacc; [exact Hacc|].
  cbn [fold_left]. apply IH. rewrite step_spec. now apply canonical_obj_set.
Qed.

(** A loop that stores each property of an object in enumeration order
    under its own key and with its own value builds the object again. *)
Lemma fold_rebuild (o : Obj A) :
  canonical o ->
  (forall k v, In (k, v) o -> K k = k /\ V v = v) ->
  fold_left step o [] = o.
Proof.
  induction o as [|[k v] o IH] using rev_ind; intros Hcan Hfix; [reflexivity|].
  rewrite fold_left_app. cbn [fold_left].
  rewrite IH.
  - rewrite step_spec.
    destruct (Hfix k v) as [-> ->]; [apply in_or_app; right; now left|].
    now apply obj_set_last.
  - now apply canonical_init in Hcan.
  - intros k' v' Hin. apply Hfix. apply in_or_app. now left.
Qed.

Lemma In_obj_update (o : Obj A) k v k' v' :
  In (k', v') (obj_update o k v) -> In (k', v') o \/ (k' = k /\ v' = v).
Proof.
  induction o as [|[k0 v0] o IH]; cbn [obj_update]; [tauto|].
  destruct (String.eqb_spec k0 k) as [->|Hne].
  - intros [[= <- <-]|Hin]; [now right | left; now right].
  - intros [E|Hin]; [left; now left|].
    destruct (IH Hin); [left; now right | now right].
Qed.

Lemma In_obj_insert_index n (o : Obj A) k v k' v' :
  In (k', v') (obj_insert_index n k v o) -> In (k', v') o \/ (k' = k /\ v' = v).
Proof.
  induction o as [|[k0 v0] o IH]; cbn [obj_insert_index].
  - intros [[= <- <-]|[]]. now right.
  - destruct (arrayIndex k0) as [m|]; [destruct (m <? n)%N|].
    + intros [E|Hin]; [left; now left|].
      destruct (IH Hin); [left; now right | now right].
    + intros [[= <- <-]|Hin]; [now right | now left].
    + intros [[= <- <-]|Hin]; [now right | now left].
Qed.

Lemma In_obj_set (o : Obj A) k v k' v' :
  In (k', v') (obj_set o k v) -> In (k', v') o \/ (k' = k /\ v' = v).
Proof.
  unfold obj_set. destruct (String.eqb k "__proto__"); [now left|].
  destruct (obj_own o k); [apply In_obj_update|].
  destruct (arrayIndex k); [apply In_obj_insert_index|].
  intros Hin. apply in_app_or in Hin as [Hin|[[= <- <-]|[]]]; [now left | now right].
Qed.

(** Every property of the result was there before the loop or was stored
    by it. *)
Lemma fold_In entries : forall acc k v,
  In (k, v) (fold_left step entries acc) ->
  In (k, v) acc \/ exists key value, In (key, value) entries /\ k = K key /\ v = V value.
Proof.
  induction entries as [|[key value] entries IH]; intros acc k v; [now left|].
  cbn [fold_left]. intros Hin. apply IH in Hin as [Hin|(key' & value' & Hin & E)].
  - rewrite step_spec in Hin. apply In_obj_set in Hin as [Hin|[-> ->]]; [now left|].
    right. exists key, value. split; [now left | auto].
  - right. exists key', value'. split; [now right | exact E].
Qed.

End Rebuild.


(** ** Normalizing twice *)

Section Idempotence.

Import ObjectOrder.

Lemma normalizedKey_cases k :
  normalizedKey k = k \/
  In (normalizedKey k) (map snd PARAMETER_MAPPINGS) \/
  exists name, In name objectPrototypeMembers /\
               normalizedKey k = inheritedKeyString name.
Proof.
  unfold normalizedKey. destruct (JSString.includes "_" k); [|now left].
  unfold obj_read. destruct (obj_own PARAMETER_MAPPINGS k) as [camel|] eqn:Hown.
  - destruct (String.eqb camel ""); [now left|].
    right. left. apply obj_own_In in Hown.
    change camel with (snd (k, camel)). now apply in_map.
  - destruct (isPrototypeMember k) eqn:Hmember; [|now left].
    right. right. exists k. split; [|reflexivity].
    unfold isPrototypeMember in Hmember.
    apply existsb_exists in Hmember as (name & Hin & Heq).
    apply String.eqb_eq in Heq. now subst.
Qed.

Lemma normalizedKey_fixes_camel :
  Forall (fun camel => normalizedKey camel = camel) (map snd PARAMETER_MAPPINGS).
Proof. repeat constructor. Qed.

Lemma normalizedKey_fixes_inherited :
  Forall (fun name => normalizedKey (inheritedKeyString name) = inheritedKeyString name)
         objectPrototypeMembers.
Proof. repeat constructor. Qed.

(** The key an entry is stored under is stored under itself. *)
Lemma normalizedKey_idem k : normalizedKey (normalizedKey k) = normalizedKey k.
Proof.
  destruct (normalizedKey_cases k) as [E|[Hin|(name & Hin & E)]].
  - now rewrite !E.
  - exact (proj1 (List.Forall_forall _ _) normalizedKey_fixes_camel _ Hin).
  - rewrite E.
    exact (proj1 (List.Forall_forall _ _) normalizedKey_fixes_inherited _ Hin).
Qed.

Lemma normalizeArgs_canonical args : canonical (normalizeArgs args).
Proof.
  unfold normalizeArgs.
  apply (fold_canonical normalizedKey (nested normalizeParameters) _
           (normalizeStep_spec normalizeParameters)).
  apply canonical_nil.
Qed.

(** The loop over an array is the loop over its index keys. *)
Lemma normalizeParameters_arr elems :
  normalizeParameters (VArr elems) = VObj (normalizeArgs (indexEntries 0 elems)).
Proof.
  cbn [normalizeParameters]. f_equal. unfold normalizeArgs.
  generalize (@nil (string * Value)). generalize 0%nat.
  induction elems as [|value elems IH]; intros i result; [reflexivity|].
  cbn [indexEntries fold_left]. rewrite IH. reflexivity.
Qed.

Lemma nested_normalize_idem v :
  nested normalizeParameters (nested normalizeParameters v)
  = nested normalizeParameters v.
Proof.
  induction v as [| b | n | s | elems _ | props IH] using Value_ind;
    try reflexivity.
  cbn [nested]. rewrite normalizeParameters_obj. cbn [nested].
  rewrite normalizeParameters_obj. f_equal.
  unfold normalizeArgs at 1.
  apply (fold_rebuild normalizedKey (nested normalizeParameters) _
           (normalizeStep_spec normalizeParameters)).
  - apply normalizeArgs_canonical.
  - intros k y Hin. unfold normalizeArgs in Hin.
    apply (fold_In normalizedKey (nested normalizeParameters) _
             (normalizeStep_spec normalizeParameters)) in Hin
      as [[]|(key & value & Hin & -> & ->)].
    split; [apply normalizedKey_idem|].
    exact (proj1 (List.Forall_forall _ _) IH _ Hin).
Qed.

Lemma normalizeArgs_idem args : normalizeArgs (normalizeArgs args) = normalizeArgs args.
Proof.
  pose proof (nested_normalize_idem (VObj args)) as H.
  cbn [nested] in H. rewrite normalizeParameters_obj in H. cbn [nested] in H.
  rewrite normalizeParameters_obj in H. now injection H.
Qed.

End Idempotence.

(** X9: normalizing is idempotent, on every value: what
    [normalizeParameters] returns, it returns unchanged; and the map it
    makes of an argument map has no key twice, no own [__proto__], and its
    keys in enumeration order. *)
Theorem normalizeParameters_idempotent (params : Value) (args : Obj Value) :
  normalizeParameters (normalizeParameters params) = normalizeParameters params /\
  normalizeArgs (normalizeArgs args) = normalizeArgs args /\
  ObjectOrder.canonical (normalizeArgs args).
Proof.
  split; [|split; [apply normalizeArgs_idem | apply normalizeArgs_canonical]].
  destruct params as [| b | n | s | elems | props]; try reflexivity.
  - rewrite normalizeParameters_arr, normalizeParameters_obj.
    now rewrite normalizeArgs_idem.
  - rewrite !normalizeParameters_obj. now rewrite normalizeArgs_idem.
Qed.


(** ** From camelCase to snake_case and back *)

Lemma camel_names_facts :
  Forall (fun camel =>
            normalizedKey (snakeKey camel) = camel /\
            snakeKey camel <> "__proto__" /\ arrayIndex (snakeKey camel) = None /\
            camel <> "__proto__" /\ arrayIndex camel = None)
         (map snd PARAMETER_MAPPINGS).
Proof.
  unfold PARAMETER_MAPPINGS. cbn [map snd].
  repeat (apply List.Forall_cons;
          [vm_compute; repeat split; (reflexivity || discriminate)|]).
  apply List.Forall_nil.
Qed.

Lemma camel_name camel :
  In camel (map snd PARAMETER_MAPPINGS) ->
  normalizedKey (snakeKey camel) = camel /\
  snakeKey camel <> "__proto__" /\ arrayIndex (snakeKey camel) = None /\
  camel <> "__proto__" /\ arrayIndex camel = None.
Proof.
  intros H. exact (proj1 (List.Forall_forall _ _) camel_names_facts camel H).
Qed.

Lemma camel_names_NoDup (props : Obj Value) :
  (forall k, In k (keys props) -> In k (map snd PARAMETER_MAPPINGS)) ->
  List.NoDup (keys props) ->
  List.NoDup (map (fun e : string * Value => snakeKey e.1) props).
Proof.
  intros Hcamel Hnd.
  apply (NoDup_map_inv normalizedKey). rewrite map_map.
  erewrite map_ext_in; [exact Hnd|].
  intros [k x] Hin. simpl. apply camel_name, Hcamel.
  change k with (fst (k, x)). now apply in_map.
Qed.

Lemma allKeysCamel_forall props :
  Names.allKeysCamel (VObj props) <->
  Forall (fun kv => In kv.1 (map snd PARAMETER_MAPPINGS) /\ Names.allKeysCamel kv.2) props.
Proof.
  cbn [Names.allKeysCamel]. split.
  - induction props as [|kv props IH]; cbn [fold_right]; constructor; tauto.
  - induction 1; cbn [fold_right]; tauto.
Qed.

Lemma nested_roundtrip_back v :
  wf v -> Names.allKeysCamel v ->
  nested normalizeParameters (nested convertValue v) = v.
Proof.
  induction v as [| b | n | s | elems _ | props IH] using Value_ind;
    intros Hwf Hcamel; try reflexivity.
  apply wf_obj_forall in Hwf as [Hnd Hwf].
  apply allKeysCamel_forall in Hcamel.
  assert (forall k, In k (keys props) -> In k (map snd PARAMETER_MAPPINGS)) as Hkeys.
  { intros k Hin. apply in_map_iff in Hin as ([k' x] & <- & Hin).
    exact (proj1 (proj1 (List.Forall_forall _ _) Hcamel _ Hin)). }
  cbn [nested]. rewrite convertValue_obj. cbn [nested].
  rewrite normalizeParameters_obj. f_equal.
  unfold convertCamelToSnakeCase.
  rewrite (fold_append snakeKey (nested convertValue)
             _ (convertStep_spec convertValue)).
  2:{ intros k x Hin.
      destruct (camel_name k) as (_ & ? & ? & _); [|auto].
      apply Hkeys. change k with (fst (k, x)). now apply in_map. }
  2:{ cbn [keys map app]. now apply camel_names_NoDup. }
  cbn [app]. unfold normalizeArgs.
  rewrite (fold_append normalizedKey (nested normalizeParameters)
             _ (normalizeStep_spec normalizeParameters)).
  - cbn [app]. rewrite map_map. cbn [fst snd].
    rewrite <- (map_id props) at 2. apply map_ext_in.
    intros [k x] Hin. cbn [fst snd]. f_equal.
    + apply camel_name, Hkeys. change k with (fst (k, x)). now apply in_map.
    + apply (proj1 (List.Forall_forall _ _) IH _ Hin).
      * exact (proj1 (List.Forall_forall _ _) Hwf _ Hin).
      * exact (proj2 (proj1 (List.Forall_forall _ _) Hcamel _ Hin)).
  - intros k x Hin. apply (proj1 (in_map_iff _ _ _)) in Hin.
    destruct Hin as ([k' x'] & Heq & Hin). cbn [fst snd] in Heq.
    apply pair_equal_spec in Heq as [Hk _]. subst k.
    destruct (camel_name k') as (-> & _ & _ & ? & ?); [|auto].
    apply Hkeys. change k' with (fst (k', x')). now apply in_map.
  - cbn [keys map app]. rewrite map_map. cbn [fst].
    erewrite map_ext_in; [exact Hnd|].
    intros [k x] Hin. cbn [fst]. apply camel_name, Hkeys.
    change k with (fst (k, x)). now apply in_map.
Qed.

(** X10: the round trip in the direction the server uses it: on a
    parameter map all of whose keys, those of nested maps included, are
    camelCase names of the mapping table, normalizing what
    [convertCamelToSnakeCase] returns gives the map itself. *)
Theorem normalize_convert_roundtrip (p : Obj Value) :
  wf (VObj p) ->
  Names.allKeysCamel (VObj p) ->
  normalizeArgs (convertCamelToSnakeCase p) = p.
Proof.
  intros Hwf Hcamel.
  pose proof (nested_roundtrip_back (VObj p) Hwf Hcamel) as H.
  cbn [nested] in H. rewrite convertValue_obj in H. cbn [nested] in H.
  rewrite normalizeParameters_obj in H. now injection H.
Qed.

Lemma normalize_convert_roundtrip_witness :
  let p := [ ("scenePath", VStr "scenes/main.tscn");
             ("nodeType", VStr "Sprite2D");
             ("meshItemNames", VArr [VStr "a"; VObj [("not_mapped", VNum 1)]]);
             ("directory", VObj [("nodeName", VStr "Player"); ("recursive", VNull)]) ] in
  normalizeArgs (convertCamelToSnakeCase p) = p.
Proof.
  intros p. apply normalize_convert_roundtrip.
  - simpl. repeat split; repeat constructor; simpl; intuition discriminate.
  - simpl. intuition.
Defined.


(** ** The path manager as a whole *)

Section Resolution.

Import GodotPathManager PathResolution.

Implicit Types (world : World) (host : Host) (m : Manager) (path : string).

(** What one validation does to the map, the path and the mode. *)
Lemma validate_spec world path m :
  let '(answer, m', probes) := validate world path m in
  godotPath m' = godotPath m /\
  strictPathValidation m' = strictPathValidation m /\
  validatedPaths m' !! path = Some answer /\
  (forall q b, validatedPaths m !! q = Some b -> validatedPaths m' !! q = Some b) /\
  (forall command, In (ProbeExec command) probes ->
     command = "godot --version" \/
     exists file, command = inQuotes file +:+ " --version" /\
                  existsSync world file = true).
Proof.
  unfold validate, isValidGodotPath.
  destruct (validatedPaths m !! path) as [cached|] eqn:Hcached.
  { cbn. repeat split; auto. intros ? []. }
  assert (forall answer q b,
            validatedPaths m !! q = Some b ->
            <[path := answer]> (validatedPaths m) !! q = Some b) as Hkeep.
  { intros answer q b Hq. rewrite lookup_insert_ne; [exact Hq | congruence]. }
  destruct (String.eqb_spec path "godot") as [->|Hne]; cbn [negb andb].
  - destruct (versionQuerySucceeds world "godot --version"); cbn;
      (split; [reflexivity|]; split; [reflexivity|];
       split; [apply lookup_insert_eq|]; split; [apply Hkeep|]);
      intros command [[= <-]|[]]; now left.
  - destruct (existsSync world path) eqn:Hexists; cbn [negb].
    + destruct (versionQuerySucceeds world _); cbn;
        (split; [reflexivity|]; split; [reflexivity|];
         split; [apply lookup_insert_eq|]; split; [apply Hkeep|]);
        intros command [[=]|[[= <-]|[]]]; right; eauto.
    + cbn. split; [reflexivity|]. split; [reflexivity|].
      split; [apply lookup_insert_eq|]. split; [apply Hkeep|].
      intros command [[=]|[]].
Qed.

Lemma validate_hit world path m :
  validatedPaths m !! path = Some true ->
  validate world path m = (true, m, []).
Proof.
  intros H. unfold validate. rewrite (isValidGodotPath_hit _ _ _ _ H).
  now destruct m.
Qed.

Lemma runsExistingFiles_app world probes probes' :
  runsExistingFiles world probes -> runsExistingFiles world probes' ->
  runsExistingFiles world (probes ++ probes').
Proof.
  intros H H' command Hin. apply in_app_or in Hin as [Hin|Hin]; auto.
Qed.

Lemma runsExistingFiles_nil world : runsExistingFiles world [].
Proof. intros ? []. Qed.

Lemma tryPaths_spec world host paths : forall m,
  let '(found, m', probes) := tryPaths world host paths m in
  godotPath m' = godotPath m /\
  strictPathValidation m' = strictPathValidation m /\
  (forall q b, validatedPaths m !! q = Some b -> validatedPaths m' !! q = Some b) /\
  runsExistingFiles world probes /\
  match found with
  | Some path => validatedPaths m' !! path = Some true /\
                 exists raw, In raw paths /\ path = normalize host raw
  | None => forall raw, In raw paths ->
                        validatedPaths m' !! normalize host raw = Some false
  end.
Proof.
  induction paths as [|raw paths IH]; intros m; cbn [tryPaths].
  - repeat split; auto using runsExistingFiles_nil. intros ? [].
  - pose proof (validate_spec world (normalize host raw) m) as Hv.
    destruct (validate world (normalize host raw) m) as [[valid m1] probes].
    destruct Hv as (Hpath & Hstrict & Hanswer & Hkeep & Hruns).
    destruct valid.
    + repeat split; auto. exists raw. split; [now left | reflexivity].
    + specialize (IH m1).
      destruct (tryPaths world host paths m1) as [[found m2] probes'].
      destruct IH as (Hpath' & Hstrict' & Hkeep' & Hruns' & Hfound).
      split; [congruence|]. split; [congruence|]. split; [auto|].
      split; [now apply runsExistingFiles_app|].
      destruct found as [path|].
      * destruct Hfound as (Hvalid & raw' & Hin & ->).
        split; [exact Hvalid|]. exists raw'. split; [now right | reflexivity].
      * intros raw' [<-|Hin]; auto.
Qed.

Lemma findExisting_spec world candidates :
  runsExistingFiles world (findExisting world candidates).2 /\
  match (findExisting world candidates).1 with
  | Some candidate => In candidate candidates /\ existsSync world candidate = true
  | None => forall candidate, In candidate candidates ->
                              existsSync world candidate = false
  end.
Proof.
  induction candidates as [|candidate rest IH]; cbn [findExisting].
  - split; [apply runsExistingFiles_nil | intros ? []].
  - destruct (existsSync world candidate) eqn:Hexists; cbn [fst snd].
    + split; [intros ? [[=]|[]] | split; [now left | exact Hexists]].
    + destruct (findExisting world rest) as [found probes]. cbn [fst snd] in *.
      destruct IH as [Hruns Hfound]. split.
      * intros command [[=]|Hin]. now apply Hruns.
      * destruct found as [c|]; [split; [now right | tauto]|].
        intros c [<-|Hin]; auto.
Qed.

(** The first step of a detection. *)
Lemma detect_kept_spec world m :
  let '(kept, m0, probes0) :=
    match godotPath m with
    | Some current =>
        if String.eqb current "" then (false, m, []) else validate world current m
    | None => (false, m, [])
    end in
  godotPath m0 = godotPath m /\
  strictPathValidation m0 = strictPathValidation m /\
  (forall q b, validatedPaths m !! q = Some b -> validatedPaths m0 !! q = Some b) /\
  runsExistingFiles world probes0 /\
  (kept = true -> exists current, godotPath m = Some current /\
                                  validatedPaths m0 !! current = Some true).
Proof.
  destruct (godotPath m) as [current|] eqn:Hcurrent.
  - destruct (String.eqb current "").
    + repeat split; auto using runsExistingFiles_nil. discriminate.
    + pose proof (validate_spec world current m) as Hv.
      destruct (validate world current m) as [[valid m0] probes0].
      destruct Hv as (Hpath & Hstrict & Hanswer & Hkeep & Hruns).
      repeat split; auto; try congruence.
      intros ->. exists current. split; [congruence | exact Hanswer].
  - repeat split; auto using runsExistingFiles_nil. discriminate.
Qed.

(** The second step of a detection. *)
Lemma detect_env_spec world host m0 :
  let '(fromEnv, m1, probes1) :=
    match GODOT_PATH host with
    | Some value =>
        if String.eqb value "" then (None, m0, [])
        else
          let normalizedPath := normalize host value in
          let '(valid, m', probes) := validate world normalizedPath m0 in
          (if valid then Some normalizedPath else None, m', probes)
    | None => (None, m0, [])
    end in
  godotPath m1 = godotPath m0 /\
  strictPathValidation m1 = strictPathValidation m0 /\
  (forall q b, validatedPaths m0 !! q = Some b -> validatedPaths m1 !! q = Some b) /\
  runsExistingFiles world probes1 /\
  (forall path, fromEnv = Some path -> validatedPaths m1 !! path = Some true).
Proof.
  destruct (GODOT_PATH host) as [value|].
  - destruct (String.eqb value "").
    + repeat split; auto using runsExistingFiles_nil. discriminate.
    + cbv zeta. pose proof (validate_spec world (normalize host value) m0) as Hv.
      destruct (validate world (normalize host value) m0) as [[valid m1] probes1].
      destruct Hv as (Hpath & Hstrict & Hanswer & Hkeep & Hruns).
      repeat split; auto.
      destruct valid; [intros path [= <-]; exact Hanswer | discriminate].
  - repeat split; auto using runsExistingFiles_nil. discriminate.
Qed.

(** What a detection brings about. *)
Lemma detectGodotPath_spec world host m :
  let d := detectGodotPath world host m in
  strictPathValidation (after d) = strictPathValidation m /\
  (forall q b, validatedPaths m !! q = Some b ->
               validatedPaths (after d) !! q = Some b) /\
  runsExistingFiles world (probes d) /\
  (threw d = true ->
   strictPathValidation m = true /\ godotPath (after d) = godotPath m) /\
  (threw d = false ->
   exists path, godotPath (after d) = Some path /\
                (validatedPaths (after d) !! path = Some true \/
                 (strictPathValidation m = false /\
                  (exists candidate,
                     In candidate ((fallbackCandidates host).1
                                   :: (fallbackCandidates host).2) /\
                     path = normalize host candidate) /\
                  forall raw, In raw (possiblePaths host) ->
                    validatedPaths (after d) !! normalize host raw = Some false))).
Proof.
  unfold detectGodotPath.
  pose proof (detect_kept_spec world m) as H0.
  destruct (match godotPath m with
            | Some current => _
            | None => _
            end) as [[kept m0] probes0].
  destruct H0 as (Hpath0 & Hstrict0 & Hkeep0 & Hruns0 & Hkept).
  destruct kept.
  { cbn. destruct (Hkept eq_refl) as (current & Hcurrent & Hvalid).
    repeat split; auto; try discriminate.
    intros _. exists current. split; [congruence | now left]. }
  pose proof (detect_env_spec world host m0) as H1.
  destruct (match GODOT_PATH host with
            | Some value => _
            | None => _
            end) as [[fromEnv m1] probes1].
  destruct H1 as (Hpath1 & Hstrict1 & Hkeep1 & Hruns1 & Henv).
  destruct fromEnv as [path|].
  { cbn. repeat split; auto; try discriminate; try congruence.
    - now apply runsExistingFiles_app.
    - intros _. exists path. split; [reflexivity | left; now apply Henv]. }
  pose proof (tryPaths_spec world host (possiblePaths host) m1) as H2.
  destruct (tryPaths world host (possiblePaths host) m1) as [[found m2] probes2].
  destruct H2 as (Hpath2 & Hstrict2 & Hkeep2 & Hruns2 & Hfound).
  destruct found as [path|].
  { cbn. destruct Hfound as [Hvalid _].
    repeat split; auto; try discriminate; try congruence.
    - auto using runsExistingFiles_app.
    - intros _. exists path. split; [reflexivity | now left]. }
  destruct (strictPathValidation m2) eqn:Hstrict.
  { cbn. repeat split; auto; try discriminate; try congruence.
    auto using runsExistingFiles_app. }
  destruct (fallbackCandidates host) as [first others].
  pose proof (findExisting_spec world (first :: others)) as [Hruns3 Hexisting].
  destruct (findExisting world (first :: others)) as [existing probes3].
  cbn. cbn [fst snd] in Hruns3, Hexisting.
  repeat split; auto; try discriminate; try congruence.
  - auto using runsExistingFiles_app.
  - intros _. eexists. split; [reflexivity|]. right.
    split; [congruence|]. split; [|exact Hfound].
    destruct existing as [candidate|]; cbn [default].
    + exists candidate. split; [apply Hexisting | reflexivity].
    + exists first. split; [now left | reflexivity].
Qed.

Lemma setGodotPath_spec world host customPath m :
  let '(ok, m', probes) := setGodotPath world host customPath m in
  strictPathValidation m' = strictPathValidation m /\
  (forall q b, validatedPaths m !! q = Some b -> validatedPaths m' !! q = Some b) /\
  runsExistingFiles world probes /\
  (ok = true ->
   customPath <> "" /\
   godotPath m' = Some (normalize host customPath) /\
   validatedPaths m' !! normalize host customPath = Some true) /\
  (ok = false -> godotPath m' = godotPath m) /\
  (customPath = "" -> ok = false /\ m' = m /\ probes = []).
Proof.
  unfold setGodotPath.
  destruct (String.eqb_spec customPath "") as [->|Hne].
  { repeat split; auto using runsExistingFiles_nil; discriminate. }
  pose proof (validate_spec world (normalize host customPath) m) as Hv.
  destruct (validate world (normalize host customPath) m) as [[valid m1] probes].
  destruct Hv as (Hpath & Hstrict & Hanswer & Hkeep & Hruns).
  destruct valid; cbn; repeat split; auto; try discriminate; try contradiction.
Qed.


Lemma serve_spec host m world request :
  strictPathValidation (serve host m (world, request)).1 = strictPathValidation m /\
  (forall q b, validatedPaths m !! q = Some b ->
               validatedPaths (serve host m (world, request)).1 !! q = Some b) /\
  runsExistingFiles world (serve host m (world, request)).2.
Proof.
  destruct request as [path| |customPath]; cbn [serve].
  - pose proof (validate_spec world path m) as H.
    destruct (validate world path m) as [[answer m'] probes].
    cbn [fst snd]. tauto.
  - pose proof (detectGodotPath_spec world host m) as H. cbv zeta in H.
    cbn [fst snd]. tauto.
  - pose proof (setGodotPath_spec world host customPath m) as H.
    destruct (setGodotPath world host customPath m) as [[ok m'] probes].
    cbn [fst snd]. tauto.
Qed.

End Resolution.

(** X11: an entry of the map of validated paths is final: whatever is
    asked of the path manager afterwards, and whatever the world becomes,
    the path keeps the answer it was given, and the manager keeps its
    mode. *)
Theorem validatedPaths_entries_are_final (host : PathResolution.Host)
    (calls : list (GodotPathManager.World * PathResolution.Request))
    (m : PathResolution.Manager) (path : string) (answer : bool) :
  PathResolution.validatedPaths m !! path = Some answer ->
  PathResolution.validatedPaths (PathResolution.serveAll host m calls).1 !! path
  = Some answer /\
  PathResolution.strictPathValidation (PathResolution.serveAll host m calls).1
  = PathResolution.strictPathValidation m.
Proof.
  revert m. induction calls as [|[world request] calls IH]; intros m Hpath.
  - split; [exact Hpath | reflexivity].
  - cbn [PathResolution.serveAll].
    pose proof (serve_spec host m world request) as (Hstrict & Hkeep & _).
    destruct (PathResolution.serve host m (world, request)) as [m1 probes].
    cbn [fst] in Hstrict, Hkeep.
    specialize (IH m1 (Hkeep _ _ Hpath)).
    destruct (PathResolution.serveAll host m1 calls) as [m2 probes'].
    cbn [fst] in *. destruct IH as [IH1 IH2]. split; [exact IH1 | congruence].
Qed.

Lemma validatedPaths_entries_are_final_witness :
  let m := (PathResolution.serveAll Samples.linuxHost (Samples.fresh false)
              [(Samples.noInstall, PathResolution.DetectGodotPath)]).1 in
  PathResolution.validatedPaths m !! "/usr/local/bin/godot" = Some false /\
  PathResolution.validatedPaths
    (PathResolution.serveAll Samples.linuxHost m
       [(Samples.localInstall, PathResolution.IsValidGodotPath "/usr/local/bin/godot");
        (Samples.localInstall, PathResolution.DetectGodotPath)]).1
    !! "/usr/local/bin/godot" = Some false.
Proof.
  intros m.
  assert (PathResolution.validatedPaths m !! "/usr/local/bin/godot" = Some false)
    as Hfalse by (vm_compute; reflexivity).
  split; [exact Hfalse|].
  exact (proj1 (validatedPaths_entries_are_final Samples.linuxHost _ m _ _ Hfalse)).
Defined.

(** X12: whatever is asked of the path manager, a command it runs is a
    version query, of the bare command [godot] or of a file it has seen
    to exist. *)
Theorem serve_runs_existing_files (host : PathResolution.Host)
    (m : PathResolution.Manager) (world : GodotPathManager.World)
    (request : PathResolution.Request) (command : string) :
  In (GodotPathManager.ProbeExec command)
     (PathResolution.serve host m (world, request)).2 ->
  command = "godot --version" \/
  exists file, command = inQuotes file +:+ " --version" /\
               GodotPathManager.existsSync world file = true.
Proof. apply serve_spec. Qed.

Lemma serve_runs_existing_files_witness :
  let command := inQuotes "/usr/local/bin/godot" +:+ " --version" in
  command = "godot --version" \/
  exists file, command = inQuotes file +:+ " --version" /\
               GodotPathManager.existsSync Samples.localInstall file = true.
Proof.
  intros command.
  apply (serve_runs_existing_files Samples.linuxHost (Samples.fresh true)
           Samples.localInstall PathResolution.DetectGodotPath command).
  vm_compute. right. right. right. left. reflexivity.
Defined.

(** X13: a detection throws in strict mode only, and then leaves the
    path as it was; when it returns, a path is set, and in strict mode
    that path is recorded as valid. *)
Theorem detectGodotPath_outcome (world : GodotPathManager.World)
    (host : PathResolution.Host) (m : PathResolution.Manager) :
  let d := PathResolution.detectGodotPath world host m in
  (PathResolution.threw d = true ->
   PathResolution.strictPathValidation m = true /\
   PathResolution.godotPath (PathResolution.after d) = PathResolution.godotPath m) /\
  (PathResolution.threw d = false ->
   exists path,
     PathResolution.godotPath (PathResolution.after d) = Some path /\
     (PathResolution.strictPathValidation m = true ->
      PathResolution.validatedPaths (PathResolution.after d) !! path = Some true)).
Proof.
  intros d. pose proof (detectGodotPath_spec world host m) as H. cbv zeta in H.
  fold d in H. destruct H as (_ & _ & _ & Hthrew & Hreturned).
  split; [exact Hthrew|].
  intros Hd. destruct (Hreturned Hd) as (path & Hpath & Hvalid).
  exists path. split; [exact Hpath|].
  intros Hstrict. destruct Hvalid as [Hvalid|[Hlenient _]]; [exact Hvalid | congruence].
Qed.

(** X14: a path that is set and recorded as valid settles the
    detection: it makes no probe, changes nothing and does not throw,
    whatever the world and the environment have become. *)
Theorem detectGodotPath_settles (world : GodotPathManager.World)
    (host : PathResolution.Host) (m : PathResolution.Manager) (path : string) :
  PathResolution.godotPath m = Some path ->
  path <> "" ->
  PathResolution.validatedPaths m !! path = Some true ->
  PathResolution.detectGodotPath world host m
  = {| PathResolution.after := m; PathResolution.threw := false;
       PathResolution.probes := [] |}.
Proof.
  intros Hpath Hne Hvalid. unfold PathResolution.detectGodotPath.
  rewrite Hpath. destruct (String.eqb_spec path ""); [contradiction|].
  now rewrite (validate_hit world path m Hvalid).
Qed.

Lemma detectGodotPath_settles_witness :
  let d := PathResolution.detectGodotPath Samples.localInstall Samples.linuxHost
             (Samples.fresh true) in
  PathResolution.godotPath (PathResolution.after d) = Some "/usr/local/bin/godot" /\
  PathResolution.detectGodotPath Samples.noInstall Samples.linuxHost
    (PathResolution.after d)
  = {| PathResolution.after := PathResolution.after d;
       PathResolution.threw := false; PathResolution.probes := [] |}.
Proof.
  intros d. split; [vm_compute; reflexivity|].
  apply (detectGodotPath_settles Samples.noInstall Samples.linuxHost
           (PathResolution.after d) "/usr/local/bin/godot").
  - vm_compute. reflexivity.
  - discriminate.
  - vm_compute. reflexivity.
Defined.

(** X15: [setGodotPath] answers [true] only for a path that is not
    empty, and then the normalized path is set and recorded as valid;
    when it answers [false] the path is as before, and for the empty
    string nothing happens at all. *)
Theorem setGodotPath_outcome (world : GodotPathManager.World)
    (host : PathResolution.Host) (customPath : string) (m : PathResolution.Manager) :
  let '(ok, m', probes) := PathResolution.setGodotPath world host customPath m in
  (ok = true ->
   customPath <> "" /\
   PathResolution.godotPath m' = Some (PathResolution.normalize host customPath) /\
   PathResolution.validatedPaths m' !! PathResolution.normalize host customPath
   = Some true) /\
  (ok = false -> PathResolution.godotPath m' = PathResolution.godotPath m) /\
  (customPath = "" -> ok = false /\ m' = m /\ probes = []).
Proof.
  pose proof (setGodotPath_spec world host customPath m) as H.
  destruct (PathResolution.setGodotPath world host customPath m) as [[ok m'] probes].
  tauto.
Qed.

(** X16: on Linux and on macOS, a detection that returns leaves a path
    the map of validated paths has an entry for; in the lenient mode that
    entry can be [false]: the path is then the default the detection
    falls back to, which it has itself just found invalid. *)
Theorem detectGodotPath_fallback_was_refused (world : GodotPathManager.World)
    (host : PathResolution.Host) (m : PathResolution.Manager) :
  PathResolution.platform host = PathResolution.Linux \/
  PathResolution.platform host = PathResolution.Darwin ->
  let d := PathResolution.detectGodotPath world host m in
  PathResolution.threw d = false ->
  exists path,
    PathResolution.godotPath (PathResolution.after d) = Some path /\
    (PathResolution.validatedPaths (PathResolution.after d) !! path = Some true \/
     (PathResolution.validatedPaths (PathResolution.after d) !! path = Some false /\
      PathResolution.strictPathValidation m = false /\
      exists candidate,
        In candidate ((PathResolution.fallbackCandidates host).1
                      :: (PathResolution.fallbackCandidates host).2) /\
        path = PathResolution.normalize host candidate)).
Proof.
  intros Hplatform d Hd.
  pose proof (detectGodotPath_spec world host m) as H. cbv zeta in H.
  fold d in H. destruct H as (_ & _ & _ & _ & Hreturned).
  destruct (Hreturned Hd) as (path & Hpath & [Hvalid|(Hlenient & Hcandidate & Hrefused)]).
  - exists path. auto.
  - exists path. split; [exact Hpath|]. right.
    split; [|split; [exact Hlenient | exact Hcandidate]].
    destruct Hcandidate as (candidate & Hin & ->). apply Hrefused.
    unfold PathResolution.fallbackCandidates, PathResolution.possiblePaths in *.
    destruct Hplatform as [Hlinux|Hdarwin].
    + rewrite Hlinux in *. cbn in Hin. destruct Hin as [<-|[]]. right. now left.
    + rewrite Hdarwin in *. cbn in Hin.
      destruct Hin as [<-|[<-|[]]]; right; [now left | right; now left].
Qed.

Lemma detectGodotPath_fallback_was_refused_witness :
  let d := PathResolution.detectGodotPath Samples.noInstall Samples.linuxHost
             (Samples.fresh false) in
  exists path,
    PathResolution.godotPath (PathResolution.after d) = Some path /\
    (PathResolution.validatedPaths (PathResolution.after d) !! path = Some true \/
     (PathResolution.validatedPaths (PathResolution.after d) !! path = Some false /\
      PathResolution.strictPathValidation (Samples.fresh false) = false /\
      exists candidate,
        In candidate ((PathResolution.fallbackCandidates Samples.linuxHost).1
                      :: (PathResolution.fallbackCandidates Samples.linuxHost).2) /\
        path = PathResolution.normalize Samples.linuxHost candidate)).
Proof.
  intros d.
  apply (detectGodotPath_fallback_was_refused Samples.noInstall Samples.linuxHost
           (Samples.fresh false)).
  - left. reflexivity.
  - vm_compute. reflexivity.
Defined.

(** X28: a configured path beats the environment: when the initial
    path, normalized, exists when the manager is constructed, and exists
    and answers the version query when a path is first detected, the
    detection keeps it without throwing, and the only entry of the map of
    validated paths is this path: neither [GODOT_PATH] nor the common
    locations were looked at. *)
Theorem configured_path_wins (atStart atDetection : GodotPathManager.World)
    (host : PathResolution.Host) (options : PathResolution.Options)
    (initial : string) :
  PathResolution.initialPath options = Some initial ->
  initial <> "" ->
  let path := PathResolution.normalize host initial in
  path <> "" ->
  path <> "godot" ->
  GodotPathManager.existsSync atStart path = true ->
  GodotPathManager.existsSync atDetection path = true ->
  GodotPathManager.versionQuerySucceeds atDetection (inQuotes path +:+ " --version")
  = true ->
  let m := (PathResolution.construct atStart host options).1 in
  let d := PathResolution.detectGodotPath atDetection host m in
  PathResolution.godotPath m = Some path /\
  PathResolution.threw d = false /\
  PathResolution.godotPath (PathResolution.after d) = Some path /\
  PathResolution.validatedPaths (PathResolution.after d) = {[ path := true ]} /\
  PathResolution.probes d
  = [ GodotPathManager.ProbeExists path;
      GodotPathManager.ProbeExec (inQuotes path +:+ " --version") ].
Proof.
  intros Hinitial Hne path Hpath Hgodot Hstart Hexists Hquery m d.
  subst m d. unfold PathResolution.construct.
  rewrite Hinitial. destruct (String.eqb_spec initial ""); [contradiction|].
  unfold PathResolution.isValidGodotPathSync. fold path.
  destruct (String.eqb_spec path "godot"); [contradiction|].
  rewrite Hstart.
  unfold PathResolution.detectGodotPath, PathResolution.validate,
    GodotPathManager.isValidGodotPath, PathResolution.withPath.
  cbn [fst PathResolution.validatedPaths PathResolution.godotPath
       PathResolution.strictPathValidation].
  destruct (String.eqb_spec path ""); [contradiction|].
  rewrite lookup_empty.
  destruct (String.eqb_spec path "godot"); [contradiction|].
  rewrite Hexists, Hquery. cbn. auto.
Qed.

Lemma configured_path_wins_witness :
  let options := {| PathResolution.optStrictPathValidation := Some true;
                    PathResolution.initialPath := Some "/usr/local/bin/godot" |} in
  let m := (PathResolution.construct Samples.localInstall Samples.linuxHost options).1 in
  let d := PathResolution.detectGodotPath Samples.localInstall Samples.linuxHost m in
  PathResolution.godotPath m = Some "/usr/local/bin/godot" /\
  PathResolution.threw d = false /\
  PathResolution.godotPath (PathResolution.after d) = Some "/usr/local/bin/godot" /\
  PathResolution.validatedPaths (PathResolution.after d)
  = {[ "/usr/local/bin/godot" := true ]} /\
  PathResolution.probes d
  = [ GodotPathManager.ProbeExists "/usr/local/bin/godot";
      GodotPathManager.ProbeExec (inQuotes "/usr/local/bin/godot" +:+ " --version") ].
Proof.
  intros options.
  apply (configured_path_wins Samples.localInstall Samples.localInstall
           Samples.linuxHost options "/usr/local/bin/godot");
    (reflexivity || discriminate).
Defined.


(** ** Version numbers *)

Section Versions.

Import ProjectFiles.

Lemma takeDigits_numeral (d : Decimal.uint) rest :
  noDigitAhead rest ->
  takeDigits (NilEmpty.string_of_uint d +:+ rest) = (NilEmpty.string_of_uint d, rest).
Proof.
  intros Hrest. induction d; cbn [NilEmpty.string_of_uint];
    rewrite ?append_cons; cbn [takeDigits];
    try (change (isDigit "0") with true); try (change (isDigit "1") with true);
    try (change (isDigit "2") with true); try (change (isDigit "3") with true);
    try (change (isDigit "4") with true); try (change (isDigit "5") with true);
    try (change (isDigit "6") with true); try (change (isDigit "7") with true);
    try (change (isDigit "8") with true); try (change (isDigit "9") with true);
    cbv iota; try (now rewrite IHd).
  change (EmptyString +:+ rest) with rest.
  destruct rest as [|c rest']; [reflexivity|].
  cbn [takeDigits]. cbn in Hrest. now rewrite Hrest.
Qed.

Lemma numeral_not_empty n : numeral n <> "".
Proof.
  unfold numeral. destruct n as [|p]; [discriminate|].
  cbn [N.to_uint]. intros H.
  apply (f_equal NilEmpty.uint_of_string) in H.
  rewrite NilEmpty.usu in H. cbn in H. injection H as H.
  apply (f_equal Pos.of_uint) in H. rewrite DecimalPos.Unsigned.of_to in H.
  discriminate H.
Qed.

Lemma parseInt_numeral n : parseInt (numeral n) = n.
Proof.
  unfold parseInt, numeral. rewrite NilEmpty.usu. apply DecimalN.Unsigned.of_to.
Qed.

End Versions.

(** X17: on a version that starts with two decimal numerals with a dot
    between them, [isGodot44OrLater] compares the numbers, whatever
    follows them: it holds when the first is above 4, or is 4 with the
    second at least 4.  On a version that starts with anything but a
    digit it is [false]. *)
Theorem isGodot44OrLater_compares_numbers (major minor : N) (rest : string) :
  ProjectFiles.noDigitAhead rest ->
  ProjectFiles.isGodot44OrLater
    (ProjectFiles.numeral major +:+ "." +:+ ProjectFiles.numeral minor +:+ rest)
  = ((4 <? major)%N || ((major =? 4)%N && (4 <=? minor)%N)) /\
  (forall c version, isDigit c = false ->
                     ProjectFiles.isGodot44OrLater (String c version) = false).
Proof.
  intros Hrest. split.
  - unfold ProjectFiles.isGodot44OrLater, ProjectFiles.versionMatch.
    unfold ProjectFiles.numeral at 1.
    rewrite takeDigits_numeral by reflexivity.
    fold (ProjectFiles.numeral major).
    destruct (ProjectFiles.numeral major) as [|c digits] eqn:Hmajor.
    { now apply numeral_not_empty in Hmajor. }
    rewrite append_cons. change (EmptyString +:+ ?x) with x.
    unfold ProjectFiles.numeral at 1.
    rewrite takeDigits_numeral by exact Hrest.
    fold (ProjectFiles.numeral minor).
    destruct (ProjectFiles.numeral minor) as [|c' digits'] eqn:Hminor.
    { now apply numeral_not_empty in Hminor. }
    rewrite <- Hmajor, <- Hminor, !parseInt_numeral. reflexivity.
  - intros c version Hc.
    unfold ProjectFiles.isGodot44OrLater, ProjectFiles.versionMatch.
    cbn [ProjectFiles.takeDigits]. now rewrite Hc.
Qed.

Lemma isGodot44OrLater_compares_numbers_witness :
  ProjectFiles.isGodot44OrLater "4.10.stable.official" = true /\
  ProjectFiles.isGodot44OrLater "3.6.1" = false.
Proof.
  split.
  - exact (proj1 (isGodot44OrLater_compares_numbers 4 10 ".stable.official" eq_refl)).
  - exact (proj1 (isGodot44OrLater_compares_numbers 3 6 ".1" eq_refl)).
Defined.


(** ** The structure of a project *)

Section Structure.

Import ProjectFiles.

Lemma split_app sep s c t :
  sep c = true ->
  JSString.split sep (s +:+ String c t) = JSString.split sep s ++ JSString.split sep t.
Proof.
  intros Hc. induction s as [|a s IH].
  - change (EmptyString +:+ ?x) with x. cbn [JSString.split]. now rewrite Hc.
  - rewrite append_cons. cbn [JSString.split]. rewrite IH.
    destruct (sep a); [reflexivity|].
    pose proof (split_nonempty sep s) as Hne.
    destruct (JSString.split sep s) as [|piece rest]; [contradiction | reflexivity].
Qed.

Lemma split_none sep s :
  (forall c, sep c = true -> JSString.includes (String c EmptyString) s = false) ->
  JSString.split sep s = [s].
Proof.
  induction s as [|a s IH]; intros H; [reflexivity|].
  cbn [JSString.split]. destruct (sep a) eqn:Ha.
  - specialize (H a Ha). rewrite includes_char_cons, Ascii.eqb_refl in H.
    discriminate H.
  - rewrite IH; [reflexivity|].
    intros c Hc. specialize (H c Hc). rewrite includes_char_cons in H.
    now apply orb_false_elim in H.
Qed.

Lemma last_app_nonempty {A} (l l' : list A) d :
  l' <> [] -> List.last (l ++ l') d = List.last l' d.
Proof.
  intros Hne. induction l as [|x l IH]; [reflexivity|].
  cbn [app]. rewrite <- IH.
  destruct (l ++ l') eqn:E; [|reflexivity].
  apply app_eq_nil in E as [_ E]. contradiction.
Qed.

Lemma extension_no_dot ext :
  JSString.includes "." ext = false -> extension ext = JSString.toLowerCase ext.
Proof.
  intros H. unfold extension. rewrite split_none; [reflexivity|].
  intros c Hc. apply Ascii.eqb_eq in Hc. now subst c.
Qed.

Lemma extension_after_dot base ext :
  JSString.includes "." ext = false ->
  extension (base +:+ "." +:+ ext) = JSString.toLowerCase ext.
Proof.
  intros H. unfold extension.
  change ("." +:+ ext) with (String "." ext).
  rewrite split_app by reflexivity.
  rewrite last_app_nonempty by apply split_nonempty.
  now apply extension_no_dot.
Qed.

Lemma Dirent_ind (P : Dirent -> Prop) :
  (forall name, P (File name)) ->
  (forall name, P (Other name)) ->
  (forall name projectFile, P (Directory name projectFile None)) ->
  (forall name projectFile entries,
     Forall P entries -> P (Directory name projectFile (Some entries))) ->
  forall entry, P entry.
Proof.
  intros Hfile Hother Hnone Hsome.
  fix IH 1. intros [name | name | name projectFile [entries|]].
  - apply Hfile.
  - apply Hother.
  - apply Hsome. induction entries as [|e entries IHe]; constructor;
      [apply IH | exact IHe].
  - apply Hnone.
Qed.

Lemma count_total category structure :
  scenes (count category structure) + scripts (count category structure)
  + assets (count category structure) + other (count category structure)
  = S (scenes structure + scripts structure + assets structure + other structure) /\
  error (count category structure) = error structure.
Proof. destruct category; cbn; split; (lia || reflexivity). Qed.

Lemma getProjectStructure_fold entries : forall acc,
  let s :=
    fold_left
      (fun structure entry =>
         match entry with
         | Directory name _ _ =>
             let dirName := JSString.toLowerCase name in
             if JSString.startsWith "." dirName then structure
             else count (directoryCategory dirName) structure
         | _ => structure
         end) entries acc in
  scenes s + scripts s + assets s + other s
  = scenes acc + scripts acc + assets acc + other acc
    + length (List.filter countedDirectory entries) /\
  error s = error acc.
Proof.
  induction entries as [|entry entries IH]; intros acc; cbn [fold_left List.filter].
  - cbn. split; [lia | reflexivity].
  - cbv zeta in IH |- *.
    destruct entry as [name | name | name projectFile sub]; cbn [countedDirectory];
      try (rewrite (proj1 (IH acc)), (proj2 (IH acc)); split; [lia | reflexivity]).
    destruct (JSString.startsWith "." (JSString.toLowerCase name)); cbn [negb].
    + apply IH.
    + destruct (IH (count (directoryCategory (JSString.toLowerCase name)) acc))
        as [Hsum Herror].
      destruct (count_total (directoryCategory (JSString.toLowerCase name)) acc)
        as [Hcount Hsame].
      rewrite Hsum, Herror, Hcount, Hsame. cbn [length]. split; [lia | reflexivity].
Qed.

(** Counting files adds to each counter the files of its category. *)
Lemma countFiles_spec names : forall structure,
  let s := countFiles names structure in
  scenes s = scenes structure + tally Scenes names /\
  scripts s = scripts structure + tally Scripts names /\
  assets s = assets structure + tally Assets names /\
  other s = other structure + tally Others names /\
  error s = error structure.
Proof.
  unfold countFiles, tally.
  induction names as [|name names IH]; intros structure; cbn [fold_left List.filter].
  - cbn. repeat split; lia.
  - cbv zeta in IH |- *.
    destruct (IH (count (extensionCategory (extension name)) structure))
      as (H1 & H2 & H3 & H4 & H5).
    rewrite H1, H2, H3, H4, H5.
    destruct (extensionCategory (extension name)); cbn; repeat split; lia.
Qed.

Lemma countFiles_app names names' structure :
  countFiles (names ++ names') structure = countFiles names' (countFiles names structure).
Proof. unfold countFiles. apply fold_left_app. Qed.

(** One entry of the recursive scan: the files it reaches are counted,
    unless a directory it reaches cannot be read. *)
Lemma scanEntry_spec entry : forall structure,
  scanEntry entry structure
  = if readable entry then Some (countFiles (visibleFiles entry) structure) else None.
Proof.
  induction entry as [name | name | name projectFile | name projectFile entries IH]
    using Dirent_ind; intros structure; cbn [scanEntry readable visibleFiles entryName];
    destruct (JSString.startsWith "." name); try reflexivity.
  revert structure.
  induction IH as [|entry entries Hentry _ IHentries]; intros structure;
    [reflexivity|].
  cbn [forallb flat_map]. rewrite Hentry.
  destruct (readable entry); cbn [andb]; [|reflexivity].
  rewrite IHentries. destruct (forallb readable entries); [|reflexivity].
  now rewrite countFiles_app.
Qed.

Lemma scanDirectory_spec entries : forall structure,
  scanDirectory (Some entries) structure
  = if forallb readable entries
    then Some (countFiles (flat_map visibleFiles entries) structure)
    else None.
Proof.
  cbn [scanDirectory].
  assert (forall entries, fold_left
            (fun acc entry => match acc with
                              | Some structure => scanEntry entry structure
                              | None => None
                              end) entries None = None) as Hnone.
  { clear. induction entries as [|entry entries IH]; [reflexivity | exact IH]. }
  induction entries as [|entry entries IH]; intros structure; [reflexivity|].
  cbn [fold_left forallb flat_map]. rewrite scanEntry_spec.
  destruct (readable entry); cbn [andb]; [|apply Hnone].
  rewrite IH. destruct (forallb readable entries); [|reflexivity].
  now rewrite countFiles_app.
Qed.

End Structure.

(** X18: [getProjectStructure] counts directories, not files: the four
    counters add up to the number of directories of the listing whose
    name does not start with a dot; and when the listing cannot be read
    every counter is zero and the error is set. *)
Theorem getProjectStructure_counts_directories (entries : list ProjectFiles.Dirent) :
  let s := ProjectFiles.getProjectStructure (Some entries) in
  ProjectFiles.scenes s + ProjectFiles.scripts s + ProjectFiles.assets s
  + ProjectFiles.other s
  = length (List.filter ProjectFiles.countedDirectory entries) /\
  ProjectFiles.error s = None /\
  ProjectFiles.getProjectStructure None
  = {| ProjectFiles.scenes := 0; ProjectFiles.scripts := 0; ProjectFiles.assets := 0;
       ProjectFiles.other := 0;
       ProjectFiles.error := Some "Failed to get project structure" |}.
Proof.
  intros s.
  destruct (getProjectStructure_fold entries ProjectFiles.emptyStructure) as [Hsum Herror].
  split; [exact Hsum|]. split; [exact Herror | reflexivity].
Qed.

(** X19: the recursive scan counts, in each category, the files that are
    not hidden and lie in directories that are not hidden, all the way
    down; but when a single directory it reaches cannot be read, every
    count is given up: all counters are zero and the error is set. *)
Theorem getProjectStructureAsync_counts_files (entries : list ProjectFiles.Dirent) :
  let files := flat_map ProjectFiles.visibleFiles entries in
  let s := ProjectFiles.getProjectStructureAsync (Some entries) in
  if forallb ProjectFiles.readable entries
  then ProjectFiles.scenes s = ProjectFiles.tally ProjectFiles.Scenes files /\
       ProjectFiles.scripts s = ProjectFiles.tally ProjectFiles.Scripts files /\
       ProjectFiles.assets s = ProjectFiles.tally ProjectFiles.Assets files /\
       ProjectFiles.other s = ProjectFiles.tally ProjectFiles.Others files /\
       ProjectFiles.error s = None
  else s = ProjectFiles.failedStructure.
Proof.
  intros files s. subst s. unfold ProjectFiles.getProjectStructureAsync.
  rewrite scanDirectory_spec. fold files.
  destruct (forallb ProjectFiles.readable entries); [|reflexivity].
  exact (countFiles_spec files ProjectFiles.emptyStructure).
Qed.

(** X20: the category of a file is decided by the text after its last
    dot, whatever its case; a name without a dot is its own extension. *)
Theorem extension_is_text_after_last_dot (base ext : string) :
  JSString.includes "." ext = false ->
  ProjectFiles.extension (base +:+ "." +:+ ext) = JSString.toLowerCase ext /\
  ProjectFiles.extension ext = JSString.toLowerCase ext.
Proof.
  intros H. split; [now apply extension_after_dot | now apply extension_no_dot].
Qed.

Lemma extension_is_text_after_last_dot_witness :
  ProjectFiles.extensionCategory (ProjectFiles.extension "levels/World.v2.TSCN")
  = ProjectFiles.Scenes /\
  ProjectFiles.extensionCategory (ProjectFiles.extension "gd") = ProjectFiles.Scripts.
Proof.
  destruct (extension_is_text_after_last_dot "levels/World.v2" "TSCN" eq_refl)
    as [Hdot _].
  destruct (extension_is_text_after_last_dot "" "gd" eq_refl) as [_ Hplain].
  split.
  - change ("levels/World.v2" +:+ "." +:+ "TSCN") with "levels/World.v2.TSCN" in Hdot.
    rewrite Hdot. reflexivity.
  - rewrite Hplain. reflexivity.
Defined.


(** ** The search for projects *)

Section Search.

Import ProjectFiles.

Variable join : string -> string -> string.

Lemma topProject_entry directory entries project :
  topProject join directory entries project <->
  exists entry, In entry entries /\ topProject join directory [entry] project.
Proof.
  split.
  - intros H. destruct H as [entryName sub Hin Hvisible
                            | entryName sub project Hin Hvisible Hbelow].
    + exists (Directory entryName true sub). split; [exact Hin|].
      apply top_here with (sub := sub); [now left | exact Hvisible].
    + exists (Directory entryName false (Some sub)). split; [exact Hin|].
      apply top_below with (entryName := entryName) (sub := sub);
        [now left | exact Hvisible | exact Hbelow].
  - intros (entry & Hin & H).
    destruct H as [entryName sub [Heq|[]] Hvisible
                  | entryName sub project [Heq|[]] Hvisible Hbelow]; subst entry.
    + now apply top_here with (sub := sub).
    + now apply top_below with (entryName := entryName) (sub := sub).
Qed.

Lemma searchEntry_spec entry : forall directory project,
  In project (searchEntry join directory entry) <->
  topProject join directory [entry] project.
Proof.
  induction entry as [name | name | name projectFile | name projectFile entries IH]
    using Dirent_ind; intros directory project; cbn [searchEntry].
  - split; [intros [] | intros H; inversion H as [? ? [[=]|[]] | ? ? ? [[=]|[]]]].
  - split; [intros [] | intros H; inversion H as [? ? [[=]|[]] | ? ? ? [[=]|[]]]].
  - destruct (JSString.startsWith "." name) eqn:Hhidden.
    + split; [intros []|].
      intros H; inversion H as [? ? [[= -> _ _]|[]] Hv | ? ? ? [[= -> _ _]|[]] Hv];
        congruence.
    + destruct projectFile.
      * split.
        -- intros [<-|[]]. apply top_here with (sub := None); [now left | exact Hhidden].
        -- intros H.
           inversion H as [? ? [[= -> _]|[]] Hv | ? ? ? [[=]|[]]]. now left.
      * split; [intros []|].
        intros H; inversion H as [? ? [[=]|[]] | ? ? ? [[=]|[]]].
  - destruct (JSString.startsWith "." name) eqn:Hhidden.
    + split; [intros []|].
      intros H; inversion H as [? ? [[= -> _ _]|[]] Hv | ? ? ? [[= -> _ _]|[]] Hv];
        congruence.
    + destruct projectFile.
      * split.
        -- intros [<-|[]].
           apply top_here with (sub := Some entries); [now left | exact Hhidden].
        -- intros H.
           inversion H as [? ? [[= -> _]|[]] Hv | ? ? ? [[=]|[]]]. now left.
      * rewrite in_flat_map. split.
        -- intros (entry & Hin & Hfound).
           apply top_below with (entryName := name) (sub := entries);
             [now left | exact Hhidden|].
           apply topProject_entry. exists entry. split; [exact Hin|].
           exact (proj1 (proj1 (List.Forall_forall _ _) IH entry Hin _ _) Hfound).
        -- intros H.
           inversion H as [? ? [[=]|[]] | ? sub ? [[= -> ->]|[]] Hv Hbelow].
           apply topProject_entry in Hbelow as (entry & Hin & Hentry).
           exists entry. split; [exact Hin|].
           exact (proj2 (proj1 (List.Forall_forall _ _) IH entry Hin _ _) Hentry).
Qed.

Lemma search_spec directory entries project :
  In project (flat_map (searchEntry join directory) entries) <->
  topProject join directory entries project.
Proof.
  rewrite in_flat_map, topProject_entry.
  split; intros (entry & Hin & H); exists entry; (split; [exact Hin|]);
    now apply searchEntry_spec.
Qed.

Lemma check_spec directory entries project :
  In project (flat_map (checkEntry join directory) entries) <->
  exists entryName sub,
    In (Directory entryName true sub) entries /\
    project = {| path := join directory entryName; name := entryName |}.
Proof.
  rewrite in_flat_map. split.
  - intros (entry & Hin & H).
    destruct entry as [? | ? | entryName [|] sub]; cbn in H; try contradiction.
    destruct H as [<-|[]]. eauto.
  - intros (entryName & sub & Hin & ->).
    exists (Directory entryName true sub). split; [exact Hin | now left].
Qed.

End Search.

(** X21: what [findGodotProjects] reports.  Searching recursively: the
    directory itself when it has a project file, and below it exactly the
    directories with a project file that are not hidden and are reached
    through directories that are not hidden, can be read and have no
    project file themselves.  Otherwise: the directory itself when it has
    a project file, and exactly its immediate subdirectories with a
    project file, hidden or not.  When the directory cannot be read:
    nothing but the directory itself. *)
Theorem findGodotProjects_reports (join : string -> string -> string)
    (basename : string -> string) (directory : string) (projectFile : bool)
    (entries : list ProjectFiles.Dirent) (project : ProjectFiles.GodotProjectRef) :
  let itself :=
    projectFile = true /\
    project = {| ProjectFiles.path := directory;
                 ProjectFiles.name := basename directory |} in
  (In project (ProjectFiles.findGodotProjects join basename directory projectFile
                 (Some entries) true) <->
   itself \/ ProjectFiles.topProject join directory entries project) /\
  (In project (ProjectFiles.findGodotProjects join basename directory projectFile
                 (Some entries) false) <->
   itself \/
   exists entryName sub,
     In (ProjectFiles.Directory entryName true sub) entries /\
     project = {| ProjectFiles.path := join directory entryName;
                  ProjectFiles.name := entryName |}) /\
  (forall recursive,
     In project (ProjectFiles.findGodotProjects join basename directory projectFile
                   None recursive) <-> itself).
Proof.
  intros itself. unfold ProjectFiles.findGodotProjects.
  assert (In project
            (if projectFile
             then [ {| ProjectFiles.path := directory;
                       ProjectFiles.name := basename directory |} ]
             else []) <-> itself) as Hitself.
  { unfold itself. destruct projectFile; split.
    - intros [<-|[]]. auto.
    - intros [_ ->]. now left.
    - intros [].
    - intros [[=] _]. }
  split; [|split].
  - rewrite in_app_iff, Hitself, search_spec. reflexivity.
  - rewrite in_app_iff, Hitself, check_spec. reflexivity.
  - intros recursive. rewrite in_app_iff, Hitself. cbn [In]. tauto.
Qed.


(** ** The name of a project *)

Section ProjectName.

Import ProjectFiles.

Lemma startsWith_app p s : JSString.startsWith p (p +:+ s) = true.
Proof.
  induction p as [|c p IH]; [reflexivity|].
  rewrite append_cons. cbn [JSString.startsWith]. now rewrite Ascii.eqb_refl.
Qed.

Lemma dropPrefix_sound p : forall s rest,
  dropPrefix p s = Some rest -> s = p +:+ rest.
Proof.
  induction p as [|a p IH]; intros s rest; cbn [dropPrefix].
  - now intros [= ->].
  - destruct s as [|b s]; [discriminate|].
    destruct (Ascii.eqb_spec a b) as [->|]; [|discriminate].
    intros H. rewrite append_cons. f_equal. now apply IH.
Qed.

Lemma dropPrefix_app p s : dropPrefix p (p +:+ s) = Some s.
Proof.
  induction p as [|a p IH]; [reflexivity|].
  rewrite append_cons. cbn [dropPrefix]. now rewrite Ascii.eqb_refl.
Qed.

(** A match that starts before a character the prefix does not have ends
    before it. *)
Lemma dropPrefix_before p : forall before c rest,
  JSString.includes (String c EmptyString) p = false ->
  dropPrefix p (before +:+ String c rest) <> None ->
  JSString.startsWith p before = true.
Proof.
  induction p as [|a p IH]; intros before c rest Hc H; [reflexivity|].
  rewrite includes_char_cons in Hc. apply orb_false_elim in Hc as [Hac Hc].
  destruct before as [|b before].
  - change (EmptyString +:+ ?x) with x in H. cbn [dropPrefix] in H.
    rewrite Ascii.eqb_sym, Hac in H. contradiction.
  - rewrite append_cons in H. cbn [dropPrefix JSString.startsWith] in *.
    destruct (Ascii.eqb a b); [|contradiction].
    cbn [andb]. eapply IH; eauto.
Qed.

Lemma untilQuote_sound s : forall found,
  untilQuote s = Some found ->
  JSString.includes (String dquote EmptyString) found = false /\
  exists rest, s = found +:+ String dquote rest.
Proof.
  induction s as [|c s IH]; intros found; cbn [untilQuote]; [discriminate|].
  destruct (Ascii.eqb_spec c dquote) as [->|Hc].
  - intros [= <-]. split; [reflexivity | now exists s].
  - destruct (untilQuote s) as [tail|]; [|discriminate].
    intros [= <-]. destruct (IH tail eq_refl) as (Hplain & rest & ->).
    split.
    + rewrite includes_char_cons, Hplain, orb_false_r.
      apply Ascii.eqb_neq. congruence.
    + exists rest. reflexivity.
Qed.

Lemma untilQuote_app found rest :
  JSString.includes (String dquote EmptyString) found = false ->
  untilQuote (found +:+ String dquote rest) = Some found.
Proof.
  induction found as [|c found IH]; intros H.
  - change (EmptyString +:+ ?x) with x. cbn [untilQuote].
    now rewrite Ascii.eqb_refl.
  - rewrite includes_char_cons in H. apply orb_false_elim in H as [Hc H].
    rewrite append_cons. cbn [untilQuote].
    rewrite Ascii.eqb_sym, Hc. now rewrite IH.
Qed.

Lemma matchHere_sound s found :
  matchHere s = Some found ->
  found <> "" /\
  JSString.includes (String dquote EmptyString) found = false /\
  JSString.startsWith (configNamePrefix +:+ found +:+ String dquote EmptyString) s = true.
Proof.
  unfold matchHere.
  destruct (dropPrefix configNamePrefix s) as [rest|] eqn:Hdrop; [|discriminate].
  apply dropPrefix_sound in Hdrop. subst s.
  destruct (untilQuote rest) as [[|c tail]|] eqn:Huntil; try discriminate.
  intros [= <-]. apply untilQuote_sound in Huntil as (Hplain & after & ->).
  split; [discriminate|]. split; [exact Hplain|].
  rewrite <- !append_assoc.
  replace ((configNamePrefix +:+ String c tail) +:+ String dquote after)
    with (((configNamePrefix +:+ String c tail) +:+ String dquote EmptyString) +:+ after).
  - apply startsWith_app.
  - now rewrite !append_assoc.
Qed.

Lemma matchHere_app found rest :
  found <> "" ->
  JSString.includes (String dquote EmptyString) found = false ->
  matchHere (configNamePrefix +:+ found +:+ String dquote rest) = Some found.
Proof.
  intros Hne Hplain. unfold matchHere.
  rewrite dropPrefix_app, untilQuote_app by exact Hplain.
  destruct found; [contradiction | reflexivity].
Qed.

Lemma configNameMatch_sound content : forall found,
  configNameMatch content = Some found ->
  found <> "" /\
  JSString.includes (String dquote EmptyString) found = false /\
  JSString.includes (configNamePrefix +:+ found +:+ String dquote EmptyString) content
  = true.
Proof.
  induction content as [|c content IH]; intros found; cbn [configNameMatch].
  - destruct (matchHere "") eqn:Hhere; [|discriminate].
    intros [= ->]. apply matchHere_sound in Hhere as (? & ? & ?).
    auto using startsWith_includes.
  - destruct (matchHere (String c content)) eqn:Hhere.
    + intros [= ->]. apply matchHere_sound in Hhere as (? & ? & ?).
      auto using startsWith_includes.
    + intros H. destruct (IH found H) as (? & ? & ?). auto using includes_cons.
Qed.

Lemma matchHere_None s :
  JSString.startsWith configNamePrefix s = false -> matchHere s = None.
Proof.
  intros H. unfold matchHere.
  destruct (dropPrefix configNamePrefix s) as [rest|] eqn:Hdrop; [|reflexivity].
  apply dropPrefix_sound in Hdrop. subst s. now rewrite startsWith_app in H.
Qed.

Lemma configNameMatch_absent content :
  JSString.includes configNamePrefix content = false ->
  configNameMatch content = None.
Proof.
  induction content as [|c content IH]; intros H.
  - reflexivity.
  - cbn [JSString.includes] in H. apply orb_false_elim in H as [Hhere Hrest].
    cbn [configNameMatch]. rewrite (matchHere_None _ Hhere). now apply IH.
Qed.

Lemma configNameMatch_here s found :
  matchHere s = Some found -> configNameMatch s = Some found.
Proof. intros H. destruct s; cbn [configNameMatch]; now rewrite H. Qed.

Lemma configNameMatch_first before c found rest :
  JSString.includes configNamePrefix before = false ->
  JSString.includes (String c EmptyString) configNamePrefix = false ->
  found <> "" ->
  JSString.includes (String dquote EmptyString) found = false ->
  configNameMatch
    (before +:+ String c (configNamePrefix +:+ found +:+ String dquote rest))
  = Some found.
Proof.
  intros Hbefore Hc Hne Hplain.
  induction before as [|b before IH].
  - change (EmptyString +:+ ?x) with x. cbn [configNameMatch].
    rewrite matchHere_None.
    + apply configNameMatch_here. now apply matchHere_app.
    + unfold configNamePrefix in *. rewrite append_cons in *.
      rewrite includes_char_cons in Hc. apply orb_false_elim in Hc as [Hc _].
      cbn [JSString.startsWith]. now rewrite Ascii.eqb_sym, Hc.
  - cbn [JSString.includes] in Hbefore.
    apply orb_false_elim in Hbefore as [Hhere Hrest].
    rewrite append_cons. cbn [configNameMatch].
    assert (matchHere (String b (before +:+ String c
              (configNamePrefix +:+ found +:+ String dquote rest))) = None) as Hnone.
    { unfold matchHere.
      destruct (dropPrefix configNamePrefix _) as [tail|] eqn:Hdrop; [|reflexivity].
      exfalso. rewrite <- append_cons in Hdrop.
      rewrite (dropPrefix_before configNamePrefix (String b before) c
                 (configNamePrefix +:+ found +:+ String dquote rest) Hc) in Hhere;
        [discriminate | congruence]. }
    rewrite Hnone. now apply IH.
Qed.

End ProjectName.

(** X22: where [require] is not defined, as in the ES module the server
    is built as, [getProjectName] returns the directory name whatever the
    project file holds: the name in the file is never read.  Only where
    [require] is defined does the file count, and then the name returned
    is the directory name, or a name the project file holds: not empty,
    without a double quote, and found in the file between the key
    [config/name=] with an opening quote and a closing quote.  It is then
    the directory name when the file cannot be read or does not have the
    key; and it is the name after the first occurrence of the key, when
    that occurrence follows a character the key does not have, such as
    the end of a line. *)
Theorem getProjectName_reads_config_name (base content : string) :
  (forall projectFileContent,
     ProjectFiles.getProjectName false base projectFileContent = base) /\
  let found := ProjectFiles.getProjectName true base (Some content) in
  (found = base \/
   (found <> "" /\
    JSString.includes (String dquote EmptyString) found = false /\
    JSString.includes
      (ProjectFiles.configNamePrefix +:+ found +:+ String dquote EmptyString) content
    = true)) /\
  (JSString.includes ProjectFiles.configNamePrefix content = false -> found = base) /\
  ProjectFiles.getProjectName true base None = base /\
  (forall before c configName rest,
     content = before +:+ String c (ProjectFiles.configNamePrefix +:+ configName
                                    +:+ String dquote rest) ->
     JSString.includes ProjectFiles.configNamePrefix before = false ->
     JSString.includes (String c EmptyString) ProjectFiles.configNamePrefix = false ->
     configName <> "" ->
     JSString.includes (String dquote EmptyString) configName = false ->
     found = configName).
Proof.
  split; [reflexivity|].
  intros found. subst found. unfold ProjectFiles.getProjectName.
  split; [|split; [|split]].
  - destruct (ProjectFiles.configNameMatch content) as [found|] eqn:Hmatch;
      [|now left].
    right. now apply configNameMatch_sound.
  - intros Habsent. now rewrite configNameMatch_absent.
  - reflexivity.
  - intros before c configName rest -> Hbefore Hc Hne Hplain.
    now rewrite configNameMatch_first.
Qed.

Lemma getProjectName_reads_config_name_witness :
  ProjectFiles.getProjectName false "game" (Some Samples.projectFile) = "game" /\
  ProjectFiles.getProjectName true "game" (Some Samples.projectFile) = "My Game".
Proof.
  pose proof (getProjectName_reads_config_name "game" Samples.projectFile)
    as [Hmodule Hrequire].
  split; [apply Hmodule|].
  refine (proj2 (proj2 (proj2 Hrequire))
            ("config_version=5" +:+ String LF (String LF "[application]")
             +:+ String LF EmptyString)
            LF "My Game"
            (String LF "run/main_scene=" +:+ inQuotes "res://main.tscn")
            _ _ _ _ _); try reflexivity.
  discriminate.
Defined.


(** ** The handlers with checks of their own *)

Section Scenes.

Import SceneHandlers.

Lemma lacks_false args param :
  lacks args param = false ->
  exists v, obj_own args param = Some v /\ truthy v = true.
Proof.
  unfold lacks. destruct (obj_own args param) as [v|]; [|discriminate].
  intros H. exists v. split; [reflexivity | now apply negb_false_iff].
Qed.

Lemma checkPaths_accepts projectPath scenePath :
  checkPaths projectPath scenePath = inr tt ->
  validatePathDyn projectPath = Some true /\ validatePathDyn scenePath = Some true.
Proof.
  unfold checkPaths.
  destruct (validatePathDyn projectPath) as [[|]|]; try discriminate.
  destruct (validatePathDyn scenePath) as [[|]|]; try discriminate. auto.
Qed.

Lemma checkPaths_made projectPath scenePath over :
  checkPaths projectPath scenePath = inl over -> made over = [].
Proof.
  unfold checkPaths.
  destruct (validatePathDyn projectPath) as [[|]|];
    [destruct (validatePathDyn scenePath) as [[|]|]| |]; intros [= <-]; reflexivity.
Qed.

End Scenes.

(** X23: [handleCreateScene] reaches the executor only with a project
    path that is a string without two dots and names a project, and a
    scene path that passes the same check; and it hands on two parameters
    and no more: the scene path, and a root node type that is the
    argument of this name when that is truthy and [Node2D] otherwise. *)
Theorem handleCreateScene_hands_on_two_params (env : Env) (args : Obj Value) :
  SceneHandlers.made (SceneHandlers.handleCreateScene env args) <> [] ->
  exists path scenePath rootNodeType,
    obj_own (normalizeArgs args) "projectPath" = Some (VStr path) /\
    ProjectUtils.validatePath path = true /\
    projectMarker env path = true /\
    obj_own (normalizeArgs args) "scenePath" = Some scenePath /\
    validatePathDyn scenePath = Some true /\
    truthy rootNodeType = true /\
    (obj_own (normalizeArgs args) "rootNodeType" = Some rootNodeType \/
     rootNodeType = VStr "Node2D") /\
    (forall given,
       obj_own (normalizeArgs args) "rootNodeType" = Some given ->
       truthy given = true -> rootNodeType = given) /\
    ((forall given,
        obj_own (normalizeArgs args) "rootNodeType" = Some given ->
        truthy given = false) ->
     rootNodeType = VStr "Node2D") /\
    SceneHandlers.made (SceneHandlers.handleCreateScene env args)
    = [ {| callOperation := "create_scene";
           callParams := [("scenePath", scenePath); ("rootNodeType", rootNodeType)];
           callProjectPath := Some (VStr path) |} ].
Proof.
  unfold SceneHandlers.handleCreateScene.
  set (normalized := normalizeArgs args).
  destruct (SceneHandlers.lacks normalized "projectPath") eqn:Hproject;
    [intros H; now contradiction H|].
  destruct (SceneHandlers.lacks normalized "scenePath") eqn:Hscene;
    [intros H; now contradiction H|].
  cbn [orb].
  apply lacks_false in Hproject as (projectPath & Hproject & _).
  apply lacks_false in Hscene as (scenePath & Hscene & _).
  rewrite Hproject, Hscene. cbn [default from_option id].
  destruct (SceneHandlers.checkPaths projectPath scenePath) as [over|[]] eqn:Hcheck;
    cbv beta iota.
  { intros H. now rewrite (checkPaths_made _ _ _ Hcheck) in H. }
  apply checkPaths_accepts in Hcheck as [Hvalid Hvalid'].
  destruct projectPath as [| | |path| |]; try (intros H; now contradiction H).
  destruct (projectMarker env path) eqn:Hmarker; cbn [negb];
    [|intros H; now contradiction H].
  intros _.
  destruct (executeOperation env _) as [outcome effs] eqn:Hexec.
  cbn [SceneHandlers.made].
  exists path, scenePath.
  assert (ProjectUtils.validatePath path = true) as Hpath.
  { unfold validatePathDyn in Hvalid. destruct (negb (truthy (VStr path)));
      [discriminate | congruence]. }
  unfold SceneHandlers.createSceneParams.
  destruct (obj_own normalized "rootNodeType") as [v|] eqn:Hroot.
  - destruct (truthy v) eqn:Hv.
    + exists v. do 7 (split; [auto|]). split; [|split; [|reflexivity]].
      * intros given [= <-] _. reflexivity.
      * intros Hfalsy. specialize (Hfalsy v eq_refl). congruence.
    + exists (VStr "Node2D"). do 7 (split; [auto|]). split; [|split; [|reflexivity]].
      * intros given [= <-] Hgiven. congruence.
      * reflexivity.
  - exists (VStr "Node2D"). do 7 (split; [auto|]). split; [|split; [|reflexivity]].
    + intros given [=].
    + reflexivity.
Qed.

Lemma handleCreateScene_hands_on_two_params_witness :
  SceneHandlers.made
    (SceneHandlers.handleCreateScene demoEnv
       [ ("project_path", VStr "demo"); ("scene_path", VStr "main.tscn");
         ("root_node_type", VStr "Node3D"); ("verbose", VBool true) ])
  = [ {| callOperation := "create_scene";
         callParams := [("scenePath", VStr "main.tscn"); ("rootNodeType", VStr "Node3D")];
         callProjectPath := Some (VStr "demo") |} ] /\
  SceneHandlers.made
    (SceneHandlers.handleCreateScene demoEnv
       [ ("project_path", VStr "demo"); ("scene_path", VStr "main.tscn");
         ("root_node_type", VStr ""); ("verbose", VBool true) ])
  = [ {| callOperation := "create_scene";
         callParams := [("scenePath", VStr "main.tscn"); ("rootNodeType", VStr "Node2D")];
         callProjectPath := Some (VStr "demo") |} ].
Proof.
  split.
  - destruct (handleCreateScene_hands_on_two_params demoEnv
                [ ("project_path", VStr "demo"); ("scene_path", VStr "main.tscn");
                  ("root_node_type", VStr "Node3D"); ("verbose", VBool true) ])
      as (path & scenePath & rootNodeType & Hproject & _ & _ & Hscene & _ & _ & _
          & Hgiven & _ & Hmade); [discriminate|].
    rewrite Hmade.
    injection Hproject as <-. injection Hscene as <-.
    now rewrite (Hgiven (VStr "Node3D") eq_refl eq_refl).
  - destruct (handleCreateScene_hands_on_two_params demoEnv
                [ ("project_path", VStr "demo"); ("scene_path", VStr "main.tscn");
                  ("root_node_type", VStr ""); ("verbose", VBool true) ])
      as (path & scenePath & rootNodeType & Hproject & _ & _ & Hscene & _ & _ & _
          & _ & Hblank & Hmade); [discriminate|].
    rewrite Hmade.
    injection Hproject as <-. injection Hscene as <-.
    rewrite Hblank; [reflexivity|].
    intros value [= <-]. reflexivity.
Defined.

Section Nodes.

Import SceneHandlers.

Lemma copyIfTruthy_spec args param params k v :
  param <> "__proto__" ->
  obj_own (copyIfTruthy args param params) k = Some v ->
  obj_own params k = Some v \/
  (k = param /\ obj_own args param = Some v /\ truthy v = true).
Proof.
  intros Hproto. unfold copyIfTruthy.
  destruct (obj_own args param) as [x|] eqn:Hx; [|now left].
  destruct (truthy x) eqn:Htruthy; [|now left].
  rewrite obj_own_set by exact Hproto.
  destruct (String.eqb_spec param k) as [<-|Hne]; [|now left].
  intros [= <-]. right. auto.
Qed.

Lemma copyIfTruthy_keeps args param params k :
  param <> "__proto__" ->
  obj_own params k <> None -> obj_own (copyIfTruthy args param params) k <> None.
Proof.
  intros Hproto Hk. unfold copyIfTruthy.
  destruct (obj_own args param) as [x|]; [|exact Hk].
  destruct (truthy x); [|exact Hk].
  rewrite obj_own_set by exact Hproto.
  destruct (String.eqb param k); [discriminate | exact Hk].
Qed.

End Nodes.

(** X24: [handleAddNode] reaches the executor only for a scene file
    that exists in a project; what it hands on are arguments of the call,
    each under its own name and truthy, and of five names only: the scene
    path, the node type and the node name always, the parent node path
    and the properties when they are given. *)
Theorem handleAddNode_hands_on_known_params (env : Env)
    (sceneFile : string -> string -> bool) (args : Obj Value) :
  SceneHandlers.made (SceneHandlers.handleAddNode env sceneFile args) <> [] ->
  exists path scene params,
    SceneHandlers.made (SceneHandlers.handleAddNode env sceneFile args)
    = [ {| callOperation := "add_node"; callParams := params;
           callProjectPath := Some (VStr path) |} ] /\
    obj_own (normalizeArgs args) "projectPath" = Some (VStr path) /\
    obj_own (normalizeArgs args) "scenePath" = Some (VStr scene) /\
    ProjectUtils.validatePath path = true /\
    ProjectUtils.validatePath scene = true /\
    projectMarker env path = true /\
    sceneFile path scene = true /\
    (forall k v, obj_own params k = Some v ->
       In k ["scenePath"; "nodeType"; "nodeName"; "parentNodePath"; "properties"] /\
       obj_own (normalizeArgs args) k = Some v /\ truthy v = true) /\
    (forall k, In k ["scenePath"; "nodeType"; "nodeName"] -> obj_own params k <> None).
Proof.
  unfold SceneHandlers.handleAddNode.
  set (normalized := normalizeArgs args).
  destruct (SceneHandlers.lacks normalized "projectPath") eqn:Hproject;
    [intros H; now contradiction H|].
  destruct (SceneHandlers.lacks normalized "scenePath") eqn:Hscene;
    [intros H; now contradiction H|].
  destruct (SceneHandlers.lacks normalized "nodeType") eqn:Htype;
    [intros H; now contradiction H|].
  destruct (SceneHandlers.lacks normalized "nodeName") eqn:Hname;
    [intros H; now contradiction H|].
  cbn [orb].
  apply lacks_false in Hproject as (projectPath & Hproject & _).
  apply lacks_false in Hscene as (scenePath & Hscene & Hscene').
  apply lacks_false in Htype as (nodeType & Htype & Htype').
  apply lacks_false in Hname as (nodeName & Hname & Hname').
  rewrite Hproject, Hscene. cbn [default from_option id].
  destruct (SceneHandlers.checkPaths projectPath scenePath) as [over|[]] eqn:Hcheck;
    cbv beta iota.
  { intros H. now rewrite (checkPaths_made _ _ _ Hcheck) in H. }
  apply checkPaths_accepts in Hcheck as [Hvalid Hvalid'].
  destruct projectPath as [| | |path| |]; try (intros H; now contradiction H).
  destruct (projectMarker env path) eqn:Hmarker; cbn [negb];
    [|intros H; now contradiction H].
  destruct scenePath as [| | |scene| |]; try (intros H; now contradiction H).
  destruct (sceneFile path scene) eqn:Hfile; cbn [negb];
    [|intros H; now contradiction H].
  intros _.
  destruct (executeOperation env _) as [outcome effs] eqn:Hexec.
  cbn [SceneHandlers.made].
  exists path, scene, (SceneHandlers.addNodeParams normalized).
  assert (forall s, validatePathDyn (VStr s) = Some true ->
                    ProjectUtils.validatePath s = true) as Hstring.
  { intros s. unfold validatePathDyn.
    destruct (negb (truthy (VStr s))); [discriminate | congruence]. }
  split; [reflexivity|]. do 6 (split; [auto|]).
  unfold SceneHandlers.addNodeParams. rewrite Hscene, Htype, Hname.
  cbn [default from_option id]. split.
  - intros k v Hk.
    apply copyIfTruthy_spec in Hk; [|discriminate].
    destruct Hk as [Hk|(-> & Hv & Hv')]; [|split; [do 4 right; now left | auto]].
    apply copyIfTruthy_spec in Hk; [|discriminate].
    destruct Hk as [Hk|(-> & Hv & Hv')]; [|split; [do 3 right; now left | auto]].
    cbn [obj_own] in Hk.
    destruct (String.eqb_spec "scenePath" k) as [<-|_].
    { injection Hk as <-. split; [now left | auto]. }
    destruct (String.eqb_spec "nodeType" k) as [<-|_].
    { injection Hk as <-. split; [right; now left | auto]. }
    destruct (String.eqb_spec "nodeName" k) as [<-|_]; [|discriminate].
    injection Hk as <-. split; [right; right; now left | auto].
  - intros k Hin.
    apply copyIfTruthy_keeps; [discriminate|].
    apply copyIfTruthy_keeps; [discriminate|].
    destruct Hin as [<-|[<-|[<-|[]]]]; discriminate.
Qed.

Lemma handleAddNode_hands_on_known_params_witness :
  SceneHandlers.made
    (SceneHandlers.handleAddNode demoEnv (fun _ _ => true)
       [ ("project_path", VStr "demo"); ("scene_path", VStr "main.tscn");
         ("node_type", VStr "Sprite2D"); ("node_name", VStr "Player");
         ("parent_node_path", VStr ""); ("visible", VBool true) ])
  = [ {| callOperation := "add_node";
         callParams := [ ("scenePath", VStr "main.tscn");
                         ("nodeType", VStr "Sprite2D");
                         ("nodeName", VStr "Player") ];
         callProjectPath := Some (VStr "demo") |} ].
Proof.
  destruct (handleAddNode_hands_on_known_params demoEnv (fun _ _ => true)
              [ ("project_path", VStr "demo"); ("scene_path", VStr "main.tscn");
                ("node_type", VStr "Sprite2D"); ("node_name", VStr "Player");
                ("parent_node_path", VStr ""); ("visible", VBool true) ])
    as (path & scene & params & Hmade & _).
  - discriminate.
  - reflexivity.
Defined.

Section Uids.

Import SceneHandlers.

Variable JSON_parse : string -> option Value.

(** The generic handler normalizes its arguments, so it makes no
    difference to it whether they were normalized before. *)
Lemma handleOperationTool_normalized env toolName operation args requiredParams options :
  handleOperationTool JSON_parse env toolName operation (normalizeArgs args)
                      requiredParams options
  = handleOperationTool JSON_parse env toolName operation args requiredParams options.
Proof. unfold handleOperationTool. now rewrite normalizeArgs_idem. Qed.

Lemma onSupportedVersion_spec env v failed toolName operation args requiredParams :
  let h := onSupportedVersion JSON_parse env v failed toolName operation
                              (normalizeArgs args) requiredParams in
  let generic := handleOperationTool JSON_parse env toolName operation args
                                     requiredParams noOptions in
  match (queryVersion v).2 with
  | inl version =>
      if ProjectFiles.isGodot44OrLater version
      then response h = response generic /\ calls h = calls generic /\
           effects h = (queryVersion v).1 ++ effects generic
      else response h = unsupportedVersion version /\ calls h = [] /\
           effects h = (queryVersion v).1
  | inr message =>
      isError (response h) = true /\ calls h = [] /\ effects h = (queryVersion v).1
  end.
Proof.
  unfold onSupportedVersion.
  destruct (queryVersion v) as [effs [version|message]]; cbn [fst snd].
  - destruct (ProjectFiles.isGodot44OrLater version); cbn [negb].
    + rewrite handleOperationTool_normalized. auto.
    + auto.
  - auto.
Qed.

End Uids.

(** X25: the UID tools are gated on the version of the engine: the
    executor is reached only when the version query succeeds and prints a
    version that is 4.4 or later; and then, for arguments that have a
    project path and a file path, [handleGetUid] replies and calls as the
    generic handler does on the arguments as they came, the effects of
    the version query coming first. *)
Theorem handleGetUid_gated_on_version (JSON_parse : string -> option Value)
    (env : Env) (v : SceneHandlers.VersionEnv) (args : Obj Value) :
  let h := SceneHandlers.handleGetUid JSON_parse env v args in
  let generic := handleOperationTool JSON_parse env "get UID" "get_uid" args
                   ["projectPath"; "filePath"] SceneHandlers.noOptions in
  (calls h <> [] ->
   exists version,
     (SceneHandlers.queryVersion v).2 = inl version /\
     ProjectFiles.isGodot44OrLater version = true) /\
  (forall version,
     (SceneHandlers.queryVersion v).2 = inl version ->
     ProjectFiles.isGodot44OrLater version = true ->
     SceneHandlers.lacks (normalizeArgs args) "projectPath" = false ->
     SceneHandlers.lacks (normalizeArgs args) "filePath" = false ->
     response h = response generic /\ calls h = calls generic /\
     effects h = (SceneHandlers.queryVersion v).1 ++ effects generic).
Proof.
  intros h generic. subst h generic. unfold SceneHandlers.handleGetUid.
  pose proof (onSupportedVersion_spec JSON_parse env v "Failed to get UID: "
                "get UID" "get_uid" args ["projectPath"; "filePath"]) as Hspec.
  cbv zeta in Hspec. split.
  - destruct (SceneHandlers.lacks (normalizeArgs args) "projectPath"
              || SceneHandlers.lacks (normalizeArgs args) "filePath");
      [intros H; now contradiction H|].
    intros Hcalls.
    destruct (SceneHandlers.queryVersion v).2 as [version|message].
    + exists version. split; [reflexivity|].
      destruct (ProjectFiles.isGodot44OrLater version); [reflexivity|].
      destruct Hspec as (_ & Hnone & _). now rewrite Hnone in Hcalls.
    + destruct Hspec as (_ & Hnone & _). now rewrite Hnone in Hcalls.
  - intros version Hversion Hsupported Hproject Hfile.
    rewrite Hproject, Hfile. cbn [orb].
    rewrite Hversion, Hsupported in Hspec. exact Hspec.
Qed.

Lemma handleGetUid_gated_on_version_witness :
  let old := {| SceneHandlers.pathManager := godotFound;
                SceneHandlers.execVersion := fun _ => inl "4.3.stable" |} in
  let recent := {| SceneHandlers.pathManager := godotFound;
                   SceneHandlers.execVersion := fun _ => inl "4.4.1.stable" |} in
  let args := [("project_path", VStr "demo"); ("file_path", VStr "icon.svg")] in
  calls (SceneHandlers.handleGetUid demoParse demoEnv old args) = [] /\
  calls (SceneHandlers.handleGetUid demoParse demoEnv recent args)
  = calls (handleOperationTool demoParse demoEnv "get UID" "get_uid" args
             ["projectPath"; "filePath"] SceneHandlers.noOptions).
Proof.
  intros old recent args. split; [reflexivity|].
  exact (proj1 (proj2 (proj2 (handleGetUid_gated_on_version demoParse demoEnv recent args)
                         "4.4.1.stable" eq_refl eq_refl eq_refl eq_refl))).
Defined.


(** ** The configuration of the server *)

Section Merging.

Import ServerConfig.

Lemma mergePath_spec current pathValue :
  let '(path, changed) := mergePath current pathValue in
  (changed = false <-> path = current) /\
  mergePath path pathValue = (path, false).
Proof.
  unfold mergePath.
  destruct pathValue as [[| | |text| |]|]; try (split; [tauto | reflexivity]).
  - destruct current; (split; [split; intros; congruence | reflexivity]).
  - destruct (String.eqb_spec (JSString.trim text) "") as [Hempty|Hempty].
    + destruct current; (split; [split; intros; congruence | reflexivity]).
    + destruct current as [path|].
      * destruct (String.eqb_spec path (JSString.trim text)) as [->|Hne].
        -- split; [tauto|]. now rewrite String.eqb_refl.
        -- split; [split; intros; congruence|]. now rewrite String.eqb_refl.
      * split; [split; intros; congruence|]. now rewrite String.eqb_refl.
Qed.

Lemma mergeFlag_spec current value :
  let '(flag, changed) := mergeFlag current value in
  (changed = false <-> flag = current) /\
  mergeFlag flag value = (flag, false).
Proof.
  unfold mergeFlag.
  destruct value as [v|]; [|split; [tauto | reflexivity]].
  destruct (parseBoolean v) as [coerced|]; [|split; [tauto | reflexivity]].
  destruct current as [flag|].
  - destruct (Bool.eqb_spec flag coerced) as [->|Hne].
    + split; [tauto|]. now rewrite Bool.eqb_reflx.
    + split; [split; intros; congruence|]. now rewrite Bool.eqb_reflx.
  - split; [split; intros; congruence|]. now rewrite Bool.eqb_reflx.
Qed.

End Merging.

(** X26: [mergeConfig] reports a change exactly when the configuration
    it returns differs from the one it was given, and merging the same
    input into what it returns changes nothing. *)
Theorem mergeConfig_changed_iff_different (current : ServerConfig.GodotServerConfig)
    (input : Obj Value) :
  let '(next, changed) := ServerConfig.mergeConfig current input in
  (changed = false <-> next = current) /\
  ServerConfig.mergeConfig next input = (next, false).
Proof.
  unfold ServerConfig.mergeConfig.
  pose proof (mergePath_spec (ServerConfig.godotPath current)
                (obj_own input "godotPath")) as H0.
  pose proof (mergeFlag_spec (ServerConfig.debugMode current)
                (obj_own input "debugMode")) as H1.
  pose proof (mergeFlag_spec (ServerConfig.godotDebugMode current)
                (obj_own input "godotDebugMode")) as H2.
  pose proof (mergeFlag_spec (ServerConfig.strictPathValidation current)
                (obj_own input "strictPathValidation")) as H3.
  destruct (ServerConfig.mergePath _ _) as [path changed0].
  destruct (ServerConfig.mergeFlag (ServerConfig.debugMode current) _)
    as [debug changed1].
  destruct (ServerConfig.mergeFlag (ServerConfig.godotDebugMode current) _)
    as [godotDebug changed2].
  destruct (ServerConfig.mergeFlag (ServerConfig.strictPathValidation current) _)
    as [strict changed3].
  destruct H0 as [H0 K0], H1 as [H1 K1], H2 as [H2 K2], H3 as [H3 K3].
  split.
  - destruct current as [path' debug' godotDebug' strict']. cbn in *. split.
    + intros H. apply orb_false_elim in H as [H Hc3].
      apply orb_false_elim in H as [H Hc2].
      apply orb_false_elim in H as [Hc0 Hc1].
      f_equal; tauto.
    + intros [= -> -> -> ->].
      rewrite (proj2 H0 eq_refl), (proj2 H1 eq_refl), (proj2 H2 eq_refl),
        (proj2 H3 eq_refl). reflexivity.
  - cbn. rewrite K0, K1, K2, K3. reflexivity.
Qed.

(** ** The tools and their dispatch *)

Section Dispatching.

Import GodotServer.

Ltac listed := cbn; repeat first [left; reflexivity | right].

Lemma dispatch_listed name :
  dispatch name <> None <-> In name (map fst tools).
Proof.
  split.
  - unfold dispatch. intros H.
    repeat match goal with
           | H : context [String.eqb name ?s] |- _ =>
               destruct (String.eqb_spec name s) as [Heq|?]; [subst name; listed|]
           end.
    now contradiction H.
  - intros Hin. cbn in Hin.
    repeat (destruct Hin as [<-|Hin]; [discriminate|]). destruct Hin.
Qed.

Lemma dispatch_operation name toolName operation requiredParams options :
  dispatch name = Some (OperationTool toolName operation requiredParams options) ->
  expectsJson options = false /\
  In (name, requiredParams) tools /\
  In "projectPath" requiredParams /\
  operation = name.
Proof.
  unfold dispatch.
  repeat match goal with
         | |- context [String.eqb name ?s] =>
             destruct (String.eqb_spec name s) as [Heq|?];
             [ subst name; try discriminate;
               intros [= <- <- <- <-];
               (split; [reflexivity|]); (split; [listed|]);
               (split; [listed | reflexivity]) |]
         end.
  discriminate.
Qed.

End Dispatching.

(** X27: the server dispatches exactly the tools it lists; and a tool it
    hands to the generic handler is handled without the JSON extraction,
    requires the parameters the listed schema requires, the project path
    among them, and runs the operation of its own name. *)
Theorem dispatch_matches_tools (name : string) :
  (GodotServer.dispatch name <> None <-> In name (map fst GodotServer.tools)) /\
  (forall toolName operation requiredParams options,
     GodotServer.dispatch name
     = Some (GodotServer.OperationTool toolName operation requiredParams options) ->
     expectsJson options = false /\
     In (name, requiredParams) GodotServer.tools /\
     In "projectPath" requiredParams /\
     operation = name).
Proof.
  split; [apply dispatch_listed | apply dispatch_operation].
Qed.
